(** * Ghostwriter: the agent execution core

    A shallow embedding of the TypeScript sources of the agent loop, the
    tool dispatchers, the safety checks of the tools and the provider
    adapters, followed by the properties of the specification that are
    stated about them.

    Conventions of the embedding.
    - A JavaScript string is a [string] holding the UTF-8 encoding of its
      text.  The string operations the sources use ([startsWith],
      [includes], [endsWith], [slice(0,-1)], [trim], regular expressions
      whose literals are ASCII) act the same on the encoding as on the
      UTF-16 code units of a well-formed string.
    - [Promise]-returning functions run to completion one after the other
      (the sources [await] every call), so they are functions of an
      explicit world: the trace of the interactions with the outside
      (terminal, LLM backend, file system, subprocesses, MCP servers).  The
      outside is a record of oracles that answer from the trace so far.
    - A thrown exception is the [Throw] result of the monad. *)

From Stdlib Require Import ZArith Ascii String.
From stdpp Require Import base option list strings pretty gmap.

Local Open Scope string_scope.
Local Open Scope list_scope.
Local Open Scope nat_scope.
Set Warnings "-register-all".

(** ** JavaScript strings *)

Module Js.

Definition byte_of (n : nat) : ascii := ascii_of_nat n.
Definition code (c : ascii) : nat := nat_of_ascii c.

Fixpoint of_bytes (l : list nat) : string :=
  match l with
  | [] => EmptyString
  | n :: l' => String (byte_of n) (of_bytes l')
  end.

(** [String.prototype.startsWith] *)
Fixpoint startsWith (s p : string) {struct p} : bool :=
  match p, s with
  | EmptyString, _ => true
  | String a p', String b s' => if Ascii.eqb a b then startsWith s' p' else false
  | String _ _, EmptyString => false
  end.

(** [String.prototype.includes] *)
Fixpoint includes (s sub : string) : bool :=
  startsWith s sub ||
  match s with
  | EmptyString => false
  | String _ s' => includes s' sub
  end.

(** [String.prototype.endsWith] for a one-character suffix. *)
Fixpoint endsWithChar (s : string) (c : ascii) : bool :=
  match s with
  | EmptyString => false
  | String a EmptyString => Ascii.eqb a c
  | String _ s' => endsWithChar s' c
  end.

(** [s.slice(0, -1)]: all but the last character. *)
Fixpoint slice_init (s : string) : string :=
  match s with
  | EmptyString => EmptyString
  | String _ EmptyString => EmptyString
  | String a s' => String a (slice_init s')
  end.

(** [Array.prototype.includes] on strings. *)
Definition array_includes (l : list string) (x : string) : bool :=
  existsb (String.eqb x) l.

(** The white space and line terminators of ECMAScript ([\s] of a regular
    expression, the characters removed by [trim]), as UTF-8 sequences:
    TAB LF VT FF CR SP, U+00A0, U+1680, U+2000..U+200A, U+2028, U+2029,
    U+202F, U+205F, U+3000, U+FEFF. *)
Definition ascii_space (c : ascii) : bool :=
  let n := code c in
  ((9 <=? n) && (n <=? 13)) || (n =? 32).

Definition space_sequences : list (list nat) :=
  [ [194; 160]; [225; 154; 128];
    [226; 128; 128]; [226; 128; 129]; [226; 128; 130]; [226; 128; 131];
    [226; 128; 132]; [226; 128; 133]; [226; 128; 134]; [226; 128; 135];
    [226; 128; 136]; [226; 128; 137]; [226; 128; 138];
    [226; 128; 168]; [226; 128; 169]; [226; 128; 175];
    [226; 129; 159]; [227; 128; 128]; [239; 187; 191] ].

(** The line terminators, which [.] does not match: LF, CR, U+2028, U+2029. *)
Definition ascii_newline (c : ascii) : bool :=
  let n := code c in (n =? 10) || (n =? 13).

Definition newline_sequences : list (list nat) :=
  [ [226; 128; 168]; [226; 128; 169] ].

Fixpoint drop (n : nat) (s : string) : string :=
  match n, s with
  | O, _ => s
  | S n', String _ s' => drop n' s'
  | S _, EmptyString => EmptyString
  end.

Fixpoint rev_append (s acc : string) : string :=
  match s with
  | EmptyString => acc
  | String c s' => rev_append s' (String c acc)
  end.

Definition rev (s : string) : string := rev_append s EmptyString.

(** Drops one leading white space character, if there is one; [seqs] holds
    the multi-byte ones. *)
Definition drop_space (seqs : list (list nat)) (s : string) : option string :=
  match s with
  | EmptyString => None
  | String c s' =>
      if ascii_space c then Some s'
      else
        match List.find (fun q => startsWith s (of_bytes q)) seqs with
        | Some q => Some (drop (length q) s)
        | None => None
        end
  end.

Fixpoint drop_spaces (fuel : nat) (seqs : list (list nat)) (s : string) : string :=
  match fuel with
  | O => s
  | S fuel' =>
      match drop_space seqs s with
      | Some s' => drop_spaces fuel' seqs s'
      | None => s
      end
  end.

Definition trimStart (s : string) : string :=
  drop_spaces (String.length s) space_sequences s.

Definition trimEnd (s : string) : string :=
  rev (drop_spaces (String.length s) (map (@List.rev nat) space_sequences) (rev s)).

(** [String.prototype.trim] *)
Definition trim (s : string) : string := trimEnd (trimStart s).

(** [String.prototype.toLowerCase] on ASCII letters (the only use in the
    sources is on a match of [\w+]). *)
Definition lower (c : ascii) : ascii :=
  let n := code c in
  if (65 <=? n) && (n <=? 90) then byte_of (n + 32) else c.

Fixpoint toLowerCase (s : string) : string :=
  match s with
  | EmptyString => EmptyString
  | String c s' => String (lower c) (toLowerCase s')
  end.

(** Truthiness of a string: only the empty string is falsy. *)
Definition truthy (s : string) : bool :=
  match s with EmptyString => false | _ => true end.

End Js.

(** ** Regular expressions

    The patterns of the sources are built from the constructors below;
    matching is by derivatives, and [test] is the unanchored search of
    [RegExp.prototype.test]. *)

Module Regex.

Inductive regex : Type :=
| Void
| Eps
| Class (p : ascii -> bool)
| Seq (r s : regex)
| Alt (r s : regex)
| Star (r : regex).

Fixpoint nullable (r : regex) : bool :=
  match r with
  | Void => false
  | Eps => true
  | Class _ => false
  | Seq r s => nullable r && nullable s
  | Alt r s => nullable r || nullable s
  | Star _ => true
  end.

Fixpoint deriv (c : ascii) (r : regex) : regex :=
  match r with
  | Void | Eps => Void
  | Class p => if p c then Eps else Void
  | Seq r s =>
      if nullable r then Alt (Seq (deriv c r) s) (deriv c s)
      else Seq (deriv c r) s
  | Alt r s => Alt (deriv c r) (deriv c s)
  | Star r => Seq (deriv c r) (Star r)
  end.

(** The whole string matches. *)
Fixpoint matches (r : regex) (s : string) : bool :=
  match s with
  | EmptyString => nullable r
  | String c s' => matches (deriv c r) s'
  end.

(** Some prefix of the string matches. *)
Fixpoint matches_prefix (r : regex) (s : string) : bool :=
  nullable r ||
  match s with
  | EmptyString => false
  | String c s' => matches_prefix (deriv c r) s'
  end.

(** [r.test(s)] for a pattern without the [g] and [y] flags. *)
Fixpoint test (r : regex) (s : string) : bool :=
  matches_prefix r s ||
  match s with
  | EmptyString => false
  | String _ s' => test r s'
  end.

(** The language of a pattern, to state what the matcher decides. *)
Inductive lang : regex -> string -> Prop :=
| lang_eps : lang Eps EmptyString
| lang_class p c : p c = true -> lang (Class p) (String c EmptyString)
| lang_seq r s u v : lang r u -> lang s v -> lang (Seq r s) (u +:+ v)
| lang_alt_l r s u : lang r u -> lang (Alt r s) u
| lang_alt_r r s u : lang s u -> lang (Alt r s) u
| lang_star_nil r : lang (Star r) EmptyString
| lang_star_cons r u v : lang r u -> lang (Star r) v -> lang (Star r) (u +:+ v).

(** Pattern syntax. *)
Definition chr_i (c : ascii) : regex :=
  Class (fun b => Ascii.eqb (Js.lower b) (Js.lower c)).

(** A literal under the [i] flag: ASCII letters match in either case. *)
Fixpoint lit_i (s : string) : regex :=
  match s with
  | EmptyString => Eps
  | String c EmptyString => chr_i c
  | String c s' => Seq (chr_i c) (lit_i s')
  end.

Fixpoint bytes (l : list nat) : regex :=
  match l with
  | [] => Eps
  | [n] => Class (fun b => Js.code b =? n)
  | n :: l' => Seq (Class (fun b => Js.code b =? n)) (bytes l')
  end.

Definition alts (l : list regex) : regex := fold_right Alt Void l.
Definition plus (r : regex) : regex := Seq r (Star r).
Definition opt (r : regex) : regex := Alt r Eps.

(** [\s] *)
Definition space : regex :=
  Alt (Class Js.ascii_space) (alts (map bytes Js.space_sequences)).

Fixpoint seqs (l : list regex) : regex :=
  match l with
  | [] => Eps
  | [r] => r
  | r :: l' => Seq r (seqs l')
  end.

End Regex.

(** ** Values, results and the world *)

(** A JavaScript value of type [unknown]: tool arguments and result data.
    Numbers are the integers the sources use (time-outs, exit codes). *)
Inductive JsVal : Type :=
| JUndefined
| JNull
| JBool (b : bool)
| JNum (n : Z)
| JStr (s : string)
| JArr (l : list JsVal)
| JObj (fields : list (string * JsVal)).

Definition js_truthy (v : JsVal) : bool :=
  match v with
  | JUndefined | JNull => false
  | JBool b => b
  | JNum n => negb (n =? 0)%Z
  | JStr s => Js.truthy s
  | JArr _ | JObj _ => true
  end.

(** [Record<string, unknown>]; a missing key reads as [undefined]. *)
Abbreviation Args := (gmap string JsVal).

Definition prop (args : Args) (key : string) : JsVal :=
  default JUndefined (args !! key).

(** types.ts *)
Module Role.
Inductive MessageRole := system | user | assistant | tool.
End Role.
Abbreviation MessageRole := Role.MessageRole.

Record NativeToolCall := {
  ntc_id : string;
  ntc_name : string;
  ntc_arguments : Args }.

Record Message := {
  role : MessageRole;
  content : string;
  name : option string;
  tool_call_id : option string;
  tool_calls : option (list NativeToolCall) }.

Record ToolCall := {
  tc_name : string;
  tc_arguments : Args }.

Record ToolResult := {
  success : bool;
  data : option JsVal;
  error : option string }.

(** The response object as [Agent.run] reads it. *)
Record LLMResponse := {
  thinking : option string;
  plan : option string;
  response : string;
  resp_tool_calls : option (list ToolCall) }.

Record ProjectConfig := {
  allow_commands : option (list string);
  allow_write_paths : option (list string);
  deny_paths : option (list string) }.

Record AppConfig := {
  workingDirectory : string;
  autoConfirm : bool;
  project : ProjectConfig;
  maxToolLoops : Z;
  debug : bool }.

Record AgentConfig := {
  type : string;
  cfg_name : option string;
  systemPrompt : option string;
  availableTools : option (list string);
  maxLoops : option Z }.

(** What a subprocess does after [spawn]: the callbacks that run, in
    order, up to the one that settles the promise of [executeCommand]. *)
Inductive ProcEvent :=
| OnStdout (chunk : string)
| OnStderr (chunk : string)
| OnTimer.

Inductive ProcEnd :=
| OnClose (code : option Z)
| OnError (err : string).

Record ProcRun := {
  proc_events : list ProcEvent;
  proc_end : ProcEnd }.

Inductive FsOp := rmSync | rmdirSync | unlinkSync | mkdirSync | writeFileSync | appendFileSync.

Inductive Result (A : Type) :=
| Ok (a : A)
| Throw (e : string).
Arguments Ok {A} a.
Arguments Throw {A} e.

(** One interaction with the outside. *)
Inductive Event :=
| EvConfirm (message : string) (answer : bool)
| EvLlmCall (messages : list Message) (answer : Result LLMResponse)
| EvGenerateId (id : string)
| EvSpawn (command cwd : string) (timeout : JsVal)
| EvKill (signal : string)
| EvExists (path : string) (answer : bool)
| EvStat (path : string)
| EvFs (op : FsOp) (path : string)
| EvReadTool (tool_name : string) (args : Args)
| EvMcpCall (tool_name : string) (args : Args).

Abbreviation Trace := (list Event).

(** The outside world: every answer is a function of the request and of
    the interactions so far. *)
Record Outside := {
  (** ui: the interactive [confirm] prompt *)
  ui_confirm : string -> Trace -> bool;
  (** [LLMClient.call] *)
  llm_call : list Message -> Trace -> Result LLMResponse;
  (** [Date.now().toString(36) + Math.random().toString(36).substr(2)] *)
  random_id : Trace -> string;
  (** child_process *)
  spawn : string -> string -> JsVal -> Trace -> ProcRun;
  (** fs *)
  existsSync : string -> Trace -> bool;
  statSync_isDirectory : string -> Trace -> Result bool;
  fs_op : FsOp -> string -> Trace -> Result unit;
  (** list_files, read_file, search_codebase: read-only tools *)
  read_tool : string -> Args -> string -> Trace -> ToolResult;
  (** [MCPManager.callTool] *)
  mcp_callTool : string -> Args -> Trace -> Result ToolResult;
  (** [process.cwd()] *)
  process_cwd : string;
  (** [JSON.stringify] *)
  stringify_response : LLMResponse -> string;
  stringify_data : option JsVal -> string }.

(** ** The monad of the embedding: state and exceptions *)

Definition M (S A : Type) : Type := S -> Result A * S.

Definition ret {S A} (a : A) : M S A := fun s => (Ok a, s).

Definition throw {S A} (e : string) : M S A := fun s => (Throw e, s).

(** A step that returns or throws and leaves the state as it is. *)
Definition of_result {S A} (r : Result A) : M S A := fun s => (r, s).

Definition bind {S A B} (m : M S A) (k : A -> M S B) : M S B :=
  fun s =>
    match m s with
    | (Ok a, s') => k a s'
    | (Throw e, s') => (Throw e, s')
    end.

(** [try { m } catch (error) { h error }] *)
Definition try_catch {S A} (m : M S A) (h : string -> M S A) : M S A :=
  fun s =>
    match m s with
    | (Ok a, s') => (Ok a, s')
    | (Throw e, s') => h e s'
    end.

(** [try { m } finally { f }] *)
Definition try_finally {S A B} (m : M S A) (f : M S B) : M S A :=
  fun s =>
    let (r, s') := m s in
    match f s' with
    | (Ok _, s'') => (r, s'')
    | (Throw e, s'') => (Throw e, s'')
    end.

Definition gets {S A} (f : S -> A) : M S A := fun s => (Ok (f s), s).

Definition modify {S} (f : S -> S) : M S unit := fun s => (Ok tt, f s).

(** Runs a computation on a part of the state. *)
Definition zoom {S T A} (get : S -> T) (set : T -> S -> S) (m : M T A) : M S A :=
  fun s => let (r, t') := m (get s) in (r, set t' s).

Declare Scope monad_scope.
Delimit Scope monad_scope with M.
Notation "x <- m ;; k" := (bind m (fun x => k))
  (at level 100, m at next level, right associativity) : monad_scope.
Notation "m ;;; k" := (bind m (fun _ => k))
  (at level 100, right associativity) : monad_scope.
Local Open Scope monad_scope.

(** Computations that only interact with the outside. *)
Abbreviation IO := (M Trace).

(** Asks an oracle and records the interaction. *)
Definition ask {A} (q : Trace -> A) (ev : A -> Event) : IO A :=
  fun t => let a := q t in (Ok a, t ++ [ev a]).

(** ** node:path, POSIX flavour *)

Module Path.

Definition slash : ascii := Js.byte_of 47.

(** The pieces of a path between its separators. *)
Fixpoint split (s : string) : list string :=
  match s with
  | EmptyString => [EmptyString]
  | String c s' =>
      if Ascii.eqb c slash then EmptyString :: split s'
      else
        match split s' with
        | x :: xs => String c x :: xs
        | [] => [String c EmptyString]
        end
  end.

(** One segment of [normalizeString]; [res] is the stack of segments kept
    so far, the last one first. *)
Definition push_segment (allowAboveRoot : bool) (res : list string) (seg : string)
  : list string :=
  if String.eqb seg "" || String.eqb seg "." then res
  else if String.eqb seg ".." then
    match res with
    | top :: rest =>
        if String.eqb top ".." then (if allowAboveRoot then ".." :: res else res)
        else rest
    | [] => if allowAboveRoot then [".."] else []
    end
  else seg :: res.

Definition normalize_segments (allowAboveRoot : bool) (path : string) : list string :=
  List.rev (fold_left (push_segment allowAboveRoot) (split path) []).

Fixpoint join (segs : list string) : string :=
  match segs with
  | [] => ""
  | [x] => x
  | x :: xs => x +:+ "/" +:+ join xs
  end.

Definition normalizeString (path : string) (allowAboveRoot : bool) : string :=
  join (normalize_segments allowAboveRoot path).

Definition isAbsolute (path : string) : bool := Js.startsWith path "/".

(** [path.normalize] *)
Definition normalize (path : string) : string :=
  if String.eqb path "" then "."
  else
    let trailingSeparator := Js.endsWithChar path slash in
    let p := normalizeString path (negb (isAbsolute path)) in
    if String.eqb p "" then
      if isAbsolute path then "/" else if trailingSeparator then "./" else "."
    else
      let p := if trailingSeparator then p +:+ "/" else p in
      if isAbsolute path then "/" +:+ p else p.

(** The loop of [path.resolve]: the arguments from the last to the first,
    then the current directory, until an absolute one is met. *)
Fixpoint resolve_loop (rargs : list string) (resolvedPath : string) : string * bool :=
  match rargs with
  | [] => (resolvedPath, false)
  | p :: rest =>
      if String.eqb p "" then resolve_loop rest resolvedPath
      else
        let resolvedPath := p +:+ "/" +:+ resolvedPath in
        if isAbsolute p then (resolvedPath, true)
        else resolve_loop rest resolvedPath
  end.

(** [path.resolve(...args)] with [cwd] the value of [process.cwd()]. *)
Definition resolve (cwd : string) (args : list string) : string :=
  let (resolvedPath, resolvedAbsolute) := resolve_loop (List.rev args ++ [cwd]) "" in
  let p := normalizeString resolvedPath (negb resolvedAbsolute) in
  if resolvedAbsolute then "/" +:+ p
  else if String.eqb p "" then "." else p.

Fixpoint dirname_scan (r : string) (matchedSlash : bool) : option string :=
  match r with
  | EmptyString => None
  | String c r' =>
      if Ascii.eqb c slash then
        (if matchedSlash then dirname_scan r' true else Some r')
      else dirname_scan r' false
  end.

(** [path.dirname] *)
Definition dirname (path : string) : string :=
  match path with
  | EmptyString => "."
  | String c0 tl =>
      let hasRoot := Ascii.eqb c0 slash in
      match dirname_scan (Js.rev tl) true with
      | None => if hasRoot then "/" else "."
      | Some rem =>
          if hasRoot && String.eqb rem "" then "//"
          else String c0 (Js.rev rem)
      end
  end.

Fixpoint no_slash (s : string) : bool :=
  match s with
  | EmptyString => true
  | String c s' => negb (Ascii.eqb c slash) && no_slash s'
  end.

(** The directories on the way to an absolute path, the root excluded. *)
Definition segments (path : string) : list string :=
  filter (fun seg => seg <> "") (split path).

(** The path a resolved absolute path is written as. *)
Definition render (segs : list string) : string := "/" +:+ join segs.

(** [p] is an absolute path in the form [path.resolve] returns. *)
Definition is_resolved (p : string) : bool :=
  String.eqb p (render (segments p)) &&
  forallb (fun seg => negb (String.eqb seg "." || String.eqb seg "..")) (segments p).

(** [a] is the directory [w] or one that contains it. *)
Definition is_ancestor_or_equal (a w : string) : bool :=
  bool_decide (segments a `prefix_of` segments w).

End Path.

(** ** config.ts *)

Definition DEFAULT_PROJECT_CONFIG : ProjectConfig :=
  {| allow_commands := Some [];
     allow_write_paths := Some [];
     deny_paths := Some ["node_modules"; ".git"; ".env"; ".env.local"] |}.

(** [createAppConfig]; [loaded] is the result of [loadProjectConfig], and
    the LLM settings, which the agent loop does not read, are left out. *)
Definition createAppConfig (cwd : string)
    (opt_autoConfirm opt_debug : option bool) (opt_workingDirectory : option string)
    (loaded : ProjectConfig) : AppConfig :=
  {| workingDirectory :=
       match opt_workingDirectory with
       | Some d => if Js.truthy d then d else cwd
       | None => cwd
       end;
     autoConfirm := default false opt_autoConfirm;
     project := loaded;
     maxToolLoops := 8;
     debug := default false opt_debug |}.

Definition isCommandAllowed (command : string) (config : AppConfig) : bool :=
  let allowedCommands := default [] (allow_commands (project config)) in
  if Js.array_includes allowedCommands command then true
  else
    existsb
      (fun allowed =>
         Js.endsWithChar allowed (Js.byte_of 42) &&
         Js.startsWith command (Js.slice_init allowed))
      allowedCommands.

Definition isPathAllowedForWrite (filePath : string) (config : AppConfig) : bool :=
  let normalizedPath := Path.normalize filePath in
  let denyPaths := default [] (deny_paths (project config)) in
  if existsb (fun denied => Js.includes normalizedPath denied) denyPaths then false
  else
    let allowPaths := default [] (allow_write_paths (project config)) in
    if 0 <? length allowPaths then
      existsb (fun allowed => Js.startsWith normalizedPath allowed) allowPaths
    else true.

(** ** The tools *)

Record ToolContext := {
  ctx_workingDirectory : string;
  ctx_config : AppConfig;
  ctx_autoConfirm : bool;
  confirmAction : string -> string -> IO bool }.

Inductive RiskLevel := low | medium | high.

Record ToolDefinition := {
  tool_name : string;
  riskLevel : option RiskLevel;
  requiresConfirmation : option bool;
  execute : Args -> ToolContext -> IO ToolResult }.

Definition failed (msg : string) : ToolResult :=
  {| success := false; data := None; error := Some msg |}.

Definition succeeded (d : JsVal) : ToolResult :=
  {| success := true; data := Some d; error := None |}.

Record RunCommandResult := {
  stdout : string;
  stderr : string;
  code : Z }.

Definition RunCommandResult_data (r : RunCommandResult) : JsVal :=
  JObj [("stdout", JStr (stdout r)); ("stderr", JStr (stderr r)); ("code", JNum (code r))].

(** The object [{ success: true }] of the file tools. *)
Definition success_data : JsVal := JObj [("success", JBool true)].

Definition lf : string := Js.of_bytes [10].

Section Tools.

Variable out : Outside.

(** *** run_command.ts *)

Definition DEFAULT_TIMEOUT : Z := 30000.

Definition DANGEROUS_PATTERNS : list Regex.regex :=
  let s := Regex.space in
  let lit := Regex.lit_i in
  [ (* /rm\s+(-rf?|--recursive)/i *)
    Regex.seqs [lit "rm"; Regex.plus s;
                Regex.Alt (Regex.Seq (lit "-r") (Regex.opt (lit "f"))) (lit "--recursive")];
    (* /sudo/i *)
    lit "sudo";
    (* /chmod\s+777/i *)
    Regex.seqs [lit "chmod"; Regex.plus s; lit "777"];
    (* />\s*\/dev\//i *)
    Regex.seqs [lit ">"; Regex.Star s; lit "/dev/"];
    (* /mkfs/i *)
    lit "mkfs";
    (* /dd\s+if=/i *)
    Regex.seqs [lit "dd"; Regex.plus s; lit "if="];
    (* /:\(\)\s*{\s*:\|:\s*&\s*}\s*;/i *)
    Regex.seqs [lit ":()"; Regex.Star s; lit "{"; Regex.Star s; lit ":|:"; Regex.Star s;
                lit "&"; Regex.Star s; lit "}"; Regex.Star s; lit ";"] ].

Definition isDangerousCommand (command : string) : bool :=
  existsb (fun pattern => Regex.test pattern command) DANGEROUS_PATTERNS.

(** The callbacks of [executeCommand]: what has been collected, whether
    the timer killed the process, whether the timer is still pending. *)
Record ProcState := {
  st_stdout : string;
  st_stderr : string;
  st_killed : bool;
  st_timer : bool }.

Definition on_event (st : ProcState) (e : ProcEvent) : ProcState * list Event :=
  match e with
  | OnStdout chunk =>
      ({| st_stdout := st_stdout st +:+ chunk; st_stderr := st_stderr st;
          st_killed := st_killed st; st_timer := st_timer st |}, [])
  | OnStderr chunk =>
      ({| st_stdout := st_stdout st; st_stderr := st_stderr st +:+ chunk;
          st_killed := st_killed st; st_timer := st_timer st |}, [])
  | OnTimer =>
      if st_timer st then
        ({| st_stdout := st_stdout st; st_stderr := st_stderr st;
            st_killed := true; st_timer := false |}, [EvKill "SIGKILL"])
      else (st, [])
  end.

Fixpoint on_events (st : ProcState) (es : list ProcEvent) : ProcState * list Event :=
  match es with
  | [] => (st, [])
  | e :: es' =>
      let r1 := on_event st e in
      let r2 := on_events r1.1 es' in
      (r2.1, r1.2 ++ r2.2)
  end.

(** What the callbacks have appended to [stdout] and to [stderr]. *)
Fixpoint stdout_of (es : list ProcEvent) : string :=
  match es with
  | [] => ""
  | OnStdout chunk :: es' => chunk +:+ stdout_of es'
  | _ :: es' => stdout_of es'
  end.

Fixpoint stderr_of (es : list ProcEvent) : string :=
  match es with
  | [] => ""
  | OnStderr chunk :: es' => chunk +:+ stderr_of es'
  | _ :: es' => stderr_of es'
  end.

Definition timer_fires (es : list ProcEvent) : bool :=
  existsb (fun e => match e with OnTimer => true | _ => false end) es.

Definition timeout_note : string := lf +:+ "[命令执行超时，已终止]".

(** The callback that settles the promise. *)
Definition on_end (st : ProcState) (e : ProcEnd) : Result RunCommandResult :=
  match e with
  | OnClose c =>
      if st_killed st then
        Ok {| stdout := st_stdout st; stderr := st_stderr st +:+ timeout_note; code := -1 |}
      else
        Ok {| stdout := st_stdout st; stderr := st_stderr st; code := default 0%Z c |}
  | OnError err => Throw err
  end.

Definition executeCommand (command cwd : string) (timeout : JsVal) : IO RunCommandResult :=
  fun t =>
    let t1 := t ++ [EvSpawn command cwd timeout] in
    let run := spawn out command cwd timeout t1 in
    let st0 := {| st_stdout := ""; st_stderr := ""; st_killed := false; st_timer := true |} in
    let r := on_events st0 (proc_events run) in
    (on_end r.1 (proc_end run), t1 ++ r.2).

(** The prompt of run_command: [`${prefix}执行命令: ${command}`]. *)
Definition run_command_prompt (dangerous : bool) (command : string) : string :=
  (if dangerous then "⚠️  高危命令 - " else "") +:+ "执行命令: " +:+ command.

(** The three assignments to [needConfirm]. *)
Definition run_command_needConfirm (command : string) (context : ToolContext) : bool :=
  let dangerous := isDangerousCommand command in
  let inWhitelist := isCommandAllowed command (ctx_config context) in
  let needConfirm := negb (ctx_autoConfirm context) in
  let needConfirm := if inWhitelist && negb dangerous then false else needConfirm in
  let needConfirm := if dangerous then true else needConfirm in
  needConfirm.

(** [(args.timeout as number) || DEFAULT_TIMEOUT] *)
Definition run_command_timeout (args : Args) : JsVal :=
  if js_truthy (prop args "timeout") then prop args "timeout" else JNum DEFAULT_TIMEOUT.

Definition run_command_execute (args : Args) (context : ToolContext) : IO ToolResult :=
  try_catch
    (let command := prop args "command" in
     let timeout := run_command_timeout args in
     if negb (js_truthy command) then ret (failed "必须提供命令")
     else
       match command with
       | JStr command =>
           if String.eqb (Js.trim command) "" then ret (failed "必须提供命令")
           else
             let dangerous := isDangerousCommand command in
             let needConfirm := run_command_needConfirm command context in
             let run :=
               result <- executeCommand command (ctx_workingDirectory context) timeout ;;
               ret (succeeded (RunCommandResult_data result)) in
             if needConfirm then
               let riskLevel := if dangerous then "high" else "medium" in
               confirmed <-
                 confirmAction context (run_command_prompt dangerous command) riskLevel ;;
               if negb confirmed then ret (failed "用户取消命令执行") else run
             else run
       | _ => throw "command.trim is not a function"
       end)
    (fun e => ret (failed ("命令执行失败: " +:+ e))).

Definition runCommandTool : ToolDefinition :=
  {| tool_name := "run_command"; riskLevel := Some medium;
     requiresConfirmation := Some true; execute := run_command_execute |}.

(** *** The file tools *)

Definition fs_existsSync (path : string) : IO bool :=
  ask (existsSync out path) (EvExists path).

Definition fs_isDirectory (path : string) : IO bool :=
  fun t => (statSync_isDirectory out path t, t ++ [EvStat path]).

Definition fs (op : FsOp) (path : string) : IO unit :=
  fun t => (fs_op out op path t, t ++ [EvFs op path]).

(** [path.resolve] throws a [TypeError] when an argument is not a string:
    the message names the position of the argument and what was received
    (the text of Node 20 and later). *)
Definition received (v : JsVal) : string :=
  match v with
  | JUndefined => "undefined"
  | JNull => "null"
  | JBool b => "type boolean (" +:+ (if b then "true" else "false") +:+ ")"
  | JNum n => "type number (" +:+ pretty n +:+ ")"
  | JStr s => "type string ('" +:+ s +:+ "')"
  | JArr _ => "an instance of Array"
  | JObj _ => "an instance of Object"
  end.

Definition path_TypeError (index : nat) (v : JsVal) : string :=
  "The " +:+ Js.of_bytes [34] +:+ "paths[" +:+ pretty index +:+ "]" +:+ Js.of_bytes [34] +:+
  " argument must be of type string. Received " +:+ received v.

(** delete_file.ts *)
Definition delete_file_execute (args : Args) (context : ToolContext) : IO ToolResult :=
  try_catch
    (let filePath := prop args "path" in
     let recursive := js_truthy (prop args "recursive") in
     if negb (js_truthy filePath) then ret (failed "必须提供文件路径")
     else
       match filePath with
       | JStr filePath =>
           let fullPath :=
             Path.resolve (process_cwd out) [ctx_workingDirectory context; filePath] in
           if negb (isPathAllowedForWrite fullPath (ctx_config context)) then
             ret (failed ("路径不允许删除: " +:+ fullPath))
           else if Js.startsWith (ctx_workingDirectory context) fullPath then
             ret (failed "不能删除工作目录或其父目录")
           else
             found <- fs_existsSync fullPath ;;
             if negb found then ret (failed ("文件不存在: " +:+ fullPath))
             else
               isDir <- fs_isDirectory fullPath ;;
               let action :=
                 if isDir then (if recursive then "递归删除目录" else "删除空目录")
                 else "删除文件" in
               confirmed <-
                 confirmAction context ("⚠️  " +:+ action +:+ ": " +:+ filePath) "high" ;;
               if negb confirmed then ret (failed "用户取消操作")
               else
                 (if isDir then
                    (if recursive then fs rmSync fullPath else fs rmdirSync fullPath)
                  else fs unlinkSync fullPath) ;;;
                 ret (succeeded success_data)
       | notAString => throw (path_TypeError 1 notAString)
       end)
    (fun e => ret (failed ("删除失败: " +:+ e))).

Definition deleteFileTool : ToolDefinition :=
  {| tool_name := "delete_file"; riskLevel := Some high;
     requiresConfirmation := Some true; execute := delete_file_execute |}.

(** The common body of write_file.ts and append_file.ts. *)
Definition store_file_execute (op : FsOp) (no_content denied present absent catch : string)
    (args : Args) (context : ToolContext) : IO ToolResult :=
  try_catch
    (let filePath := prop args "path" in
     let content := prop args "content" in
     if negb (js_truthy filePath) then ret (failed "必须提供文件路径")
     else
       match content, filePath with
       | JUndefined, _ | JNull, _ => ret (failed no_content)
       | _, JStr filePath =>
           let fullPath :=
             Path.resolve (process_cwd out) [ctx_workingDirectory context; filePath] in
           if negb (isPathAllowedForWrite fullPath (ctx_config context)) then
             ret (failed (denied +:+ fullPath))
           else
             let store :=
               let dirPath := Path.dirname fullPath in
               found <- fs_existsSync dirPath ;;
               (if negb found then fs mkdirSync dirPath else ret tt) ;;;
               fs op fullPath ;;;
               ret (succeeded success_data) in
             if negb (ctx_autoConfirm context) then
               fileExists <- fs_existsSync fullPath ;;
               let action := if fileExists then present else absent in
               confirmed <- confirmAction context (action +:+ "文件: " +:+ filePath) "medium" ;;
               if negb confirmed then ret (failed "用户取消操作") else store
             else store
       | _, notAString => throw (path_TypeError 1 notAString)
       end)
    (fun e => ret (failed (catch +:+ e))).

Definition write_file_execute : Args -> ToolContext -> IO ToolResult :=
  store_file_execute writeFileSync "必须提供文件内容" "路径不允许写入: " "覆盖" "创建"
    "写入文件失败: ".

Definition append_file_execute : Args -> ToolContext -> IO ToolResult :=
  store_file_execute appendFileSync "必须提供要追加的内容" "路径不允许写入: " "追加到"
    "创建并写入" "追加文件失败: ".

Definition writeFileTool : ToolDefinition :=
  {| tool_name := "write_file"; riskLevel := Some medium;
     requiresConfirmation := Some true; execute := write_file_execute |}.

Definition appendFileTool : ToolDefinition :=
  {| tool_name := "append_file"; riskLevel := Some medium;
     requiresConfirmation := Some true; execute := append_file_execute |}.

(** list_files.ts, read_file.ts, search_codebase.ts: they only read, and
    catch their own exceptions. *)
Definition read_tool_execute (tool : string) (args : Args) (context : ToolContext)
  : IO ToolResult :=
  fun t =>
    let t1 := t ++ [EvReadTool tool args] in
    (Ok (read_tool out tool args (ctx_workingDirectory context) t1), t1).

Definition readOnlyTool (tool : string) : ToolDefinition :=
  {| tool_name := tool; riskLevel := Some low;
     requiresConfirmation := Some false; execute := read_tool_execute tool |}.

Definition listFilesTool := readOnlyTool "list_files".
Definition readFileTool := readOnlyTool "read_file".
Definition searchCodebaseTool := readOnlyTool "search_codebase".

(** *** tools/index.ts *)

Definition tools : gmap string ToolDefinition :=
  fold_left (fun m tool => <[tool_name tool := tool]> m)
    [listFilesTool; readFileTool; writeFileTool; appendFileTool; deleteFileTool;
     runCommandTool; searchCodebaseTool] ∅.

Definition getTool (name : string) : option ToolDefinition := tools !! name.

Definition executeTool (toolCall : ToolCall) (context : ToolContext) : IO ToolResult :=
  match getTool (tc_name toolCall) with
  | None => ret (failed ("未知工具: " +:+ tc_name toolCall))
  | Some tool =>
      try_catch (execute tool (tc_arguments toolCall) context)
        (fun e => ret (failed ("工具执行异常: " +:+ e)))
  end.

End Tools.

(** ** tools/manager.ts *)

Module ToolManager.
Section ToolManager.

Variable out : Outside.

Record ToolManager := {
  mcpEnabled : bool;
  tm_debug : bool }.

(** [this.mcpManager.callTool(name, args)] *)
Definition callTool (name : string) (args : Args) : IO ToolResult :=
  fun t =>
    let t1 := t ++ [EvMcpCall name args] in
    (mcp_callTool out name args t1, t1).

Definition executeTool (this : ToolManager) (toolCall : ToolCall) (context : ToolContext)
  : IO ToolResult :=
  match getTool out (tc_name toolCall) with
  | Some builtinTool =>
      try_catch (execute builtinTool (tc_arguments toolCall) context)
        (fun e => ret (failed ("内置工具执行异常: " +:+ e)))
  | None =>
      if mcpEnabled this then
        try_catch (callTool (tc_name toolCall) (tc_arguments toolCall))
          (fun e => ret (failed ("MCP 工具执行异常: " +:+ e)))
      else ret (failed ("未知工具: " +:+ tc_name toolCall))
  end.

End ToolManager.
End ToolManager.

(** ** agent/sub-agent.ts *)

Record Preset := {
  preset_name : string;
  preset_systemPrompt : string;
  preset_availableTools : list string;
  preset_maxLoops : option Z }.

(** The own properties of [AGENT_PRESETS]. *)
Definition AGENT_PRESETS : gmap string Preset :=
  list_to_map
    [ ("main",
       {| preset_name := "主代理";
          preset_systemPrompt := "你是主代理，负责处理用户的所有请求。";
          preset_availableTools :=
            ["list_files"; "read_file"; "write_file"; "append_file"; "delete_file";
             "run_command"; "search_codebase"];
          preset_maxLoops := None |});
      ("test",
       {| preset_name := "测试代理";
          preset_systemPrompt := "你是测试专家代理，专门负责：
1. 编写单元测试和集成测试
2. 运行测试命令并分析结果
3. 提高代码覆盖率
4. 修复失败的测试

你应该：
- 优先使用项目现有的测试框架
- 遵循项目的测试命名规范
- 确保测试用例覆盖边界情况
- 提供清晰的测试报告";
          preset_availableTools :=
            ["list_files"; "read_file"; "write_file"; "run_command"; "search_codebase"];
          preset_maxLoops := Some 5%Z |});
      ("review",
       {| preset_name := "代码审查代理";
          preset_systemPrompt := "你是代码审查专家代理，专门负责：
1. 审查代码质量和最佳实践
2. 发现潜在的 bug 和安全问题
3. 提供改进建议
4. 检查代码风格一致性

你应该：
- 关注代码可读性和可维护性
- 检查错误处理是否完善
- 验证输入验证和安全性
- 提供具体的改进建议和示例代码";
          preset_availableTools := ["list_files"; "read_file"; "search_codebase"];
          preset_maxLoops := Some 3%Z |});
      ("refactor",
       {| preset_name := "重构代理";
          preset_systemPrompt := "你是重构专家代理，专门负责：
1. 识别代码异味和技术债务
2. 提取公共代码和创建可复用模块
3. 优化代码结构和性能
4. 保持功能不变的前提下改进代码

你应该：
- 遵循 SOLID 原则
- 保持向后兼容性
- 分步骤进行重构，每步都可验证
- 提供重构前后的对比";
          preset_availableTools :=
            ["list_files"; "read_file"; "write_file"; "search_codebase"];
          preset_maxLoops := Some 6%Z |});
      ("custom",
       {| preset_name := "自定义代理";
          preset_systemPrompt := "你是一个自定义代理，请按照用户的指示工作。";
          preset_availableTools :=
            ["list_files"; "read_file"; "write_file"; "run_command"; "search_codebase"];
          preset_maxLoops := None |}) ].

(** [AGENT_PRESETS] is an object literal: a key it does not own is looked
    up in [Object.prototype], whose properties are functions and objects
    without enumerable properties of their own. *)
Definition Object_prototype : list string :=
  ["constructor"; "__proto__"; "hasOwnProperty"; "isPrototypeOf";
   "propertyIsEnumerable"; "toLocaleString"; "toString"; "valueOf";
   "__defineGetter__"; "__defineSetter__"; "__lookupGetter__"; "__lookupSetter__"].

Inductive Property :=
| Own (preset : Preset)
| Inherited
| Undefined.

(** [AGENT_PRESETS[type]] *)
Definition AGENT_PRESETS_get (key : string) : Property :=
  match AGENT_PRESETS !! key with
  | Some preset => Own preset
  | None => if Js.array_includes Object_prototype key then Inherited else Undefined
  end.

(** [{ type, ...preset }] *)
Definition getAgentConfig (type : string) : AgentConfig :=
  match AGENT_PRESETS_get type with
  | Own preset =>
      {| type := type;
         cfg_name := Some (preset_name preset);
         systemPrompt := Some (preset_systemPrompt preset);
         availableTools := Some (preset_availableTools preset);
         maxLoops := preset_maxLoops preset |}
  | Inherited | Undefined =>
      {| type := type; cfg_name := None; systemPrompt := None;
         availableTools := None; maxLoops := None |}
  end.

(** [\w] *)
Definition is_word (c : ascii) : bool :=
  let n := Js.code c in
  ((48 <=? n) && (n <=? 57)) || ((65 <=? n) && (n <=? 90)) ||
  ((97 <=? n) && (n <=? 122)) || (n =? 95).

(** The longest prefix of word characters, and what follows it. *)
Fixpoint span_word (s : string) : string * string :=
  match s with
  | EmptyString => (EmptyString, EmptyString)
  | String c s' =>
      if is_word c then let (w, rest) := span_word s' in (String c w, rest)
      else (EmptyString, s)
  end.

Fixpoint has_line_terminator (s : string) : bool :=
  match s with
  | EmptyString => false
  | String c s' =>
      Js.ascii_newline c ||
      existsb (fun q => Js.startsWith s (Js.of_bytes q)) Js.newline_sequences ||
      has_line_terminator s'
  end.

(** [input.match] on the pattern of [parseAgentCommand] (start of input,
    [@], group 1 of one or more [\w], any number of [\s], an optional
    group 2 of any number of [.], end of input): the two groups.  The
    quantifiers are greedy: group 1 is the longest run of word characters
    after the [@], [\s*] takes all the white space that follows, and group 2
    is the rest, which must reach the end of the input without a line
    terminator ([.] matches none, and [$] has no [m] flag); giving back
    characters to an earlier quantifier leaves the same rest to match. *)
Definition match_agent_command (input : string) : option (string * string) :=
  match input with
  | String c rest =>
      if Ascii.eqb c (Js.byte_of 64) then
        let (typeStr, rest) := span_word rest in
        if String.eqb typeStr "" then None
        else
          let message := Js.trimStart rest in
          if has_line_terminator message then None else Some (typeStr, message)
      else None
  | EmptyString => None
  end.

(** The same pattern for the matcher of [Regex], to compare with: [.] is
    one character that is no line terminator. *)
Definition agent_command_pattern : Regex.regex :=
  let byte n := Regex.bytes [n] in
  let dot :=
    Regex.alts
      [ Regex.Class (fun b => negb (Js.ascii_newline b) && negb (Js.code b =? 226));
        Regex.Seq (byte 226) (Regex.Class (fun b => 128 <? Js.code b));
        Regex.seqs [byte 226; byte 128;
                    Regex.Class (fun b => negb ((Js.code b =? 168) || (Js.code b =? 169)))] ] in
  Regex.seqs [byte 64; Regex.plus (Regex.Class is_word); Regex.Star Regex.space;
              Regex.opt (Regex.Star dot)].

Record AgentCommand := {
  cmd_type : string;
  cmd_message : string }.

Definition parseAgentCommand (input : string) : option AgentCommand :=
  match match_agent_command input with
  | None => None
  | Some (typeStr, message) =>
      let type := Js.toLowerCase typeStr in
      match AGENT_PRESETS_get type with
      | Undefined => None
      | Own _ | Inherited => Some {| cmd_type := type; cmd_message := Js.trim message |}
      end
  end.

(** ** ui/display.ts: what the agent prints during a run

    The console is not part of the trace: of [printToolCall] and
    [printToolResult] the model keeps whether they return or throw.
    [printThinkingProcess], [printWarning] and the spinner only print
    strings and string arrays, and return. *)

(** The own properties of [TOOL_FRIENDLY_NAMES]. *)
Definition TOOL_FRIENDLY_NAMES : gmap string string :=
  list_to_map
    [ ("list_files", "📂 查看目录");
      ("read_file", "📄 打开文件");
      ("write_file", "✏️  写入文件");
      ("append_file", "➕ 追加内容");
      ("delete_file", "🗑️  删除文件");
      ("run_command", "⚙️  运行命令");
      ("search_codebase", "🔍 搜索代码") ].

(** What [getFriendlyToolName] returns: a string, or, for a name that the
    object literal inherits from [Object.prototype], the function or the
    object found there (its declared type is [string], the value is not). *)
Inductive FriendlyName :=
| FriendlyText (text : string)
| NotAString.

(** [TOOL_FRIENDLY_NAMES[name] || `🔧 ${name}`]: the own texts are not
    empty, and a function or an object is truthy. *)
Definition getFriendlyToolName (name : string) : FriendlyName :=
  match TOOL_FRIENDLY_NAMES !! name with
  | Some text => FriendlyText text
  | None =>
      if Js.array_includes Object_prototype name then NotAString
      else FriendlyText ("🔧 " +:+ name)
  end.

(** The conversion of a value of type [unknown] to a string, in a template
    literal, throws a [TypeError] for an object with a property [toString]
    of its own (no value of [JsVal] is callable, and [valueOf] of
    [Object.prototype] returns the object), and for an array that holds
    such an object: [Array.prototype.toString] joins the conversions of the
    elements. *)
Fixpoint ToString_throws (v : JsVal) : bool :=
  match v with
  | JArr l => existsb ToString_throws l
  | JObj fields => Js.array_includes (map fst fields) "toString"
  | _ => false
  end.

(** A template literal with the placeholders [vs]. *)
Definition template (vs : list JsVal) : Result unit :=
  if existsb ToString_throws vs then Throw "Cannot convert object to primitive value"
  else Ok tt.

(** [getKeyParameters]: the [switch] on the name of the tool. *)
Definition getKeyParameters (toolName : string) (args : Args) : Result unit :=
  if String.eqb toolName "list_files" then
    template [if js_truthy (prop args "path") then prop args "path" else JStr "."]
  else if Js.array_includes ["read_file"; "write_file"; "append_file"; "delete_file"] toolName
  then template [prop args "path"]
  else if String.eqb toolName "run_command" then template [prop args "command"]
  else if String.eqb toolName "search_codebase" then
    template (prop args "pattern" ::
              if js_truthy (prop args "filePattern") then [prop args "filePattern"] else [])
  else
    (* [JSON.stringify] of the first two entries: no conversion by [toString] *)
    Ok tt.

(** [printToolCall]: the friendly name is printed through a template
    literal, whatever it is; the parameters are converted to strings. *)
Definition printToolCall (name : string) (args : Args) : Result unit :=
  getKeyParameters name args.

(** [printToolResult]: both branches start with [friendlyName.replace],
    which is [undefined] when the friendly name is no string; after it only
    strings are printed ([JSON.stringify] of truthy data is a string). *)
Definition printToolResult (name : string) (success : bool) (data : option JsVal)
    (error : option string) : Result unit :=
  match getFriendlyToolName name with
  | FriendlyText _ => Ok tt
  | NotAString => Throw "friendlyName.replace is not a function"
  end.

(** The display of a tool call returns, whatever the result of the tool. *)
Definition displayable (toolCall : ToolCall) : bool :=
  match printToolCall (tc_name toolCall) (tc_arguments toolCall),
        getFriendlyToolName (tc_name toolCall) with
  | Ok _, FriendlyText _ => true
  | _, _ => false
  end.

(** The display of [toolCall] throws [e]: before the tool runs, or after
    it for some result. *)
Definition display_throws (toolCall : ToolCall) (e : string) : Prop :=
  printToolCall (tc_name toolCall) (tc_arguments toolCall) = Throw e \/
  exists result,
    printToolResult (tc_name toolCall) (success result) (data result) (error result) = Throw e.

(** ** agent/index.ts: the agent *)

Record AgentState := {
  id : string;
  config : AgentConfig;
  messages : list Message;
  isRunning : bool;
  currentToolCall : option ToolCall }.

(** An [Agent] object; its [llmClient] is the oracle [llm_call]. *)
Record Agent := {
  state : AgentState;
  appConfig : AppConfig;
  projectContext : option string }.

Definition with_state (f : AgentState -> AgentState) (this : Agent) : Agent :=
  {| state := f (state this); appConfig := appConfig this;
     projectContext := projectContext this |}.

Definition set_messages (l : list Message) (st : AgentState) : AgentState :=
  {| id := id st; config := config st; messages := l;
     isRunning := isRunning st; currentToolCall := currentToolCall st |}.

Definition set_isRunning (b : bool) (st : AgentState) : AgentState :=
  {| id := id st; config := config st; messages := messages st;
     isRunning := b; currentToolCall := currentToolCall st |}.

Definition set_currentToolCall (c : option ToolCall) (st : AgentState) : AgentState :=
  {| id := id st; config := config st; messages := messages st;
     isRunning := isRunning st; currentToolCall := c |}.

Definition plain_message (r : MessageRole) (text : string) : Message :=
  {| role := r; content := text; name := None; tool_call_id := None; tool_calls := None |}.

Definition quote : string := Js.of_bytes [34].

(** The methods of an agent act on the agent and on the outside. *)
Abbreviation AgentM := (M (Agent * Trace)).

Section Agent.

Variable out : Outside.

Definition io {A} (m : IO A) : AgentM A :=
  zoom snd (fun t s => (s.1, t)) m.

Definition self : AgentM Agent := gets fst.

Definition update (f : Agent -> Agent) : AgentM unit :=
  modify (fun s => (f s.1, s.2)).

(** [generateId] *)
Definition generateId : IO string := ask (random_id out) EvGenerateId.

(** [new Agent(config, llmClient, appConfig)] *)
Definition new_Agent (config : AgentConfig) (appConfig : AppConfig) : IO Agent :=
  id <- generateId ;;
  ret {| state := {| id := id; config := config; messages := []; isRunning := false;
                     currentToolCall := None |};
         appConfig := appConfig;
         projectContext := None |}.

Definition setProjectContext (content : string) (this : Agent) : Agent :=
  {| state := state this; appConfig := appConfig this; projectContext := Some content |}.

Definition addMessage (message : Message) : AgentM unit :=
  update (with_state (fun st => set_messages (messages st ++ [message]) st)).

Definition clearMessages : AgentM unit :=
  update (with_state (set_messages [])).

(** ui: [confirm(message)] *)
Definition confirm (message : string) : IO bool :=
  ask (ui_confirm out message) (EvConfirm message).

Definition createToolContext (this : Agent) : ToolContext :=
  {| ctx_workingDirectory := workingDirectory (appConfig this);
     ctx_config := appConfig this;
     ctx_autoConfirm := autoConfirm (appConfig this);
     confirmAction := fun message riskLevel =>
       if autoConfirm (appConfig this) && negb (String.eqb riskLevel "high") then ret true
       else confirm message |}.

Definition executeToolCall (this : Agent) (toolCall : ToolCall) : IO ToolResult :=
  match getTool out (tc_name toolCall) with
  | None => ret (failed ("未知工具: " +:+ tc_name toolCall))
  | Some _ =>
      match availableTools (config (state this)) with
      | None => throw "Cannot read properties of undefined (reading 'includes')"
      | Some available =>
          if negb (Js.array_includes available (tc_name toolCall)) then
            ret (failed ("代理 " +:+ quote +:+
                         default "undefined" (cfg_name (config (state this))) +:+ quote +:+
                         " 无权使用工具: " +:+ tc_name toolCall))
          else executeTool out toolCall (createToolContext this)
      end
  end.

Definition buildMessagesWithContext (this : Agent) : list Message :=
  (match projectContext this with
   | Some context =>
       if Js.truthy context then
         [plain_message Role.system
            ("以下是当前项目的知识文档，请在处理用户请求时参考：" +:+ lf +:+ lf +:+ context)]
       else []
   | None => []
   end) ++ messages (state this).

(** [this.llmClient.call(messages)] *)
Definition llmClient_call (messages : list Message) : IO LLMResponse :=
  fun t => let r := llm_call out messages t in (r, t ++ [EvLlmCall messages r]).

(** The [for] loop over the tool calls of one response. *)
Fixpoint run_tool_calls (calls : list ToolCall) (toolResults : list (string * ToolResult))
  : AgentM (list (string * ToolResult)) :=
  match calls with
  | [] => ret toolResults
  | toolCall :: calls' =>
      of_result (printToolCall (tc_name toolCall) (tc_arguments toolCall)) ;;;
      update (with_state (set_currentToolCall (Some toolCall))) ;;;
      this <- self ;;
      result <- io (executeToolCall this toolCall) ;;
      of_result (printToolResult (tc_name toolCall) (success result) (data result)
                   (error result)) ;;;
      run_tool_calls calls' (toolResults ++ [(tc_name toolCall, result)])
  end.

Fixpoint join_with (sep : string) (l : list string) : string :=
  match l with
  | [] => ""
  | [x] => x
  | x :: l' => x +:+ sep +:+ join_with sep l'
  end.

Definition toolResultContent (toolResults : list (string * ToolResult)) : string :=
  join_with (lf +:+ lf)
    (map (fun '(name, result) =>
            "[" +:+ name +:+ "]" +:+ lf +:+
            (if success result then stringify_data out (data result)
             else "错误: " +:+ default "undefined" (error result)))
       toolResults).

(** [maxLoops || maxToolLoops] *)
Definition effective_maxLoops (this : Agent) : Z :=
  match maxLoops (config (state this)) with
  | Some n => if (n =? 0)%Z then maxToolLoops (appConfig this) else n
  | None => maxToolLoops (appConfig this)
  end.

(** [while (loopCount < maxLoops)]: [remaining] is the number of
    iterations the condition still allows, [maxLoops - loopCount].  The
    result is the pair of [loopCount] and [finalResponse] after the loop. *)
Fixpoint run_loop (remaining : nat) (loopCount : Z) (finalResponse : string)
  : AgentM (Z * string) :=
  match remaining with
  | O => ret (loopCount, finalResponse)
  | S remaining' =>
      let loopCount := (loopCount + 1)%Z in
      this <- self ;;
      llmResponse <- io (llmClient_call (buildMessagesWithContext this)) ;;
      addMessage (plain_message Role.assistant (stringify_response out llmResponse)) ;;;
      match resp_tool_calls llmResponse with
      | None | Some [] => ret (loopCount, response llmResponse)
      | Some calls =>
          toolResults <- run_tool_calls calls [] ;;
          update (with_state (set_currentToolCall None)) ;;;
          addMessage {| role := Role.tool; content := toolResultContent toolResults;
                        name := Some "tool_results"; tool_call_id := None;
                        tool_calls := None |} ;;;
          if Js.truthy (response llmResponse) && (length calls =? 0) then
            ret (loopCount, response llmResponse)
          else run_loop remaining' loopCount (response llmResponse)
      end
  end.

Definition run (userMessage : string) : AgentM string :=
  update (with_state (set_isRunning true)) ;;;
  addMessage (plain_message Role.user userMessage) ;;;
  this <- self ;;
  let maxLoops := effective_maxLoops this in
  try_finally
    (r <- run_loop (Z.to_nat maxLoops) 0 "" ;; ret r.2)
    (update (with_state (set_isRunning false))).

End Agent.

(** *** The agent manager

    Agents are objects: the manager holds references into a store. *)
Abbreviation loc := positive.

Record AgentManager := {
  heap : gmap loc Agent;
  mainAgent : loc;
  subAgents : gmap string loc;
  mgr_appConfig : AppConfig;
  mgr_projectContext : option string }.

Abbreviation ManagerM := (M (AgentManager * Trace)).

Definition set_heap (h : gmap loc Agent) (m : AgentManager) : AgentManager :=
  {| heap := h; mainAgent := mainAgent m; subAgents := subAgents m;
     mgr_appConfig := mgr_appConfig m; mgr_projectContext := mgr_projectContext m |}.

Definition set_subAgents (sa : gmap string loc) (m : AgentManager) : AgentManager :=
  {| heap := heap m; mainAgent := mainAgent m; subAgents := sa;
     mgr_appConfig := mgr_appConfig m; mgr_projectContext := mgr_projectContext m |}.

Section AgentManager.

Variable out : Outside.

(** A method call on the agent a reference points to. *)
Definition on_agent {A} (l : loc) (m : AgentM A) : ManagerM A :=
  fun s =>
    match heap s.1 !! l with
    | Some agent =>
        let '(r, (agent', t')) := m (agent, s.2) in
        (r, (set_heap (<[l := agent']> (heap s.1)) s.1, t'))
    | None => (Throw "Cannot read properties of undefined", s)
    end.

(** [new AgentManager(llmClient, appConfig)] *)
Definition new_AgentManager (appConfig : AppConfig) : IO AgentManager :=
  main <- new_Agent out (getAgentConfig "main") appConfig ;;
  ret {| heap := {[ 1%positive := main ]}; mainAgent := 1%positive; subAgents := ∅;
         mgr_appConfig := appConfig; mgr_projectContext := None |}.

Definition createSubAgent (type : string) : ManagerM loc :=
  fun s =>
    let config := getAgentConfig type in
    match new_Agent out config (mgr_appConfig s.1) s.2 with
    | (Ok agent, t') =>
        let agent :=
          match mgr_projectContext s.1 with
          | Some context => if Js.truthy context then setProjectContext context agent else agent
          | None => agent
          end in
        let l := fresh (dom (heap s.1)) in
        (Ok l,
         (set_subAgents (<[id (state agent) := l]> (subAgents s.1))
            (set_heap (<[l := agent]> (heap s.1)) s.1), t'))
    | (Throw e, t') => (Throw e, (s.1, t'))
    end.

Definition removeSubAgent (id : string) : ManagerM bool :=
  fun s =>
    (Ok (bool_decide (is_Some (subAgents s.1 !! id))),
     (set_subAgents (delete id (subAgents s.1)) s.1, s.2)).

Definition getId (l : loc) : ManagerM string :=
  on_agent l (gets (fun s => id (state s.1))).

Definition handleInput (input : string) : ManagerM string :=
  match parseAgentCommand input with
  | Some agentCommand =>
      subAgent <- createSubAgent (cmd_type agentCommand) ;;
      try_finally
        (on_agent subAgent
           (run out (if Js.truthy (cmd_message agentCommand) then cmd_message agentCommand
                     else "请开始工作")))
        (id <- getId subAgent ;; removeSubAgent id)
  | None =>
      main <- gets (fun s => mainAgent s.1) ;;
      on_agent main (run out input)
  end.

End AgentManager.

(** ** The provider adapters (native tool calling) *)

(** [m.role === 'system'] *)
Definition isSystem (m : Message) : bool :=
  match role m with Role.system => true | _ => false end.

Definition is_system_role (r : MessageRole) : bool :=
  match r with Role.system => true | _ => false end.

Section Adapters.

(** [buildSystemPrompt()], the text of llm/system-prompt.ts. *)
Variable buildSystemPrompt : string.

(** [JSON.stringify] on the arguments of a tool call. *)
Variable stringify_arguments : Args -> string.

(** The messages of the OpenAI-compatible chat endpoints. *)
Record WireToolCall := {
  wtc_id : string;
  wtc_name : string;
  wtc_arguments : string }.

Record OpenAIMessage := {
  o_role : MessageRole;
  o_content : option string;
  o_tool_call_id : option string;
  o_tool_calls : option (list WireToolCall) }.

Definition wire_tool_calls (msg : Message) : option (list WireToolCall) :=
  match tool_calls msg with
  | Some (tc :: tcs) =>
      Some (map (fun tc => {| wtc_id := ntc_id tc; wtc_name := ntc_name tc;
                              wtc_arguments := stringify_arguments (ntc_arguments tc) |})
              (tc :: tcs))
  | Some [] | None => None
  end.

(** The body of the [for] loop of [convertMessages] in llm/kimi.ts and in
    the OpenAI client: the wire message pushed for one message. *)
Definition openai_convert (msg : Message) : OpenAIMessage :=
  match role msg with
  | Role.system =>
      {| o_role := Role.system; o_content := Some (content msg);
         o_tool_call_id := None; o_tool_calls := None |}
  | Role.user =>
      {| o_role := Role.user; o_content := Some (content msg);
         o_tool_call_id := None; o_tool_calls := None |}
  | Role.assistant =>
      {| o_role := Role.assistant;
         o_content := if Js.truthy (content msg) then Some (content msg) else None;
         o_tool_call_id := None;
         o_tool_calls := wire_tool_calls msg |}
  | Role.tool =>
      {| o_role := Role.tool; o_content := Some (content msg);
         o_tool_call_id := Some (match tool_call_id msg with
                                 | Some i => if Js.truthy i then i else ""
                                 | None => ""
                                 end);
         o_tool_calls := None |}
  end.

Definition openai_system_message : OpenAIMessage :=
  {| o_role := Role.system; o_content := Some buildSystemPrompt;
     o_tool_call_id := None; o_tool_calls := None |}.

End Adapters.

(** llm/kimi.ts *)
Module Kimi.
Definition convertMessages (buildSystemPrompt : string) (stringify_arguments : Args -> string)
    (messages : list Message) : list OpenAIMessage :=
  openai_system_message buildSystemPrompt ::
  map (openai_convert stringify_arguments) messages.
End Kimi.

(** The OpenAI client (OpenAI, Grok) *)
Module OpenAI.
Definition convertMessages (buildSystemPrompt : string) (stringify_arguments : Args -> string)
    (messages : list Message) : list OpenAIMessage :=
  openai_system_message buildSystemPrompt ::
  map (openai_convert stringify_arguments) messages.
End OpenAI.

(** llm/ollama.ts *)
Module Ollama.

Record OllamaMessage := {
  ol_role : MessageRole;
  ol_content : string;
  ol_tool_calls : option (list (string * Args)) }.

Definition convert (msg : Message) : OllamaMessage :=
  match role msg with
  | Role.system => {| ol_role := Role.system; ol_content := content msg; ol_tool_calls := None |}
  | Role.user => {| ol_role := Role.user; ol_content := content msg; ol_tool_calls := None |}
  | Role.assistant =>
      {| ol_role := Role.assistant;
         ol_content := content msg;
         ol_tool_calls :=
           match tool_calls msg with
           | Some (tc :: tcs) =>
               Some (map (fun tc => (ntc_name tc, ntc_arguments tc)) (tc :: tcs))
           | Some [] | None => None
           end |}
  | Role.tool => {| ol_role := Role.tool; ol_content := content msg; ol_tool_calls := None |}
  end.

Definition convertMessages (buildSystemPrompt : string) (messages : list Message)
  : list OllamaMessage :=
  {| ol_role := Role.system; ol_content := buildSystemPrompt; ol_tool_calls := None |} ::
  map convert messages.

End Ollama.

(** The Anthropic client *)
Module Anthropic.

Inductive ContentBlock :=
| text (text : string)
| tool_use (id name : string) (input : Args)
| tool_result (tool_use_id content : string).

Inductive Content :=
| Str (s : string)
| Blocks (blocks : list ContentBlock).

Record AnthropicMessage := {
  an_role : MessageRole;
  an_content : Content }.

(** The tool branch: the block joins a last message of the user, or
    starts a new one. *)
Definition push_tool_result (result : list AnthropicMessage) (block : ContentBlock)
  : list AnthropicMessage :=
  match List.rev result with
  | lastMsg :: init =>
      match an_role lastMsg with
      | Role.user =>
          List.rev init ++
          [{| an_role := Role.user;
              an_content := match an_content lastMsg with
                         | Blocks blocks => Blocks (blocks ++ [block])
                         | Str s => Blocks [text s; block]
                         end |}]
      | _ => result ++ [{| an_role := Role.user; an_content := Blocks [block] |}]
      end
  | [] => result ++ [{| an_role := Role.user; an_content := Blocks [block] |}]
  end.

Definition convert (result : list AnthropicMessage) (msg : Message) : list AnthropicMessage :=
  match role msg with
  | Role.system => result
  | Role.user => result ++ [{| an_role := Role.user; an_content := Str (content msg) |}]
  | Role.assistant =>
      let contentBlocks :=
        (if Js.truthy (content msg) then [text (content msg)] else []) ++
        map (fun tc => tool_use (ntc_id tc) (ntc_name tc) (ntc_arguments tc))
          (default [] (tool_calls msg)) in
      if 0 <? length contentBlocks then
        result ++ [{| an_role := Role.assistant; an_content := Blocks contentBlocks |}]
      else result
  | Role.tool =>
      push_tool_result result
        (tool_result (match tool_call_id msg with
                      | Some i => if Js.truthy i then i else ""
                      | None => ""
                      end) (content msg))
  end.

Definition convertMessages (messages : list Message) : list AnthropicMessage :=
  let result := fold_left convert messages [] in
  match result with
  | first :: _ =>
      match an_role first with
      | Role.user => result
      | _ => {| an_role := Role.user; an_content := Str "你好，请准备好帮助我。" |} :: result
      end
  | [] => [{| an_role := Role.user; an_content := Str "你好，请准备好帮助我。" |}]
  end.

(** The request body of [callAnthropic], without the model settings and
    the tool declarations. *)
Record Request := {
  system : string;
  messages : list AnthropicMessage }.

Definition requestBody (buildSystemPrompt : string) (messages : list Message) : Request :=
  let systemPrompt := buildSystemPrompt in
  let convertedMessages := convertMessages messages in
  let systemMessages := List.filter isSystem messages in
  let fullSystemPrompt :=
    if 0 <? length systemMessages then
      systemPrompt +:+ lf +:+ lf +:+
      join_with (lf +:+ lf) (map content systemMessages)
    else systemPrompt in
  {| system := fullSystemPrompt; messages := convertedMessages |}.

End Anthropic.

(** llm/index.ts: the request [LLMClient.call] sends for a provider. *)
Inductive LLMProvider := anthropic | openai | ollama | grok | kimi.

Inductive WireRequest :=
| AnthropicRequest (body : Anthropic.Request)
| ChatCompletionsRequest (messages : list OpenAIMessage)
| OllamaRequest (messages : list Ollama.OllamaMessage).

Definition wireRequest (provider : LLMProvider) (buildSystemPrompt : string)
    (stringify_arguments : Args -> string) (messages : list Message) : WireRequest :=
  match provider with
  | anthropic => AnthropicRequest (Anthropic.requestBody buildSystemPrompt messages)
  | openai | grok =>
      ChatCompletionsRequest
        (OpenAI.convertMessages buildSystemPrompt stringify_arguments messages)
  | ollama => OllamaRequest (Ollama.convertMessages buildSystemPrompt messages)
  | kimi =>
      ChatCompletionsRequest
        (Kimi.convertMessages buildSystemPrompt stringify_arguments messages)
  end.

(** The system payloads of a request: the [system] parameter, and the
    content of every message whose role is [system]. *)
Definition anthropic_text (c : Anthropic.Content) : option string :=
  match c with
  | Anthropic.Str s => Some s
  | Anthropic.Blocks _ => None
  end.

Definition system_payloads (request : WireRequest) : list (option string) :=
  match request with
  | AnthropicRequest body =>
      Some (Anthropic.system body) ::
      map (fun m => anthropic_text (Anthropic.an_content m))
        (List.filter (fun m => is_system_role (Anthropic.an_role m)) (Anthropic.messages body))
  | ChatCompletionsRequest messages =>
      map o_content (List.filter (fun m => is_system_role (o_role m)) messages)
  | OllamaRequest messages =>
      map (fun m => Some (Ollama.ol_content m))
        (List.filter (fun m => is_system_role (Ollama.ol_role m)) messages)
  end.

(** ** Observing a run *)

(** The actions the safety gate is about: a subprocess is started, a file
    or a directory is deleted. *)
Definition high_risk_action (e : Event) : bool :=
  match e with
  | EvSpawn _ _ _ => true
  | EvFs rmSync _ | EvFs rmdirSync _ | EvFs unlinkSync _ => true
  | _ => false
  end.

(** Every high-risk action of [evs] comes right after a prompt that the
    user accepted; [prev] is the interaction before [evs]. *)
Fixpoint confirmed_first (prev : option Event) (evs : list Event) : bool :=
  match evs with
  | [] => true
  | e :: evs' =>
      (if high_risk_action e then
         match prev with
         | Some (EvConfirm _ true) => true
         | _ => false
         end
       else true) && confirmed_first (Some e) evs'
  end.

Definition is_llm_call (e : Event) : bool :=
  match e with EvLlmCall _ _ => true | _ => false end.

Definition is_mcp_call (e : Event) : bool :=
  match e with EvMcpCall _ _ => true | _ => false end.

Definition is_fs_op (e : Event) : bool :=
  match e with EvFs _ _ => true | _ => false end.

(** The interactions a builtin tool can have: everything but the LLM
    client, the MCP servers and the source of agent identifiers. *)
Definition tool_event (e : Event) : bool :=
  match e with
  | EvLlmCall _ _ | EvMcpCall _ _ | EvGenerateId _ => false
  | _ => true
  end.

(** [m] only adds interactions that satisfy [P] to the trace. *)
Definition emits {A} (P : Event -> bool) (m : IO A) : Prop :=
  forall t, exists evs, (m t).2 = t ++ evs /\ Forall (fun e => P e = true) evs.

(** The number of calls of the LLM client in a trace. *)
Definition llm_calls (evs : list Event) : nat := length (List.filter is_llm_call evs).

(** The answer of the last call of the LLM client, after [acc]. *)
Definition last_answer (acc : option (Result LLMResponse)) (evs : list Event)
  : option (Result LLMResponse) :=
  fold_left (fun acc e => match e with EvLlmCall _ r => Some r | _ => acc end) evs acc.

Definition last_llm_answer (evs : list Event) : option (Result LLMResponse) :=
  last_answer None evs.

(** [!llmResponse.tool_calls || llmResponse.tool_calls.length === 0] *)
Definition no_tool_calls (r : LLMResponse) : bool :=
  match resp_tool_calls r with
  | None | Some [] => true
  | Some (_ :: _) => false
  end.

(** A segment that [normalizeString] keeps. *)
Definition valid_segment (x : string) : Prop := Path.no_slash x = true /\ x <> "".

(** No wire message of the Anthropic request has the system role. *)
Definition no_system (result : list Anthropic.AnthropicMessage) : Prop :=
  Forall (fun m => is_system_role (Anthropic.an_role m) = false) result.

(** The setting of an agent that [run] never changes. *)
Definition same_setup (a b : Agent) : Prop :=
  config (state a) = config (state b) /\ appConfig a = appConfig b /\
  projectContext a = projectContext b /\ id (state a) = id (state b).

(** How [run_loop] ends: on a response without tool calls, on the cap, or
    on an exception (of the LLM client, of [executeToolCall] for a
    configuration without a tool list, or of the display of a tool call of
    the last response). *)
Definition loop_outcome (remaining : nat) (loopCount : Z) (finalResponse : string)
    (this : Agent) (evs : list Event) (r : Result (Z * string)) : Prop :=
  match r with
  | Ok (count, text) =>
      count = (loopCount + Z.of_nat (llm_calls evs))%Z /\
      ((remaining = 0 /\ text = finalResponse) \/
       exists answer,
         last_llm_answer evs = Some (Ok answer) /\ text = response answer /\
         (no_tool_calls answer = true \/
          (no_tool_calls answer = false /\ llm_calls evs = remaining)))
  | Throw e =>
      last_llm_answer evs = Some (Throw e) \/
      availableTools (config (state this)) = None \/
      exists answer toolCall,
        last_llm_answer evs = Some (Ok answer) /\
        toolCall ∈ default [] (resp_tool_calls answer) /\
        display_throws toolCall e
  end.

(** Every answer in the trace is one the LLM client gave. *)
Definition from_client (out : Outside) (e : Event) : Prop :=
  match e with
  | EvLlmCall messages answer => exists t, answer = llm_call out messages t
  | _ => True
  end.

(** The agent [createSubAgent] makes for a command. *)
Definition sub_agent_of (out : Outside) (type : string) (mgr : AgentManager) (t : Trace) : Agent :=
  let agent :=
    {| state := {| id := random_id out t; config := getAgentConfig type; messages := [];
                   isRunning := false; currentToolCall := None |};
       appConfig := mgr_appConfig mgr;
       projectContext := None |} in
  match mgr_projectContext mgr with
  | Some context => if Js.truthy context then setProjectContext context agent else agent
  | None => agent
  end.

(** A scripted outside for the examples: the user answers every prompt
    with [answer], the LLM client plays [script] (and throws when the
    script is over), a subprocess behaves as [proc]. *)
Definition scripted (answer : bool) (script : list LLMResponse) (proc : ProcRun) : Outside :=
  {| ui_confirm := fun _ _ => answer;
     llm_call := fun _ t =>
       match script !! llm_calls t with
       | Some r => Ok r
       | None => Throw "fetch failed"
       end;
     random_id := fun t => "id" +:+ pretty (length t);
     spawn := fun _ _ _ _ => proc;
     existsSync := fun _ _ => true;
     statSync_isDirectory := fun _ _ => Ok false;
     fs_op := fun _ _ _ => Ok tt;
     read_tool := fun _ _ _ _ => succeeded JNull;
     mcp_callTool := fun _ _ _ => Ok (succeeded JNull);
     process_cwd := "/home/u";
     stringify_response := response;
     stringify_data := fun _ => "{}" |}.

(** The same outside with an LLM client that always gives [answer]. *)
Definition repeating (answer : LLMResponse) (o : Outside) : Outside :=
  {| ui_confirm := ui_confirm o;
     llm_call := fun _ _ => Ok answer;
     random_id := random_id o;
     spawn := spawn o;
     existsSync := existsSync o;
     statSync_isDirectory := statSync_isDirectory o;
     fs_op := fs_op o;
     read_tool := read_tool o;
     mcp_callTool := mcp_callTool o;
     process_cwd := process_cwd o;
     stringify_response := stringify_response o;
     stringify_data := stringify_data o |}.

Definition exited (c : Z) : ProcRun := {| proc_events := []; proc_end := OnClose (Some c) |}.

Definition example_config (auto : bool) (policy : ProjectConfig) : AppConfig :=
  createAppConfig "/home/u" (Some auto) None (Some "/home/u/proj") policy.

Definition example_agent (auto : bool) (policy : ProjectConfig) (preset : string) : Agent :=
  {| state := {| id := "a0"; config := getAgentConfig preset; messages := [];
                 isRunning := false; currentToolCall := None |};
     appConfig := example_config auto policy;
     projectContext := None |}.

Definition tool_call_response (text : string) (calls : list ToolCall) : LLMResponse :=
  {| thinking := None; plan := None; response := text; resp_tool_calls := Some calls |}.

(** An agent with the tools of the main preset and a cap of its own. *)
Definition capped_agent (cap : option Z) : Agent :=
  {| state := {| id := "a1";
                 config := {| type := "custom"; cfg_name := Some "capped";
                              systemPrompt := Some "";
                              availableTools := availableTools (getAgentConfig "main");
                              maxLoops := cap |};
                 messages := []; isRunning := false; currentToolCall := None |};
     appConfig := example_config true DEFAULT_PROJECT_CONFIG;
     projectContext := None |}.

(** A manager whose main agent already has a history. *)
Definition example_main : Agent :=
  {| state := {| id := "main0"; config := getAgentConfig "main";
                 messages := [plain_message Role.user "hello";
                              plain_message Role.assistant "hi"];
                 isRunning := false; currentToolCall := None |};
     appConfig := example_config true DEFAULT_PROJECT_CONFIG;
     projectContext := Some "# Notes" |}.

Definition example_manager : AgentManager :=
  {| heap := {[ 1%positive := example_main ]}; mainAgent := 1%positive; subAgents := ∅;
     mgr_appConfig := example_config true DEFAULT_PROJECT_CONFIG;
     mgr_projectContext := Some "# Notes" |}.

Definition list_files_call : ToolCall := {| tc_name := "list_files"; tc_arguments := ∅ |}.

Definition command_args (command : string) : Args := {[ "command" := JStr command ]}.
Definition path_args (path : string) : Args := {[ "path" := JStr path ]}.

(** ** config.ts: the command line *)

(** The object [parseArgs] returns; [undefined] is [None]. *)
Module Cli.
Record Options := {
  autoConfirm : bool;
  debug : bool;
  provider : option string;
  model : option string;
  workingDirectory : string }.
End Cli.

(** [arg === a || arg === b] *)
Definition arg_is (arg a b : string) : bool := String.eqb arg a || String.eqb arg b.

(** The [for] loop of [parseArgs] from the index of [args] on: an option
    with a value takes the next argument, which [++i] skips; past the end
    the value is [undefined], which [path.resolve] rejects. *)
Fixpoint parseArgs_loop (cwd : string) (args : list string) (o : Cli.Options)
  : Result Cli.Options :=
  match args with
  | [] => Ok o
  | arg :: rest =>
      if arg_is arg "-y" "--yes" then
        parseArgs_loop cwd rest
          {| Cli.autoConfirm := true; Cli.debug := Cli.debug o;
             Cli.provider := Cli.provider o; Cli.model := Cli.model o;
             Cli.workingDirectory := Cli.workingDirectory o |}
      else if arg_is arg "-d" "--debug" then
        parseArgs_loop cwd rest
          {| Cli.autoConfirm := Cli.autoConfirm o; Cli.debug := true;
             Cli.provider := Cli.provider o; Cli.model := Cli.model o;
             Cli.workingDirectory := Cli.workingDirectory o |}
      else if arg_is arg "-p" "--provider" then
        let o' value :=
          {| Cli.autoConfirm := Cli.autoConfirm o; Cli.debug := Cli.debug o;
             Cli.provider := value; Cli.model := Cli.model o;
             Cli.workingDirectory := Cli.workingDirectory o |} in
        match rest with
        | value :: rest' => parseArgs_loop cwd rest' (o' (Some value))
        | [] => Ok (o' None)
        end
      else if arg_is arg "-m" "--model" then
        let o' value :=
          {| Cli.autoConfirm := Cli.autoConfirm o; Cli.debug := Cli.debug o;
             Cli.provider := Cli.provider o; Cli.model := value;
             Cli.workingDirectory := Cli.workingDirectory o |} in
        match rest with
        | value :: rest' => parseArgs_loop cwd rest' (o' (Some value))
        | [] => Ok (o' None)
        end
      else if arg_is arg "-C" "--directory" then
        match rest with
        | value :: rest' =>
            parseArgs_loop cwd rest'
              {| Cli.autoConfirm := Cli.autoConfirm o; Cli.debug := Cli.debug o;
                 Cli.provider := Cli.provider o; Cli.model := Cli.model o;
                 Cli.workingDirectory := Path.resolve cwd [value] |}
        | [] => Throw (path_TypeError 0 JUndefined)
        end
      else parseArgs_loop cwd rest o
  end.

(** [parseArgs(args)], with [cwd] the value of [process.cwd()]. *)
Definition parseArgs (cwd : string) (args : list string) : Result Cli.Options :=
  parseArgs_loop cwd args
    {| Cli.autoConfirm := false; Cli.debug := false; Cli.provider := None;
       Cli.model := None; Cli.workingDirectory := cwd |}.

(** The configuration [start] builds from the command line (main.ts);
    [loadProjectConfig] reads the project file of a directory. *)
Definition start_config (loadProjectConfig : string -> ProjectConfig) (cwd : string)
    (argv : list string) : Result AppConfig :=
  match parseArgs cwd argv with
  | Ok args =>
      let workingDirectory := Cli.workingDirectory args in
      Ok (createAppConfig cwd (Some (Cli.autoConfirm args)) (Some (Cli.debug args))
            (Some workingDirectory)
            (loadProjectConfig
               (if Js.truthy workingDirectory then workingDirectory else cwd)))
  | Throw e => Throw e
  end.


(** The options of [parseArgs] that take the next argument as their
    value. *)
Definition takes_value (arg : string) : bool :=
  arg_is arg "-p" "--provider" || arg_is arg "-m" "--model" ||
  arg_is arg "-C" "--directory".

(** What write_file and append_file have done when they succeed: the
    request names [filePath]; [asked] are the interactions of the
    confirmation, [dirExists] is what the look for the directory found. *)
Definition file_stored (out : Outside) (op : FsOp) (present absent : string)
    (args : Args) (this : Agent) (t t' : Trace) (result : ToolResult) : Prop :=
  exists (filePath : string) (asked : list Event) (dirExists : bool),
    let fullPath :=
      Path.resolve (process_cwd out) [workingDirectory (appConfig this); filePath] in
    let dirPath := Path.dirname fullPath in
    prop args "path" = JStr filePath /\
    isPathAllowedForWrite fullPath (appConfig this) = true /\
    (if autoConfirm (appConfig this) then asked = []
     else exists fileExists,
         asked = [EvExists fullPath fileExists;
                  EvConfirm ((if fileExists then present else absent) +:+ "文件: " +:+ filePath)
                    true]) /\
    t' = t ++ asked ++ EvExists dirPath dirExists ::
           (if dirExists then [] else [EvFs mkdirSync dirPath]) ++ [EvFs op fullPath] /\
    result = succeeded success_data.

(** *** Invariants of the methods of an agent *)

(** [m], started on an agent that satisfies [I], leaves one that does,
    adds interactions that satisfy [T] to the trace, and returns a value
    that satisfies [Q]. *)
Definition agent_spec {A} (T : list Event -> Prop) (I : Agent -> Prop) (Q : A -> Prop)
    (m : AgentM A) : Prop :=
  forall this t, I this ->
    exists evs this',
      (m (this, t)).2 = (this', t ++ evs) /\ T evs /\ I this' /\
      match (m (this, t)).1 with
      | Ok a => Q a
      | Throw _ => True
      end.

(** The same for a computation that only interacts with the outside. *)
Definition io_spec {A} (T : list Event -> Prop) (m : IO A) : Prop :=
  forall t, exists evs, (m t).2 = t ++ evs /\ T evs.

Definition is_read_event (e : Event) : bool :=
  match e with EvReadTool _ _ => true | _ => false end.

(** The tools of the registry whose risk level is low. *)
Definition read_only_tools : list string := ["list_files"; "read_file"; "search_codebase"].

(** A message that [run] adds to the history after the one of the user. *)
Definition from_the_loop (m : Message) : Prop :=
  role m = Role.assistant \/ role m = Role.tool.

(** The messages of an LLM call start with [sent]. *)
Definition sends (sent : list Message) (e : Event) : Prop :=
  match e with
  | EvLlmCall messages _ => exists more, messages = sent ++ more
  | _ => True
  end.

(** Every character of [s] is a word character. *)
Fixpoint all_word (s : string) : bool :=
  match s with
  | EmptyString => true
  | String c s' => is_word c && all_word s'
  end.

(** ** More of the provider adapters *)

(** The blocks of the messages of an Anthropic request, in order. *)
Definition wire_blocks (ms : list Anthropic.AnthropicMessage) : list Anthropic.ContentBlock :=
  concat (map (fun m => match Anthropic.an_content m with
                        | Anthropic.Blocks blocks => blocks
                        | Anthropic.Str _ => []
                        end) ms).

Definition is_tool_block (b : Anthropic.ContentBlock) : bool :=
  match b with
  | Anthropic.text _ => false
  | Anthropic.tool_use _ _ _ | Anthropic.tool_result _ _ => true
  end.

(** The tool calls and the tool result that a message of the history
    carries, as blocks. *)
Definition tool_blocks_of (msg : Message) : list Anthropic.ContentBlock :=
  match role msg with
  | Role.assistant =>
      map (fun tc => Anthropic.tool_use (ntc_id tc) (ntc_name tc) (ntc_arguments tc))
        (default [] (tool_calls msg))
  | Role.tool =>
      [Anthropic.tool_result (default "" (tool_call_id msg)) (content msg)]
  | _ => []
  end.

(** A message the Anthropic endpoint accepts: from the user, or from the
    assistant with at least one block. *)
Definition well_formed_wire (m : Anthropic.AnthropicMessage) : Prop :=
  match Anthropic.an_role m with
  | Role.user => True
  | Role.assistant =>
      exists b bs, Anthropic.an_content m = Anthropic.Blocks (b :: bs)
  | _ => False
  end.

(** The Anthropic client without tool calling (llm/anthropic.ts): tool
    results travel as text of the user. *)
Module AnthropicText.

Record AnthropicMessage := {
  at_role : MessageRole;
  at_content : string }.

(** [`[工具 ${msg.name} 执行结果]\n${msg.content}`] *)
Definition tool_text (msg : Message) : string :=
  "[工具 " +:+ default "undefined" (name msg) +:+ " 执行结果]" +:+ lf +:+ content msg.

Definition convert (result : list AnthropicMessage) (msg : Message) : list AnthropicMessage :=
  match role msg with
  | Role.system => result
  | Role.user | Role.tool =>
      let content :=
        match role msg with Role.tool => tool_text msg | _ => content msg end in
      match List.rev result with
      | lastMsg :: init =>
          match at_role lastMsg with
          | Role.user =>
              List.rev init ++
              [{| at_role := Role.user;
                  at_content := at_content lastMsg +:+ lf +:+ lf +:+ content |}]
          | _ => result ++ [{| at_role := Role.user; at_content := content |}]
          end
      | [] => result ++ [{| at_role := Role.user; at_content := content |}]
      end
  | Role.assistant =>
      result ++ [{| at_role := Role.assistant; at_content := content msg |}]
  end.

Definition convertMessages (messages : list Message) : list AnthropicMessage :=
  fold_left convert messages [].

(** The [messages] of the request body of [callAnthropic]. *)
Definition requestMessages (messages : list Message) : list AnthropicMessage :=
  let convertedMessages := convertMessages messages in
  match convertedMessages with
  | first :: _ =>
      match at_role first with
      | Role.user => convertedMessages
      | _ => {| at_role := Role.user; at_content := "你好，请准备好帮助我。" |} ::
             convertedMessages
      end
  | [] => [{| at_role := Role.user; at_content := "你好，请准备好帮助我。" |}]
  end.

Definition is_user (m : AnthropicMessage) : bool :=
  match at_role m with Role.user => true | _ => false end.

(** No two neighbours of [l] are both from the user. *)
Fixpoint alternates (l : list AnthropicMessage) : bool :=
  match l with
  | a :: (b :: _) as tl => negb (is_user a && is_user b) && alternates tl
  | _ => true
  end.

End AnthropicText.

(** *** More of the agent manager *)

(** [for (const x of l) await f(x)] *)
Fixpoint for_each {S A} (l : list A) (f : A -> M S unit) : M S unit :=
  match l with
  | [] => ret tt
  | x :: l' => f x ;;; for_each l' f
  end.

(** [clearAllHistory]; [forEach] visits the sub-agents in the order of
    their insertion, which the map of the model does not keep: clearing
    one agent does not depend on the others. *)
Definition clearAllHistory : ManagerM unit :=
  main <- gets (fun s : AgentManager * Trace => mainAgent s.1) ;;
  on_agent main clearMessages ;;;
  subs <- gets (fun s : AgentManager * Trace => (map_to_list (subAgents s.1)).*2) ;;
  for_each subs (fun agent => on_agent agent clearMessages).

(** The agents a manager refers to. *)
Definition managed (mgr : AgentManager) (l : loc) : Prop :=
  l = mainAgent mgr \/ exists id, subAgents mgr !! id = Some l.

(** No agent is created. *)
Definition no_new_agent (e : Event) : Prop :=
  match e with EvGenerateId _ => False | _ => True end.

(** ** mcp/client.ts: the environment of a server *)

Module Mcp.

(** The pattern of [connectServer] (a dollar sign, an opening brace,
    group 1 of one or more [\w], a closing brace) at the start of [s]:
    group 1.  The quantifier takes the longest run of word characters, and
    a shorter one would leave a word character where the brace must be. *)
Definition match_var (s : string) : option string :=
  match s with
  | String d (String b rest) =>
      if Ascii.eqb d "$" && Ascii.eqb b "{" then
        let (envVar, rest') := span_word rest in
        if String.eqb envVar "" then None
        else
          match rest' with
          | String c _ => if Ascii.eqb c "}" then Some envVar else None
          | EmptyString => None
          end
      else None
  | _ => None
  end.

(** [process.env[envVar] || '']: the variable of the process with that
    name; without one, what [process.env] inherits under the name, which
    for the names of [Object.prototype] is a function or an object (truthy)
    whose string form the callback returns, [inherited envVar], a text of
    the runtime; and for every other name [undefined], so the empty
    string. *)
Definition env_value (inherited : string -> string) (process_env : gmap string string)
    (envVar : string) : string :=
  match process_env !! envVar with
  | Some value => value
  | None => if Js.array_includes Object_prototype envVar then inherited envVar else ""
  end.

(** [value.replace(pattern, ...)] with the [g] flag: the matches are
    replaced from left to right, the search goes on behind a match, and
    what is put in is not searched again.  [skip] is the number of
    characters of the current match that are still to pass. *)
Fixpoint replace_vars (inherited : string -> string) (process_env : gmap string string)
    (skip : nat) (s : string) : string :=
  match s with
  | EmptyString => EmptyString
  | String c s' =>
      match skip with
      | S k => replace_vars inherited process_env k s'
      | O =>
          match match_var s with
          | Some envVar =>
              env_value inherited process_env envVar +:+
              replace_vars inherited process_env (String.length envVar + 2) s'
          | None => String c (replace_vars inherited process_env 0 s')
          end
      end
  end.

Definition substitute (inherited : string -> string) (process_env : gmap string string)
    (value : string) : string :=
  replace_vars inherited process_env 0 value.

(** [env[key] = value] on [env], which starts as the object literal [{}]:
    the own properties after the assignment.  An assignment to [__proto__]
    goes to the setter [env] inherits from [Object.prototype], which
    ignores a string: no property is created. *)
Definition assign (key value : string) (env : gmap string string) : gmap string string :=
  if String.eqb key "__proto__" then env else <[key := value]> env.

(** The [env] that [connectServer] gives to the transport: the variables
    of the process are assigned one by one, then the entries of
    [config.env], in order. *)
Definition server_env (inherited : string -> string) (process_env : gmap string string)
    (config_env : option (list (string * string))) : gmap string string :=
  let env :=
    fold_left (fun env '(key, value) => assign key value env) (map_to_list process_env) ∅ in
  match config_env with
  | Some entries =>
      fold_left
        (fun env '(key, value) => assign key (substitute inherited process_env value) env)
        entries env
  | None => env
  end.

Fixpoint no_dollar (s : string) : bool :=
  match s with
  | EmptyString => true
  | String c s' => negb (Ascii.eqb c "$") && no_dollar s'
  end.

End Mcp.

(** The actions that need the consent of the user under [config]: a
    deletion, a dangerous command, and, without auto-confirm, a command
    that is not on the white list. *)
Definition needs_consent (config : AppConfig) (e : Event) : bool :=
  match e with
  | EvSpawn command _ _ =>
      isDangerousCommand command ||
      (negb (autoConfirm config) && negb (isCommandAllowed command config))
  | EvFs rmSync _ | EvFs rmdirSync _ | EvFs unlinkSync _ => true
  | _ => false
  end.

(** Every such action of [evs] comes right after a prompt that the user
    accepted; [prev] is the interaction before [evs]. *)
Fixpoint consent_first (config : AppConfig) (prev : option Event) (evs : list Event) : bool :=
  match evs with
  | [] => true
  | e :: evs' =>
      (if needs_consent config e then
         match prev with
         | Some (EvConfirm _ true) => true
         | _ => false
         end
       else true) && consent_first config (Some e) evs'
  end.

(** * Properties *)

(** ** Strings *)

Lemma startsWith_app (s t : string) : Js.startsWith (s +:+ t) s = true.
Proof.
  induction s as [|a s IH]; simpl; [reflexivity|].
  rewrite Ascii.eqb_refl. exact IH.
Qed.

Lemma app_assoc_string (a b c : string) : (a +:+ b) +:+ c = a +:+ (b +:+ c).
Proof.
  induction a as [|x a IH]; [reflexivity|].
  change (String x ((a +:+ b) +:+ c) = String x (a +:+ b +:+ c)).
  by rewrite IH.
Qed.

Lemma app_empty_string (s : string) : s +:+ "" = s.
Proof.
  induction s as [|a s IH]; [reflexivity|].
  change (String a (s +:+ "") = String a s). by rewrite IH.
Qed.

(** ** Regular expressions: the matcher decides the language *)

Section RegexMatcher.

Import Regex.

Lemma app_eq_empty (u v : string) : u +:+ v = "" -> u = "" /\ v = "".
Proof. destruct u; [done | discriminate]. Qed.

Lemma nullable_lang (r : regex) : nullable r = true <-> lang r "".
Proof.
  split.
  - induction r as [| |p|r1 IH1 r2 IH2|r1 IH1 r2 IH2|r IH]; simpl; intros H;
      try discriminate.
    + constructor.
    + apply andb_true_iff in H as [H1 H2].
      change "" with ("" +:+ ""). constructor; auto.
    + apply orb_true_iff in H as [H|H]; [apply lang_alt_l | apply lang_alt_r]; auto.
    + constructor.
  - intros H. remember "" as w eqn:Hw.
    induction H as [|p c Hp|r1 r2 u v H1 IH1 H2 IH2|r1 r2 u H IH|r1 r2 u H IH|r
                    |r u v H1 IH1 H2 IH2]; simpl; try done.
    + apply app_eq_empty in Hw as [-> ->]. by rewrite IH1, IH2.
    + by rewrite IH.
    + rewrite IH by done. apply orb_true_r.
Qed.

Lemma deriv_sound (c : ascii) (r : regex) (s : string) :
  lang (deriv c r) s -> lang r (String c s).
Proof.
  revert s. induction r as [| |p|r1 IH1 r2 IH2|r1 IH1 r2 IH2|r IH]; simpl; intros s H.
  - inversion H.
  - inversion H.
  - destruct (p c) eqn:Hp; inversion H; subst. by constructor.
  - assert (Hseq : forall w, lang (Seq (deriv c r1) r2) w -> lang (Seq r1 r2) (String c w)).
    { intros w Hw. inversion Hw; subst.
      change (String c (u +:+ v)) with (String c u +:+ v). constructor; auto. }
    destruct (nullable r1) eqn:Hn; [|by apply Hseq].
    inversion H; subst; [by apply Hseq|].
    change (String c s) with ("" +:+ String c s).
    constructor; [by apply nullable_lang | auto].
  - inversion H; subst; [apply lang_alt_l | apply lang_alt_r]; auto.
  - inversion H; subst.
    change (String c (u +:+ v)) with (String c u +:+ v). constructor; auto.
Qed.

Lemma deriv_complete (c : ascii) (r : regex) (s : string) :
  lang r (String c s) -> lang (deriv c r) s.
Proof.
  intros H. remember (String c s) as w eqn:Hw. revert s Hw.
  induction H as [|p c' Hp|r1 r2 u v H1 IH1 H2 IH2|r1 r2 u H IH|r1 r2 u H IH|r
                  |r u v H1 IH1 H2 IH2]; intros s Hw; simpl.
  - discriminate.
  - inversion Hw; subst. rewrite Hp. constructor.
  - destruct u as [|c' u].
    + apply nullable_lang in H1. rewrite H1. apply lang_alt_r. by apply IH2.
    + inversion Hw; subst.
      assert (lang (Seq (deriv c r1) r2) (u +:+ v)) by (constructor; auto).
      destruct (nullable r1); [by apply lang_alt_l | done].
  - apply lang_alt_l. by apply IH.
  - apply lang_alt_r. by apply IH.
  - discriminate.
  - destruct u as [|c' u].
    + by apply IH2.
    + inversion Hw; subst. constructor; auto.
Qed.

Lemma matches_lang (r : regex) (s : string) : matches r s = true <-> lang r s.
Proof.
  revert r. induction s as [|c s IH]; intros r; simpl.
  - apply nullable_lang.
  - rewrite IH. split; [apply deriv_sound | apply deriv_complete].
Qed.

Lemma matches_prefix_lang (r : regex) (s : string) :
  matches_prefix r s = true <-> exists u v, s = u +:+ v /\ lang r u.
Proof.
  revert r. induction s as [|c s IH]; intros r; simpl.
  - rewrite orb_false_r, nullable_lang. split.
    + intros H. by exists "", "".
    + intros (u & v & Huv & H). symmetry in Huv.
      apply app_eq_empty in Huv as [-> _]. exact H.
  - rewrite orb_true_iff, nullable_lang, IH. split.
    + intros [H | (u & v & -> & H)].
      * by exists "", (String c s).
      * exists (String c u), v. split; [reflexivity | by apply deriv_sound].
    + intros (u & v & Huv & H). destruct u as [|c' u]; [by left|].
      inversion Huv; subst. right. exists u, v. split; [reflexivity|].
      by apply deriv_complete.
Qed.

(** [test] finds a match anywhere in the string. *)
Lemma test_lang (r : regex) (s : string) :
  test r s = true <-> exists pre u post, s = pre +:+ u +:+ post /\ lang r u.
Proof.
  induction s as [|c s IH]; cbn [test].
  - rewrite orb_false_r, matches_prefix_lang. split.
    + intros (u & v & -> & H). by exists "", u, v.
    + intros (pre & u & post & Hs & H). symmetry in Hs.
      apply app_eq_empty in Hs as [-> Hs]. by exists u, post.
  - rewrite orb_true_iff, matches_prefix_lang, IH. split.
    + intros [(u & v & Hs & H) | (pre & u & post & -> & H)].
      * by exists "", u, v.
      * by exists (String c pre), u, post.
    + intros (pre & u & post & Hs & H). destruct pre as [|c' pre].
      * left. by exists u, post.
      * inversion Hs; subst. right. by exists pre, u, post.
Qed.

End RegexMatcher.

(** ** Paths *)

Section Paths.

Import Path.

Lemma split_no_slash (s : string) : Forall (fun x => no_slash x = true) (split s).
Proof.
  induction s as [|c s IH]; simpl.
  - by repeat constructor.
  - destruct (Ascii.eqb c slash) eqn:Ec.
    + by constructor.
    + destruct (split s) as [|x xs].
      * repeat constructor. simpl. by rewrite Ec.
      * inversion IH; subst. constructor; [|done]. simpl. by rewrite Ec.
Qed.

Lemma split_app_slash (x s : string) :
  no_slash x = true -> split (x +:+ "/" +:+ s) = x :: split s.
Proof.
  induction x as [|c x IH]; intros Hx.
  - reflexivity.
  - simpl in Hx. apply andb_true_iff in Hx as [Hc Hx].
    apply negb_true_iff in Hc.
    change (split (String c (x +:+ "/" +:+ s)) = String c x :: split s).
    simpl. rewrite Hc, (IH Hx). reflexivity.
Qed.

Lemma split_one (x : string) : no_slash x = true -> split x = [x].
Proof.
  induction x as [|c x IH]; intros Hx; [reflexivity|].
  simpl in Hx. apply andb_true_iff in Hx as [Hc Hx].
  apply negb_true_iff in Hc. simpl. rewrite Hc, (IH Hx). reflexivity.
Qed.

Lemma split_join (segs : list string) :
  segs <> [] -> Forall (fun x => no_slash x = true) segs -> split (join segs) = segs.
Proof.
  induction segs as [|x segs IH]; intros Hne Hall; [done|].
  inversion Hall as [|? ? Hx Hrest]; subst.
  destruct segs as [|y segs].
  - simpl. by apply split_one.
  - change (join (x :: y :: segs)) with (x +:+ "/" +:+ join (y :: segs)).
    rewrite split_app_slash by done. f_equal. by apply IH.
Qed.

Lemma segments_render (segs : list string) :
  Forall valid_segment segs -> segments (render segs) = segs.
Proof.
  intros Hall. unfold segments, render.
  change (split ("/" +:+ join segs)) with ("" :: split (join segs)).
  rewrite filter_cons_False by (intros H; by apply H).
  destruct segs as [|x segs]; [reflexivity|].
  rewrite split_join; [|done|].
  - induction Hall as [|y ys [_ Hy] _ IH]; [reflexivity|].
    rewrite filter_cons_True by done. by rewrite IH.
  - eapply Forall_impl; [exact Hall|]. by intros y [Hy _].
Qed.

Lemma push_segment_valid (res : list string) (seg : string) :
  Forall valid_segment res -> no_slash seg = true ->
  Forall valid_segment (push_segment false res seg).
Proof.
  intros Hres Hseg. unfold push_segment.
  destruct (String.eqb seg "") eqn:E1; [done|].
  destruct (String.eqb seg ".") eqn:E2; [done|]. simpl.
  destruct (String.eqb seg "..") eqn:E3.
  - destruct res as [|top rest]; [done|].
    inversion Hres; subst. by destruct (String.eqb top "..").
  - constructor; [|done]. split; [done|]. by apply String.eqb_neq.
Qed.

Lemma normalize_segments_valid (path : string) :
  Forall valid_segment (normalize_segments false path).
Proof.
  unfold normalize_segments. apply Forall_rev.
  assert (H : forall l res, Forall (fun x => no_slash x = true) l ->
                            Forall valid_segment res ->
                            Forall valid_segment (fold_left (push_segment false) l res)).
  { induction l as [|x l IH]; intros res Hl Hres; [done|].
    inversion Hl; subst. simpl. apply IH; [done|]. by apply push_segment_valid. }
  apply H; [apply split_no_slash | constructor].
Qed.

(** Resolving against an absolute directory gives an absolute path in
    normal form. *)
Lemma resolve_render (cwd wd path : string) :
  isAbsolute wd = true -> path <> "" ->
  exists segs, resolve cwd [wd; path] = render segs /\ Forall valid_segment segs.
Proof.
  intros Habs Hpath. unfold resolve. simpl.
  apply String.eqb_neq in Hpath. rewrite Hpath.
  destruct (isAbsolute path).
  - simpl. eexists. split; [reflexivity | apply normalize_segments_valid].
  - assert (Hwd : String.eqb wd "" = false) by by destruct wd.
    rewrite Hwd, Habs. simpl.
    eexists. split; [reflexivity | apply normalize_segments_valid].
Qed.

Lemma join_app (a more : list string) :
  a <> [] -> exists rest, join (a ++ more) = join a +:+ rest.
Proof.
  induction a as [|x a IH]; intros Hne; [done|].
  destruct a as [|y a].
  - destruct more as [|m more].
    + exists "". simpl. by rewrite app_empty_string.
    + exists ("/" +:+ join (m :: more)). reflexivity.
  - destruct IH as [rest Hrest]; [done|].
    exists rest.
    change (join ((x :: y :: a) ++ more)) with (x +:+ "/" +:+ join ((y :: a) ++ more)).
    change (join (x :: y :: a)) with (x +:+ "/" +:+ join (y :: a)).
    by rewrite Hrest, !app_assoc_string.
Qed.

Lemma render_prefix (a more : list string) :
  Js.startsWith (render (a ++ more)) (render a) = true.
Proof.
  unfold render. destruct a as [|x a].
  - reflexivity.
  - destruct (join_app (x :: a) more) as [rest ->]; [done|].
    rewrite <- app_assoc_string. apply startsWith_app.
Qed.

(** A directory that contains a resolved path is a prefix of it as a
    string. *)
Lemma ancestor_is_string_prefix (cwd wd path : string) :
  is_resolved wd = true -> path <> "" ->
  is_ancestor_or_equal (resolve cwd [wd; path]) wd = true ->
  Js.startsWith wd (resolve cwd [wd; path]) = true.
Proof.
  intros Hres Hpath Hanc.
  unfold is_resolved in Hres. apply andb_true_iff in Hres as [Hwd _].
  apply String.eqb_eq in Hwd.
  destruct (resolve_render cwd wd path) as (segs & Hfull & Hvalid); [|done|].
  { rewrite Hwd. reflexivity. }
  rewrite Hfull in Hanc |- *.
  unfold is_ancestor_or_equal in Hanc. apply bool_decide_eq_true in Hanc.
  rewrite segments_render in Hanc by done.
  destruct Hanc as [more Hmore].
  rewrite Hwd, Hmore. apply render_prefix.
Qed.

End Paths.

(** ** Path authorization (config.ts) *)

Section PathAuthorization.

Variable out : Outside.

Lemma existsb_elem {A} (f : A -> bool) (l : list A) (x : A) :
  x ∈ l -> f x = true -> existsb f l = true.
Proof.
  intros Hin Hf. apply existsb_exists. exists x. split; [|exact Hf].
  apply list_elem_of_In. exact Hin.
Qed.

Lemma existsb_none {A} (f : A -> bool) (l : list A) :
  (forall x, x ∈ l -> f x = false) -> existsb f l = false.
Proof.
  induction l as [|a l IH]; intros H; simpl; [reflexivity|].
  rewrite (H a) by constructor. simpl. apply IH. intros x Hx. apply H. by constructor.
Qed.

(** C3. Whenever the normalized path contains an entry of [deny_paths],
    [isPathAllowedForWrite] refuses it, whatever [allow_write_paths]
    holds; the allow-list is only looked at for a path no entry denies,
    and, when it is not empty, the path must start with one of its
    entries.  A refused path blocks delete_file, write_file and
    append_file before they touch anything. *)
Theorem deny_paths_block_before_allow_list
    (filePath : string) (config : AppConfig) :
  let normalizedPath := Path.normalize filePath in
  let denyPaths := default [] (deny_paths (project config)) in
  let allowPaths := default [] (allow_write_paths (project config)) in
  ((exists denied, denied ∈ denyPaths /\ Js.includes normalizedPath denied = true) ->
   isPathAllowedForWrite filePath config = false) /\
  ((forall denied, denied ∈ denyPaths -> Js.includes normalizedPath denied = false) ->
   allowPaths <> [] ->
   isPathAllowedForWrite filePath config =
   existsb (fun allowed => Js.startsWith normalizedPath allowed) allowPaths) /\
  ((forall denied, denied ∈ denyPaths -> Js.includes normalizedPath denied = false) ->
   allowPaths = [] ->
   isPathAllowedForWrite filePath config = true) /\
  (forall (args : Args) (context : ToolContext) (path : string) (t : Trace),
     ctx_config context = config ->
     prop args "path" = JStr path ->
     Js.truthy path = true ->
     filePath = Path.resolve (process_cwd out) [ctx_workingDirectory context; path] ->
     isPathAllowedForWrite filePath config = false ->
     delete_file_execute out args context t =
       (Ok (failed ("路径不允许删除: " +:+ filePath)), t) /\
     (prop args "content" <> JUndefined -> prop args "content" <> JNull ->
      write_file_execute out args context t =
        (Ok (failed ("路径不允许写入: " +:+ filePath)), t) /\
      append_file_execute out args context t =
        (Ok (failed ("路径不允许写入: " +:+ filePath)), t))).
Proof.
  cbv zeta. repeat split.
  - intros (denied & Hin & Hinc). unfold isPathAllowedForWrite.
    by erewrite existsb_elem by eassumption.
  - intros Hnone Hne. unfold isPathAllowedForWrite.
    rewrite existsb_none by exact Hnone.
    destruct (default [] (allow_write_paths (project config))); [congruence | reflexivity].
  - intros Hnone Hnil. unfold isPathAllowedForWrite.
    rewrite Hnil. by rewrite existsb_none by exact Hnone.
  - unfold delete_file_execute, try_catch.
    rewrite H0. cbn [js_truthy]. rewrite H1. cbn [negb].
    rewrite <- H2, H, H3. reflexivity.
  - unfold write_file_execute, store_file_execute, try_catch.
    rewrite H0. cbn [js_truthy]. rewrite H1. cbn [negb].
    rewrite <- H2, H, H3.
    destruct (prop args "content"); try congruence; reflexivity.
  - unfold append_file_execute, store_file_execute, try_catch.
    rewrite H0. cbn [js_truthy]. rewrite H1. cbn [negb].
    rewrite <- H2, H, H3.
    destruct (prop args "content"); try congruence; reflexivity.
Qed.

End PathAuthorization.

(** A path under an allowed directory that a deny entry matches. *)
Lemma deny_paths_block_before_allow_list_witness :
  let policy := {| allow_commands := None;
                   allow_write_paths := Some ["/home/u/proj/src"];
                   deny_paths := Some ["node_modules"; ".git"] |} in
  let config := example_config true policy in
  let o := scripted true [] (exited 0) in
  let context := createToolContext o (example_agent true policy "main") in
  Js.startsWith (Path.normalize "/home/u/proj/src/.git/hooks") "/home/u/proj/src" = true /\
  isPathAllowedForWrite "/home/u/proj/src/.git/hooks" config = false /\
  isPathAllowedForWrite "/home/u/proj/lib/a.ts" config = false /\
  delete_file_execute o (path_args "src/.git/hooks") context [] =
    (Ok (failed "路径不允许删除: /home/u/proj/src/.git/hooks"), []).
Proof.
  cbv zeta.
  pose proof (deny_paths_block_before_allow_list (scripted true [] (exited 0))
                "/home/u/proj/src/.git/hooks"
                (example_config true
                   {| allow_commands := None;
                      allow_write_paths := Some ["/home/u/proj/src"];
                      deny_paths := Some ["node_modules"; ".git"] |}))
    as (Hdeny & _ & _ & Htools).
  pose proof (deny_paths_block_before_allow_list (scripted true [] (exited 0))
                "/home/u/proj/lib/a.ts"
                (example_config true
                   {| allow_commands := None;
                      allow_write_paths := Some ["/home/u/proj/src"];
                      deny_paths := Some ["node_modules"; ".git"] |}))
    as (_ & Hallow & _ & _).
  cbv zeta in *.
  assert (Hd : isPathAllowedForWrite "/home/u/proj/src/.git/hooks"
                 (example_config true
                    {| allow_commands := None;
                       allow_write_paths := Some ["/home/u/proj/src"];
                       deny_paths := Some ["node_modules"; ".git"] |}) = false).
  { apply Hdeny. exists ".git". split; [|reflexivity].
    apply list_elem_of_In. simpl. tauto. }
  split; [reflexivity|]. split; [exact Hd|]. split.
  - rewrite Hallow; [reflexivity | | discriminate].
    intros denied Hin. simpl in Hin.
    repeat (apply elem_of_cons in Hin as [Heq | Hin]; [by rewrite Heq |]).
    by apply elem_of_nil in Hin.
  - apply (Htools (path_args "src/.git/hooks") _ "src/.git/hooks" []);
      first [reflexivity | exact Hd].
Defined.

(** ** What a computation adds to the trace *)

Section Emits.

Context {A B : Type} (P : Event -> bool).

Lemma emits_ret (a : A) : emits P (ret a).
Proof. intros t. exists []. by rewrite app_nil_r. Qed.

Lemma emits_throw (e : string) : emits P (@throw Trace A e).
Proof. intros t. exists []. by rewrite app_nil_r. Qed.

Lemma emits_bind (m : IO A) (k : A -> IO B) :
  emits P m -> (forall a, emits P (k a)) -> emits P (bind m k).
Proof.
  intros Hm Hk t. unfold bind.
  destruct (Hm t) as (evs1 & H1 & HP1).
  destruct (m t) as [[a|e] t1]; simpl in H1; subst t1.
  - destruct (Hk a (t ++ evs1)) as (evs2 & H2 & HP2).
    exists (evs1 ++ evs2). rewrite H2, app_assoc. split; [done|].
    by apply Forall_app.
  - by exists evs1.
Qed.

Lemma emits_try_catch (m : IO A) (h : string -> IO A) :
  emits P m -> (forall e, emits P (h e)) -> emits P (try_catch m h).
Proof.
  intros Hm Hh t. unfold try_catch.
  destruct (Hm t) as (evs1 & H1 & HP1).
  destruct (m t) as [[a|e] t1]; simpl in H1; subst t1.
  - by exists evs1.
  - destruct (Hh e (t ++ evs1)) as (evs2 & H2 & HP2).
    exists (evs1 ++ evs2). rewrite H2, app_assoc. split; [done|].
    by apply Forall_app.
Qed.

Lemma emits_ask (q : Trace -> A) (ev : A -> Event) :
  (forall a, P (ev a) = true) -> emits P (ask q ev).
Proof. intros H t. eexists. split; [reflexivity|]. by repeat constructor. Qed.

Lemma emits_one (q : Trace -> Result A) (e : Event) :
  P e = true -> emits P (fun t => (q t, t ++ [e])).
Proof. intros H t. eexists. split; [reflexivity|]. by repeat constructor. Qed.

End Emits.

(** ** The tools and the safety gate (agent/index.ts, tools) *)

Section SafetyGate.

Variable out : Outside.

Lemma confirmed_first_safe (prev : option Event) (evs : list Event) :
  Forall (fun e => high_risk_action e = false) evs ->
  confirmed_first prev evs = true.
Proof.
  intros H. revert prev. induction H as [|e evs He _ IH]; intros prev; simpl.
  - reflexivity.
  - rewrite He. simpl. apply IH.
Qed.

Lemma on_events_kills (es : list ProcEvent) (st : ProcState) :
  Forall (fun e => e = EvKill "SIGKILL") (on_events st es).2.
Proof.
  revert st. induction es as [|e es IH]; intros st; simpl.
  - constructor.
  - apply Forall_app. split; [|apply IH].
    destruct e; simpl; try constructor.
    destruct (st_timer st); repeat constructor.
Qed.

(** What [executeCommand] does to the outside: one [spawn], then at most
    kills. *)
Lemma executeCommand_trace (command cwd : string) (timeout : JsVal) (t : Trace) :
  exists kills,
    (executeCommand out command cwd timeout t).2 =
      t ++ EvSpawn command cwd timeout :: kills /\
    Forall (fun e => e = EvKill "SIGKILL") kills.
Proof.
  unfold executeCommand. eexists. split.
  - simpl. rewrite <- app_assoc. reflexivity.
  - apply on_events_kills.
Qed.

Lemma on_events_collect (es : list ProcEvent) (st : ProcState) :
  st_stdout (on_events st es).1 = st_stdout st +:+ stdout_of es /\
  st_stderr (on_events st es).1 = st_stderr st +:+ stderr_of es.
Proof.
  revert st. induction es as [|e es IH]; intros st.
  - simpl. by rewrite !app_empty_string.
  - simpl. destruct (IH (on_event st e).1) as [-> ->].
    destruct e; simpl; rewrite ?app_assoc_string; try done.
    destruct (st_timer st); done.
Qed.

(** Once the timer has fired or has been cleared, nothing more is
    killed. *)
Lemma on_events_timer_off (es : list ProcEvent) (st : ProcState) :
  st_timer st = false ->
  (on_events st es).2 = [] /\ st_killed (on_events st es).1 = st_killed st.
Proof.
  revert st. induction es as [|e es IH]; intros st Hoff; simpl; [done|].
  assert (st_timer (on_event st e).1 = false /\ (on_event st e).2 = [] /\
          st_killed (on_event st e).1 = st_killed st) as (H1 & H2 & H3).
  { destruct e; simpl; try rewrite Hoff; done. }
  destruct (IH _ H1) as [-> ->]. by rewrite H2, H3.
Qed.

(** The timer callback runs once: it marks the run as killed and sends
    one [SIGKILL]. *)
Lemma on_events_timer (es : list ProcEvent) (st : ProcState) :
  st_timer st = true -> timer_fires es = true ->
  (on_events st es).2 = [EvKill "SIGKILL"] /\ st_killed (on_events st es).1 = true.
Proof.
  revert st. induction es as [|e es IH]; intros st Hon Hfires; [discriminate|].
  simpl. destruct e; simpl in Hfires |- *.
  - apply IH; done.
  - apply IH; done.
  - rewrite Hon. simpl.
    destruct (on_events_timer_off es
                {| st_stdout := st_stdout st; st_stderr := st_stderr st;
                   st_killed := true; st_timer := false |} eq_refl) as [-> ->].
    done.
Qed.

(** The callback that [createToolContext] injects. *)
Lemma confirmAction_high (this : Agent) (message : string) (t : Trace) :
  confirmAction (createToolContext out this) message "high" t =
    (Ok (ui_confirm out message t), t ++ [EvConfirm message (ui_confirm out message t)]).
Proof.
  unfold createToolContext, confirmAction. simpl.
  rewrite andb_false_r. reflexivity.
Qed.

Lemma confirmAction_auto (this : Agent) (message riskLevel : string) (t : Trace) :
  autoConfirm (appConfig this) = true -> riskLevel <> "high" ->
  confirmAction (createToolContext out this) message riskLevel t = (Ok true, t).
Proof.
  intros Hauto Hrisk. unfold createToolContext, confirmAction.
  rewrite Hauto. apply String.eqb_neq in Hrisk. rewrite Hrisk. reflexivity.
Qed.

Lemma confirmAction_manual (this : Agent) (message riskLevel : string) (t : Trace) :
  autoConfirm (appConfig this) = false ->
  confirmAction (createToolContext out this) message riskLevel t =
    (Ok (ui_confirm out message t), t ++ [EvConfirm message (ui_confirm out message t)]).
Proof.
  intros Hauto. unfold createToolContext, confirmAction.
  rewrite Hauto. reflexivity.
Qed.

(** run_command on a dangerous command: the prompt comes first, whatever
    the auto-confirm mode and the white list. *)
Lemma run_command_dangerous (args : Args) (this : Agent) (command : string) (t : Trace) :
  prop args "command" = JStr command ->
  Js.trim command <> "" ->
  isDangerousCommand command = true ->
  let message := run_command_prompt true command in
  let answer := ui_confirm out message t in
  let t1 := t ++ [EvConfirm message answer] in
  let timeout := run_command_timeout args in
  run_command_execute out args (createToolContext out this) t =
    if answer then
      match executeCommand out command (workingDirectory (appConfig this)) timeout t1 with
      | (Ok result, t2) => (Ok (succeeded (RunCommandResult_data result)), t2)
      | (Throw e, t2) => (Ok (failed ("命令执行失败: " +:+ e)), t2)
      end
    else (Ok (failed "用户取消命令执行"), t1).
Proof.
  intros Hcmd Htrim Hdanger. cbv zeta.
  assert (Htruthy : Js.truthy command = true).
  { destruct command; [|reflexivity]. exfalso. apply Htrim. reflexivity. }
  unfold run_command_execute, try_catch. rewrite Hcmd.
  cbn [js_truthy]. rewrite Htruthy. cbn [negb].
  apply String.eqb_neq in Htrim. rewrite Htrim.
  unfold run_command_needConfirm. rewrite Hdanger. cbv beta iota zeta.
  unfold bind at 1.
  rewrite confirmAction_high.
  destruct (ui_confirm out _ t); cbn [negb].
  - unfold bind, ret. cbn [ctx_workingDirectory createToolContext].
    destruct (executeCommand out command _ _ _) as [[r|e] t2]; reflexivity.
  - reflexivity.
Qed.

Lemma registry_lookup (name : string) (tool : ToolDefinition) :
  getTool out name = Some tool ->
  tool ∈ [listFilesTool out; readFileTool out; writeFileTool out; appendFileTool out;
          deleteFileTool out; runCommandTool out; searchCodebaseTool out] /\
  tool_name tool = name.
Proof.
  unfold getTool, tools. cbn [fold_left]. intros H.
  repeat (apply lookup_insert_Some in H as [[<- <-] | [_ H]];
          [split; [set_solver | reflexivity] |]).
  by rewrite lookup_empty in H.
Qed.

(** The builtin tools only have interactions of their own kind, as long
    as the confirmation callback does. *)
Lemma executeCommand_emits (P : Event -> bool) (command cwd : string) (timeout : JsVal) :
  (forall e, tool_event e = true -> P e = true) ->
  emits P (executeCommand out command cwd timeout).
Proof.
  intros HP t. destruct (executeCommand_trace command cwd timeout t) as (kills & H & Hk).
  eexists. split; [exact H|]. constructor; [by apply HP|].
  eapply Forall_impl; [exact Hk|]. intros e ->. by apply HP.
Qed.

Ltac emits_step :=
  match goal with
  | |- emits _ (ret _) => apply emits_ret
  | |- emits _ (throw _) => apply emits_throw
  | |- emits _ (bind _ _) => apply emits_bind; [|intros ?]
  | |- emits _ (try_catch _ _) => apply emits_try_catch; [|intros ?]
  | |- emits _ (executeCommand _ _ _ _) => by apply executeCommand_emits
  | |- emits _ (fs_existsSync _ _) => apply emits_ask; intros ?; auto
  | |- emits _ (fs_isDirectory _ _) => apply emits_one; auto
  | |- emits _ (fs _ _ _) => apply emits_one; auto
  | H : forall message riskLevel, emits _ (confirmAction _ message riskLevel)
    |- emits _ (confirmAction _ _ _) => apply H
  | |- emits _ (if ?c then _ else _) => destruct c
  | |- emits _ (match ?x with _ => _ end) => destruct x
  end.

Section ToolEvents.

Variable P : Event -> bool.
Hypothesis P_tool : forall e, tool_event e = true -> P e = true.

Variable context : ToolContext.
Hypothesis callback :
  forall message riskLevel, emits P (confirmAction context message riskLevel).

Lemma run_command_emits (args : Args) : emits P (run_command_execute out args context).
Proof. unfold run_command_execute. cbv zeta. repeat emits_step. Qed.

Lemma delete_file_emits (args : Args) : emits P (delete_file_execute out args context).
Proof. unfold delete_file_execute. cbv zeta. repeat emits_step. Qed.

Lemma store_file_emits (op : FsOp) (a b c d e : string) (args : Args) :
  emits P (store_file_execute out op a b c d e args context).
Proof. unfold store_file_execute. cbv zeta. repeat emits_step. Qed.

Lemma read_tool_emits (tool : string) (args : Args) :
  emits P (read_tool_execute out tool args context).
Proof. intros t. eexists. split; [reflexivity|]. repeat constructor. by apply P_tool. Qed.

Lemma builtin_emits (name : string) (tool : ToolDefinition) (args : Args) :
  getTool out name = Some tool -> emits P (execute tool args context).
Proof.
  intros Hget. apply registry_lookup in Hget as [Hin _].
  repeat (apply elem_of_cons in Hin as [Heq | Hin];
          [rewrite Heq; first [apply read_tool_emits | apply store_file_emits
                              | apply delete_file_emits | apply run_command_emits] |]).
  by apply elem_of_nil in Hin.
Qed.

(** tools/index.ts *)
Lemma executeTool_emits (toolCall : ToolCall) : emits P (executeTool out toolCall context).
Proof.
  unfold executeTool. destruct (getTool out (tc_name toolCall)) as [tool|] eqn:Hget.
  - apply emits_try_catch; [by eapply builtin_emits | intros e; apply emits_ret].
  - apply emits_ret.
Qed.

End ToolEvents.

Lemma confirmAction_emits (P : Event -> bool) (this : Agent) (message riskLevel : string) :
  (forall e, tool_event e = true -> P e = true) ->
  emits P (confirmAction (createToolContext out this) message riskLevel).
Proof.
  intros HP. unfold createToolContext, confirmAction.
  destruct (_ && _); [apply emits_ret|].
  apply emits_ask. intros a. by apply HP.
Qed.

Ltac trace_tail :=
  eexists; split; [rewrite <- ?app_assoc; simpl; reflexivity | try reflexivity].

(** delete_file: a deletion comes right after an accepted prompt. *)
Lemma delete_file_confirmed (args : Args) (this : Agent) (t : Trace) :
  exists evs,
    (delete_file_execute out args (createToolContext out this) t).2 = t ++ evs /\
    confirmed_first None evs = true.
Proof.
  unfold delete_file_execute, try_catch.
  destruct (negb (js_truthy (prop args "path"))).
  { exists []. by rewrite app_nil_r. }
  destruct (prop args "path") as [| | | |filePath| |];
    try (exists []; by rewrite app_nil_r).
  destruct (negb (isPathAllowedForWrite _ _)).
  { exists []. by rewrite app_nil_r. }
  destruct (Js.startsWith _ _).
  { exists []. by rewrite app_nil_r. }
  unfold bind at 1. unfold fs_existsSync at 1, ask.
  destruct (existsSync out _ t); cbn [negb].
  2:{ unfold ret. trace_tail. }
  unfold bind at 1. unfold fs_isDirectory at 1.
  destruct (statSync_isDirectory out _ _) as [isDir|e].
  2:{ unfold ret. trace_tail. }
  unfold bind at 1. rewrite confirmAction_high.
  destruct (ui_confirm out _ _); cbn [negb].
  2:{ unfold ret. trace_tail. }
  unfold bind, ret, fs.
  destruct isDir; [destruct (js_truthy (prop args "recursive"))|];
    destruct (fs_op out _ _ _); trace_tail.
Qed.

(** C1. A capability whose static risk level is high (delete_file, the
    only one of the registry) and run_command on a command that matches a
    dangerous pattern consult the confirmation callback before they act:
    every deletion and every subprocess comes right after a prompt the user
    accepted, also when auto-confirm is on.  The injected callback answers
    by itself when auto-confirm is on and the risk level is not high, and
    only then: for the risk level high, and without auto-confirm, it asks
    the user. *)
Theorem high_risk_always_confirmed (this : Agent) (t : Trace) :
  (forall message,
     confirmAction (createToolContext out this) message "high" t =
       (Ok (ui_confirm out message t),
        t ++ [EvConfirm message (ui_confirm out message t)])) /\
  (forall message riskLevel,
     autoConfirm (appConfig this) = true -> riskLevel <> "high" ->
     confirmAction (createToolContext out this) message riskLevel t = (Ok true, t)) /\
  (forall message riskLevel,
     autoConfirm (appConfig this) = false ->
     confirmAction (createToolContext out this) message riskLevel t =
       (Ok (ui_confirm out message t),
        t ++ [EvConfirm message (ui_confirm out message t)])) /\
  (forall name tool args,
     getTool out name = Some tool -> riskLevel tool = Some high ->
     tool_name tool = "delete_file" /\
     exists evs,
       (execute tool args (createToolContext out this) t).2 = t ++ evs /\
       confirmed_first None evs = true) /\
  (forall args command,
     prop args "command" = JStr command ->
     isDangerousCommand command = true ->
     exists evs,
       (run_command_execute out args (createToolContext out this) t).2 = t ++ evs /\
       confirmed_first None evs = true /\
       (evs = [] \/
        exists rest,
          evs = EvConfirm (run_command_prompt true command)
                  (ui_confirm out (run_command_prompt true command) t) :: rest)).
Proof.
  split; [|split; [|split; [|split]]].
  - intros message. apply confirmAction_high.
  - intros message riskLevel. apply confirmAction_auto.
  - intros message riskLevel. apply confirmAction_manual.
  - intros name tool args Hget Hrisk.
    apply registry_lookup in Hget as [Hin _].
    repeat (apply elem_of_cons in Hin as [-> | Hin]; [try discriminate Hrisk |]).
    + split; [reflexivity|]. apply delete_file_confirmed.
    + by apply elem_of_nil in Hin.
  - intros args command Hcmd Hdanger.
    destruct (decide (Js.trim command = "")) as [Hblank | Htrim].
    + exists []. rewrite app_nil_r. split; [|split; [reflexivity | by left]].
      unfold run_command_execute, try_catch. rewrite Hcmd. cbn [js_truthy].
      apply String.eqb_eq in Hblank. rewrite Hblank.
      by destruct (negb (Js.truthy command)).
    + rewrite (run_command_dangerous args this command t Hcmd Htrim Hdanger).
      destruct (ui_confirm out _ t) eqn:Hanswer.
      * destruct (executeCommand_trace command (workingDirectory (appConfig this))
                    (run_command_timeout args)
                    (t ++ [EvConfirm (run_command_prompt true command) true]))
          as (kills & Htrace & Hkills).
        exists (EvConfirm (run_command_prompt true command) true ::
                EvSpawn command (workingDirectory (appConfig this))
                  (run_command_timeout args) :: kills).
        split; [|split].
        -- destruct (executeCommand out command _ _ _) as [[r|e] t2];
             simpl in *; rewrite Htrace; by rewrite <- app_assoc.
        -- simpl. apply confirmed_first_safe.
           eapply Forall_impl; [exact Hkills|]. by intros e ->.
        -- right. eexists. reflexivity.
      * exists [EvConfirm (run_command_prompt true command) false].
        split; [reflexivity | split; [reflexivity | right; by eexists]].
Qed.

(** C4. The command [rm -rf /] matches a dangerous pattern, and
    run_command asks the user about it as a high-risk command whatever
    [allow_commands] holds and whatever the auto-confirm mode is: the
    command runs only after the user accepted, and a refusal cancels it. *)
Theorem rm_rf_root_always_confirmed (this : Agent) (args : Args) (t : Trace) :
  prop args "command" = JStr "rm -rf /" ->
  let message := "⚠️  高危命令 - 执行命令: rm -rf /" in
  let answer := ui_confirm out message t in
  let t1 := t ++ [EvConfirm message answer] in
  let timeout := run_command_timeout args in
  isDangerousCommand "rm -rf /" = true /\
  run_command_execute out args (createToolContext out this) t =
    if answer then
      match executeCommand out "rm -rf /" (workingDirectory (appConfig this)) timeout t1 with
      | (Ok result, t2) => (Ok (succeeded (RunCommandResult_data result)), t2)
      | (Throw e, t2) => (Ok (failed ("命令执行失败: " +:+ e)), t2)
      end
    else (Ok (failed "用户取消命令执行"), t1).
Proof.
  intros Hcmd. cbv zeta. split; [by vm_compute|].
  apply (run_command_dangerous args this "rm -rf /" t Hcmd); by vm_compute.
Qed.

(** C5. [ToolManager.executeTool] on a name that a builtin tool has: the
    builtin tool is executed (an exception it throws becomes a failed
    result) and no MCP tool is called.  The MCP servers are asked only
    when no builtin tool has the name and MCP is enabled; otherwise the
    tool is unknown. *)
Theorem builtin_tool_always_wins
    (this : ToolManager.ToolManager) (toolCall : ToolCall) (context : ToolContext)
    (t : Trace) :
  (forall message riskLevel,
     emits (fun e => negb (is_mcp_call e)) (confirmAction context message riskLevel)) ->
  (forall builtinTool,
     getTool out (tc_name toolCall) = Some builtinTool ->
     ToolManager.executeTool out this toolCall context t =
       match execute builtinTool (tc_arguments toolCall) context t with
       | (Ok result, t') => (Ok result, t')
       | (Throw e, t') => (Ok (failed ("内置工具执行异常: " +:+ e)), t')
       end /\
     exists evs,
       (ToolManager.executeTool out this toolCall context t).2 = t ++ evs /\
       Forall (fun e => is_mcp_call e = false) evs) /\
  (getTool out (tc_name toolCall) = None ->
   ToolManager.executeTool out this toolCall context t =
     if ToolManager.mcpEnabled this then
       let t1 := t ++ [EvMcpCall (tc_name toolCall) (tc_arguments toolCall)] in
       match mcp_callTool out (tc_name toolCall) (tc_arguments toolCall) t1 with
       | Ok result => (Ok result, t1)
       | Throw e => (Ok (failed ("MCP 工具执行异常: " +:+ e)), t1)
       end
     else (Ok (failed ("未知工具: " +:+ tc_name toolCall)), t)).
Proof.
  intros Hcallback. split.
  - intros builtinTool Hget. unfold ToolManager.executeTool. rewrite Hget. split.
    + unfold try_catch. by destruct (execute builtinTool _ _ t) as [[r|e] t'].
    + assert (Hemits : emits (fun e => negb (is_mcp_call e))
                         (try_catch (execute builtinTool (tc_arguments toolCall) context)
                            (fun e => ret (failed ("内置工具执行异常: " +:+ e))))).
      { apply emits_try_catch; [|intros e; apply emits_ret].
        eapply builtin_emits; [|exact Hcallback|exact Hget].
        by intros []. }
      destruct (Hemits t) as (evs & Htrace & Hevs).
      exists evs. split; [exact Htrace|].
      eapply Forall_impl; [exact Hevs|]. intros e He. by apply negb_true_iff.
  - intros Hnone. unfold ToolManager.executeTool. rewrite Hnone.
    destruct (ToolManager.mcpEnabled this); [|reflexivity].
    unfold try_catch, ToolManager.callTool, ret. cbv zeta.
    by destruct (mcp_callTool out _ _ _).
Qed.

(** C6. delete_file refuses to delete the working directory and every
    directory that contains it: for a working directory in the form
    [path.resolve] and [process.cwd()] return, a request whose resolved
    path is the working directory or one of its ancestors gets a failed
    result, and nothing is asked of the file system or of the user. *)
Theorem delete_file_refuses_ancestors
    (args : Args) (context : ToolContext) (path : string) (t : Trace) :
  prop args "path" = JStr path ->
  Path.is_resolved (ctx_workingDirectory context) = true ->
  Path.is_ancestor_or_equal
    (Path.resolve (process_cwd out) [ctx_workingDirectory context; path])
    (ctx_workingDirectory context) = true ->
  exists message,
    delete_file_execute out args context t = (Ok (failed message), t).
Proof.
  intros Hpath Hres Hanc.
  unfold delete_file_execute, try_catch. rewrite Hpath. cbn [js_truthy].
  destruct (Js.truthy path) eqn:Htruthy; cbn [negb].
  2:{ eexists. reflexivity. }
  destruct (negb (isPathAllowedForWrite _ _)).
  { eexists. reflexivity. }
  rewrite ancestor_is_string_prefix; [eexists; reflexivity | done | | done].
  intros ->. discriminate.
Qed.

(** C7. When the timer of [executeCommand] fires before the subprocess
    settles the promise, the subprocess gets one [SIGKILL].  If it then
    closes, run_command returns a successful result whose data holds
    everything the subprocess wrote to its standard output up to the
    close, its standard error followed by a line feed and the note
    [[命令执行超时，已终止]], and the exit code -1.  If instead it emits
    [error] (the kill failed, say), the promise is rejected: run_command
    returns a failed result with the message of the error, and what the
    subprocess wrote is dropped.  The hypothesis on [confirmAction] says
    that the command got past the confirmation. *)
Theorem timeout_is_a_truncated_success
    (args : Args) (context : ToolContext) (command : string) (t t1 : Trace) :
  prop args "command" = JStr command ->
  Js.trim command <> "" ->
  (if run_command_needConfirm command context then
     confirmAction context
       (run_command_prompt (isDangerousCommand command) command)
       (if isDangerousCommand command then "high" else "medium") t = (Ok true, t1)
   else t1 = t) ->
  let timeout := run_command_timeout args in
  let started := t1 ++ [EvSpawn command (ctx_workingDirectory context) timeout] in
  let proc := spawn out command (ctx_workingDirectory context) timeout started in
  timer_fires (proc_events proc) = true ->
  run_command_execute out args context t =
    (match proc_end proc with
     | OnClose _ =>
         Ok {| success := true;
               data := Some (JObj [("stdout", JStr (stdout_of (proc_events proc)));
                                   ("stderr", JStr (stderr_of (proc_events proc) +:+
                                                    String "010" "[命令执行超时，已终止]"));
                                   ("code", JNum (-1))]);
               error := None |}
     | OnError err =>
         Ok {| success := false; data := None; error := Some ("命令执行失败: " +:+ err) |}
     end,
     started ++ [EvKill "SIGKILL"]).
Proof.
  intros Hcmd Htrim Hgate timeout started proc Hfires.
  assert (Htruthy : Js.truthy command = true).
  { destruct command; [|reflexivity]. exfalso. apply Htrim. reflexivity. }
  assert (Hexec :
    executeCommand out command (ctx_workingDirectory context) timeout t1 =
      (match proc_end proc with
       | OnClose _ =>
           Ok {| stdout := stdout_of (proc_events proc);
                 stderr := stderr_of (proc_events proc) +:+
                           String "010" "[命令执行超时，已终止]";
                 code := -1 |}
       | OnError err => Throw err
       end,
       started ++ [EvKill "SIGKILL"])).
  { unfold executeCommand. fold started. fold proc.
    set (st0 := {| st_stdout := ""; st_stderr := ""; st_killed := false; st_timer := true |}).
    destruct (on_events_timer (proc_events proc) st0 eq_refl Hfires) as [Hk Hkilled].
    destruct (on_events_collect (proc_events proc) st0) as [Hout Herr].
    destruct (proc_end proc) as [c|err]; cbn [on_end]; [|by rewrite Hk].
    rewrite Hkilled, Hk, Hout, Herr. reflexivity. }
  unfold run_command_execute, try_catch. rewrite Hcmd.
  cbn [js_truthy]. rewrite Htruthy. cbn [negb].
  apply String.eqb_neq in Htrim. rewrite Htrim.
  fold timeout.
  destruct (run_command_needConfirm command context).
  - unfold bind at 1. rewrite Hgate. cbn [negb].
    unfold bind, ret. rewrite Hexec. by destruct (proc_end proc).
  - subst t1. unfold bind, ret. rewrite Hexec. by destruct (proc_end proc).
Qed.

End SafetyGate.

(** The patterns of run_command on a few commands. *)
Example isDangerousCommand_examples :
  map isDangerousCommand
    [ "rm -rf /"; "RM  -R build"; "git rm --recursive src"; "rm file.txt"; "rm -f x";
      "echo sudo"; "chmod 777 run.sh"; "chmod 755 run.sh";
      "echo a > /dev/null"; "echo a >/tmp/dev"; "mkfs.ext4 /dev/sda"; "dd if=/dev/zero";
      ":(){ :|:& };:"; "ls -la"; "rm" +:+ Js.of_bytes [194; 160] +:+ "-rf x" ] =
    [ true; true; true; false; false;
      true; true; false;
      true; false; true; true;
      true; false; true ].
Proof. by vm_compute. Qed.

(** The white list holds the command itself and a pattern for it, the
    auto-confirm mode is on, and the user is still asked. *)
Lemma rm_rf_root_always_confirmed_witness :
  let policy := {| allow_commands := Some ["rm -rf /"; "rm *"];
                   allow_write_paths := None; deny_paths := None |} in
  let o := scripted false [] (exited 0) in
  let this := example_agent true policy "main" in
  isCommandAllowed "rm -rf /" (appConfig this) = true /\
  run_command_execute o (command_args "rm -rf /") (createToolContext o this) [] =
    (Ok (failed "用户取消命令执行"),
     [EvConfirm "⚠️  高危命令 - 执行命令: rm -rf /" false]).
Proof.
  cbv zeta. split; [reflexivity|].
  exact (proj2 (rm_rf_root_always_confirmed
                  (scripted false [] (exited 0))
                  (example_agent true
                     {| allow_commands := Some ["rm -rf /"; "rm *"];
                        allow_write_paths := None; deny_paths := None |} "main")
                  (command_args "rm -rf /") [] eq_refl)).
Defined.

(** A command that is still writing when its timer fires. *)
Lemma timeout_is_a_truncated_success_witness :
  let proc := {| proc_events := [OnStdout "par"; OnTimer; OnStdout "tial"; OnStderr "late"];
                 proc_end := OnClose None |} in
  let o := scripted true [] proc in
  let context := createToolContext o (example_agent true DEFAULT_PROJECT_CONFIG "main") in
  run_command_execute o (command_args "sleep 100") context [] =
    (Ok {| success := true;
           data := Some (JObj [("stdout", JStr "partial");
                               ("stderr", JStr ("late" +:+
                                                String "010" "[命令执行超时，已终止]"));
                               ("code", JNum (-1))]);
           error := None |},
     [EvSpawn "sleep 100" "/home/u/proj" (JNum 30000); EvKill "SIGKILL"]).
Proof.
  cbv zeta.
  exact (timeout_is_a_truncated_success
           (scripted true []
              {| proc_events := [OnStdout "par"; OnTimer; OnStdout "tial"; OnStderr "late"];
                 proc_end := OnClose None |})
           (command_args "sleep 100")
           (createToolContext _ (example_agent true DEFAULT_PROJECT_CONFIG "main"))
           "sleep 100" [] [] eq_refl
           ltac:(vm_compute; discriminate) eq_refl eq_refl).
Defined.

(** A timed-out command is not always a success: when the subprocess
    emits [error] after the timer fired, the result is a failure and the
    output collected so far is lost. *)
Lemma timed_out_command_can_fail :
  ~ (forall proc : ProcRun,
       timer_fires (proc_events proc) = true ->
       let o := scripted true [] proc in
       let context := createToolContext o (example_agent true DEFAULT_PROJECT_CONFIG "main") in
       exists result,
         (run_command_execute o (command_args "sleep 100") context []).1 = Ok result /\
         success result = true).
Proof.
  intros H.
  destruct (H {| proc_events := [OnStdout "partial"; OnTimer];
                 proc_end := OnError "kill EPERM" |} eq_refl)
    as (result & Hresult & Hsuccess).
  vm_compute in Hresult. inversion Hresult; subst result. discriminate Hsuccess.
Qed.

Example timed_out_command_with_a_failed_kill :
  let proc := {| proc_events := [OnStdout "partial"; OnTimer];
                 proc_end := OnError "kill EPERM" |} in
  let o := scripted true [] proc in
  let context := createToolContext o (example_agent true DEFAULT_PROJECT_CONFIG "main") in
  run_command_execute o (command_args "sleep 100") context [] =
    (Ok {| success := false; data := None; error := Some "命令执行失败: kill EPERM" |},
     [EvSpawn "sleep 100" "/home/u/proj" (JNum 30000); EvKill "SIGKILL"]).
Proof. by vm_compute. Qed.

(** The working directory itself, its parent, and the root. *)
Lemma delete_file_refuses_ancestors_witness :
  let o := scripted true [] (exited 0) in
  let context := createToolContext o (example_agent true DEFAULT_PROJECT_CONFIG "main") in
  (exists message,
     delete_file_execute o (path_args ".") context [] = (Ok (failed message), [])) /\
  (exists message,
     delete_file_execute o (path_args "src/../..") context [] = (Ok (failed message), [])) /\
  (exists message,
     delete_file_execute o (path_args "/") context [] = (Ok (failed message), [])).
Proof.
  cbv zeta. repeat split.
  - exact (delete_file_refuses_ancestors (scripted true [] (exited 0)) (path_args ".")
             (createToolContext _ (example_agent true DEFAULT_PROJECT_CONFIG "main"))
             "." [] eq_refl eq_refl eq_refl).
  - exact (delete_file_refuses_ancestors (scripted true [] (exited 0))
             (path_args "src/../..")
             (createToolContext _ (example_agent true DEFAULT_PROJECT_CONFIG "main"))
             "src/../.." [] eq_refl eq_refl eq_refl).
  - exact (delete_file_refuses_ancestors (scripted true [] (exited 0)) (path_args "/")
             (createToolContext _ (example_agent true DEFAULT_PROJECT_CONFIG "main"))
             "/" [] eq_refl eq_refl eq_refl).
Defined.

(** An MCP server is connected, and [search_codebase] is dispatched. *)
Lemma builtin_tool_always_wins_witness :
  let o := scripted true [] (exited 0) in
  let context := createToolContext o (example_agent true DEFAULT_PROJECT_CONFIG "main") in
  let this := {| ToolManager.mcpEnabled := true; ToolManager.tm_debug := false |} in
  let toolCall := {| tc_name := "search_codebase"; tc_arguments := ∅ |} in
  let mcpCall := {| tc_name := "browser_open"; tc_arguments := ∅ |} in
  ToolManager.executeTool o this toolCall context [] =
    (Ok (succeeded JNull), [EvReadTool "search_codebase" ∅]) /\
  ToolManager.executeTool o this mcpCall context [] =
    (Ok (succeeded JNull), [EvMcpCall "browser_open" ∅]).
Proof.
  cbv zeta.
  pose proof (builtin_tool_always_wins (scripted true [] (exited 0))
                {| ToolManager.mcpEnabled := true; ToolManager.tm_debug := false |}
                {| tc_name := "search_codebase"; tc_arguments := ∅ |}
                (createToolContext _ (example_agent true DEFAULT_PROJECT_CONFIG "main")) []
                (fun message riskLevel =>
                   confirmAction_emits (scripted true [] (exited 0))
                     (fun e => negb (is_mcp_call e)) _ message riskLevel
                     ltac:(by intros []))) as [Hbuiltin _].
  pose proof (builtin_tool_always_wins (scripted true [] (exited 0))
                {| ToolManager.mcpEnabled := true; ToolManager.tm_debug := false |}
                {| tc_name := "browser_open"; tc_arguments := ∅ |}
                (createToolContext _ (example_agent true DEFAULT_PROJECT_CONFIG "main")) []
                (fun message riskLevel =>
                   confirmAction_emits (scripted true [] (exited 0))
                     (fun e => negb (is_mcp_call e)) _ message riskLevel
                     ltac:(by intros []))) as [_ Hmcp].
  split.
  - exact (proj1 (Hbuiltin (searchCodebaseTool _) eq_refl)).
  - exact (Hmcp eq_refl).
Defined.

Lemma high_risk_always_confirmed_witness :
  let o := scripted true [] (exited 0) in
  let this := example_agent true DEFAULT_PROJECT_CONFIG "main" in
  confirmAction (createToolContext o this) "追加到文件: a.txt" "medium" [] = (Ok true, []) /\
  (exists evs,
     (delete_file_execute o (path_args "src/a.ts") (createToolContext o this) []).2 = [] ++ evs /\
     confirmed_first None evs = true) /\
  (exists evs,
     (run_command_execute o (command_args "sudo reboot") (createToolContext o this) []).2
       = [] ++ evs /\
     confirmed_first None evs = true /\
     (evs = [] \/
      exists rest,
        evs = EvConfirm (run_command_prompt true "sudo reboot")
                (ui_confirm o (run_command_prompt true "sudo reboot") []) :: rest)).
Proof.
  cbv zeta.
  pose proof (high_risk_always_confirmed (scripted true [] (exited 0))
                (example_agent true DEFAULT_PROJECT_CONFIG "main") [])
    as (_ & Hauto & _ & Hhigh & Hdanger).
  split; [|split].
  - apply Hauto; [reflexivity | discriminate].
  - apply (Hhigh "delete_file" (deleteFileTool _) (path_args "src/a.ts")); reflexivity.
  - apply (Hdanger (command_args "sudo reboot") "sudo reboot"); reflexivity.
Defined.


(** ** The provider adapters *)

Section SystemPayloads.

Variable buildSystemPrompt : string.
Variable stringify_arguments : Args -> string.

Lemma openai_convert_role (m : Message) :
  o_role (openai_convert stringify_arguments m) = role m.
Proof. unfold openai_convert. by destruct (role m). Qed.

Lemma openai_convert_system (m : Message) :
  role m = Role.system ->
  o_content (openai_convert stringify_arguments m) = Some (content m).
Proof. intros H. unfold openai_convert. by rewrite H. Qed.

Lemma openai_system_payloads (messages : list Message) :
  map o_content
    (List.filter (fun m => is_system_role (o_role m))
       (map (openai_convert stringify_arguments) messages)) =
  map (fun m => Some (content m)) (List.filter isSystem messages).
Proof.
  induction messages as [|m messages IH]; [reflexivity|].
  cbn [map List.filter]. rewrite openai_convert_role. unfold isSystem at 1.
  destruct (role m) eqn:E; cbn [is_system_role map]; rewrite IH; [|done..].
  by rewrite openai_convert_system.
Qed.

Lemma ollama_convert_role (m : Message) :
  Ollama.ol_role (Ollama.convert m) = role m /\
  Ollama.ol_content (Ollama.convert m) = content m.
Proof. unfold Ollama.convert. by destruct (role m). Qed.

Lemma ollama_system_payloads (messages : list Message) :
  map (fun m => Some (Ollama.ol_content m))
    (List.filter (fun m => is_system_role (Ollama.ol_role m))
       (map Ollama.convert messages)) =
  map (fun m => Some (content m)) (List.filter isSystem messages).
Proof.
  induction messages as [|m messages IH]; [reflexivity|].
  cbn [map List.filter]. destruct (ollama_convert_role m) as [Hr Hc].
  rewrite Hr. unfold isSystem at 1.
  destruct (role m) eqn:E; cbn [is_system_role map]; rewrite IH; [|done..].
  by rewrite Hc.
Qed.

Lemma anthropic_push_no_system result block :
  no_system result -> no_system (Anthropic.push_tool_result result block).
Proof.
  intros H. unfold Anthropic.push_tool_result.
  destruct (List.rev result) as [|lastMsg init] eqn:Hrev.
  - apply Forall_app. split; [done | by repeat constructor].
  - assert (Hinit : no_system (List.rev init)).
    { apply Forall_rev. rewrite <- (rev_involutive result), Hrev in H.
      simpl in H. apply Forall_app in H as [H _]. apply Forall_rev in H.
      by rewrite rev_involutive in H. }
    destruct (Anthropic.an_role lastMsg);
      apply Forall_app; split; try done; by repeat constructor.
Qed.

Lemma anthropic_convert_no_system (messages : list Message) result :
  no_system result -> no_system (fold_left Anthropic.convert messages result).
Proof.
  revert result. induction messages as [|m messages IH]; intros result H; [done|].
  simpl. apply IH. unfold Anthropic.convert.
  destruct (role m).
  - done.
  - apply Forall_app. split; [done | by repeat constructor].
  - destruct (0 <? _); [|done].
    apply Forall_app. split; [done | by repeat constructor].
  - by apply anthropic_push_no_system.
Qed.

Lemma anthropic_no_system_message (messages : list Message) :
  no_system (Anthropic.convertMessages messages).
Proof.
  unfold Anthropic.convertMessages.
  pose proof (anthropic_convert_no_system messages [] ltac:(constructor)) as H.
  destruct (fold_left Anthropic.convert messages []) as [|first rest].
  - by repeat constructor.
  - destruct (Anthropic.an_role first); try done; by constructor.
Qed.

Lemma filter_none {X} (f : X -> bool) (l : list X) :
  Forall (fun x => f x = false) l -> List.filter f l = [].
Proof.
  induction 1 as [|x l Hx _ IH]; [reflexivity|]. simpl. by rewrite Hx.
Qed.

(** C8, as the adapters have it.  The Anthropic request has exactly one
    system payload, its [system] parameter: the base system prompt,
    followed by the contents of the system messages of the list when
    there are any; none of its messages has the system role.  The
    requests of the other adapters (OpenAI and Grok, Kimi, Ollama) start
    with the base system prompt as a system message and carry every
    system message of the list as one more system message, in order. *)
Theorem system_payloads_of_request (provider : LLMProvider) (messages : list Message) :
  let systemMessages := List.filter isSystem messages in
  system_payloads (wireRequest provider buildSystemPrompt stringify_arguments messages) =
    match provider with
    | anthropic =>
        [Some (if 0 <? length systemMessages then
                 buildSystemPrompt +:+ lf +:+ lf +:+
                 join_with (lf +:+ lf) (map content systemMessages)
               else buildSystemPrompt)]
    | _ => Some buildSystemPrompt :: map (fun m => Some (content m)) systemMessages
    end.
Proof.
  cbv zeta. destruct provider; simpl.
  - rewrite (filter_none _ (Anthropic.convertMessages messages));
      [reflexivity | apply anthropic_no_system_message].
  - by rewrite openai_system_payloads.
  - by rewrite ollama_system_payloads.
  - by rewrite openai_system_payloads.
  - by rewrite openai_system_payloads.
Qed.

End SystemPayloads.

(** The Kimi request for a history that starts with the project
    knowledge has two system messages. *)
Lemma kimi_sends_two_system_messages :
  ~ (forall (provider : LLMProvider) (messages : list Message),
       length (system_payloads (wireRequest provider "You are Ghostwriter." (fun _ => "{}")
                                  messages)) = 1).
Proof.
  intros H.
  specialize (H kimi [plain_message Role.system "project knowledge";
                      plain_message Role.user "hi"]).
  vm_compute in H. discriminate.
Qed.

(** ** The agent loop (agent/index.ts) *)

Section AgentLoop.

Variable out : Outside.

Lemma llm_calls_app (a b : list Event) : llm_calls (a ++ b) = llm_calls a + llm_calls b.
Proof. unfold llm_calls. by rewrite List.filter_app, length_app. Qed.

Lemma llm_calls_tool (evs : list Event) :
  Forall (fun e => tool_event e = true) evs -> llm_calls evs = 0.
Proof.
  unfold llm_calls. induction 1 as [|e evs He _ IH]; [reflexivity|].
  simpl. by destruct e.
Qed.

Lemma last_answer_app acc (a b : list Event) :
  last_answer acc (a ++ b) = last_answer (last_answer acc a) b.
Proof. apply fold_left_app. Qed.

Lemma last_answer_tool acc (evs : list Event) :
  Forall (fun e => tool_event e = true) evs -> last_answer acc evs = acc.
Proof.
  intros H. revert acc. induction H as [|e evs He _ IH]; intros acc; [reflexivity|].
  destruct e; try discriminate; apply IH.
Qed.

Lemma last_answer_called acc (evs : list Event) :
  1 <= llm_calls evs -> last_answer acc evs = last_answer None evs.
Proof.
  revert acc. induction evs as [|e evs IH]; intros acc Hcalls.
  - unfold llm_calls in Hcalls. simpl in Hcalls. lia.
  - destruct (decide (1 <= llm_calls evs)) as [Hmore | Hnone].
    + simpl. rewrite (IH _ Hmore). symmetry. apply (IH _ Hmore).
    + destruct e; unfold llm_calls in *; simpl in *; try lia. reflexivity.
Qed.

Lemma same_setup_trans a b c : same_setup a b -> same_setup b c -> same_setup a c.
Proof. intros (?&?&?&?) (?&?&?&?). repeat split; congruence. Qed.

Lemma executeTool_returns (toolCall : ToolCall) (context : ToolContext) (t : Trace) :
  exists result, (executeTool out toolCall context t).1 = Ok result.
Proof.
  unfold executeTool. destruct (getTool out _); [|by eexists].
  unfold try_catch. destruct (execute _ _ _ _) as [[r|e] t']; by eexists.
Qed.

Lemma executeToolCall_spec (this : Agent) (toolCall : ToolCall) (t : Trace) :
  exists evs,
    (executeToolCall out this toolCall t).2 = t ++ evs /\
    Forall (fun e => tool_event e = true) evs /\
    (forall e, (executeToolCall out this toolCall t).1 = Throw e ->
               availableTools (config (state this)) = None).
Proof.
  unfold executeToolCall.
  destruct (getTool out _).
  2:{ exists []. rewrite app_nil_r. by repeat split. }
  destruct (availableTools _) as [available|].
  2:{ exists []. rewrite app_nil_r. by repeat split. }
  destruct (negb _).
  { exists []. rewrite app_nil_r. by repeat split. }
  destruct (executeTool_emits out tool_event ltac:(done) (createToolContext out this)
              (fun message riskLevel =>
                 confirmAction_emits out tool_event this message riskLevel ltac:(done))
              toolCall t) as (evs & Htrace & Hevs).
  exists evs. repeat split; [done..|].
  intros e He. destruct (executeTool_returns toolCall (createToolContext out this) t) as [r Hr].
  congruence.
Qed.

Lemma displayable_returns (toolCall : ToolCall) (e : string) :
  displayable toolCall = true -> ~ display_throws toolCall e.
Proof.
  unfold displayable, display_throws, printToolResult.
  destruct (printToolCall _ _); [|done].
  destruct (getFriendlyToolName _); [|done].
  intros _ [H | [result H]]; discriminate H.
Qed.

Lemma run_tool_calls_spec (calls : list ToolCall) toolResults (this : Agent) (t : Trace) :
  exists evs this',
    (run_tool_calls out calls toolResults (this, t)).2 = (this', t ++ evs) /\
    Forall (fun e => tool_event e = true) evs /\
    same_setup this this' /\
    (forall e, (run_tool_calls out calls toolResults (this, t)).1 = Throw e ->
               availableTools (config (state this)) = None \/
               exists toolCall, toolCall ∈ calls /\ display_throws toolCall e).
Proof.
  revert toolResults this t.
  induction calls as [|toolCall calls IH]; intros toolResults this t.
  - exists [], this. rewrite app_nil_r. by repeat split.
  - cbn [run_tool_calls]. unfold bind, of_result, update, modify, self, gets, io, zoom.
    cbn [fst snd].
    destruct (printToolCall (tc_name toolCall) (tc_arguments toolCall)) as [[]|e0] eqn:Hcall.
    2:{ exists [], this. rewrite app_nil_r. cbn [fst snd]. repeat split; try done.
        intros e [= <-]. right. exists toolCall. split; [by left | by left]. }
    cbn [fst snd].
    set (this1 := with_state (set_currentToolCall (Some toolCall)) this).
    destruct (executeToolCall_spec this1 toolCall t) as (evs1 & H1 & HP1 & Hthrow1).
    destruct (executeToolCall out this1 toolCall t) as [[r|e] t1]; cbn [fst snd] in *; subst t1.
    + destruct (printToolResult (tc_name toolCall) (success r) (data r) (error r))
        as [[]|e0] eqn:Hresult.
      2:{ exists evs1, this1. cbn [fst snd]. repeat split; try done.
          intros e [= <-]. right. exists toolCall. split; [by left|]. right. by exists r. }
      destruct (IH (toolResults ++ [(tc_name toolCall, r)]) this1 (t ++ evs1))
        as (evs2 & this' & H2 & HP2 & Hsame & Hthrow2).
      exists (evs1 ++ evs2), this'. rewrite app_assoc.
      split; [exact H2|]. split; [by apply Forall_app|].
      split; [exact Hsame|].
      intros e He. destruct (Hthrow2 e He) as [Hnone | (c & Hc & Hd)]; [by left|].
      right. exists c. split; [by right | done].
    + exists evs1, this1. repeat split; try done.
      intros e' He'. left. by apply (Hthrow1 e).
Qed.

Lemma from_client_tool (evs : list Event) :
  Forall (fun e => tool_event e = true) evs -> Forall (from_client out) evs.
Proof. intros H. eapply Forall_impl; [exact H|]. by intros []. Qed.

Lemma last_answer_from_client (evs : list Event) acc answer :
  Forall (from_client out) evs ->
  last_answer acc evs = Some answer ->
  acc = Some answer \/ exists messages t, answer = llm_call out messages t.
Proof.
  intros H. revert acc. induction H as [|e evs He _ IH]; intros acc Hlast.
  - by left.
  - cbn in Hlast. apply IH in Hlast as [Hacc | Hcl]; [|by right].
    destruct e; try by left.
    inversion Hacc; subst. destruct He as [t' ->]. right. by eexists _, _.
Qed.

Lemma run_loop_spec (remaining : nat) (loopCount : Z) (finalResponse : string)
    (this : Agent) (t : Trace) (r : Result (Z * string)) (s' : Agent * Trace) :
  run_loop out remaining loopCount finalResponse (this, t) = (r, s') ->
  exists evs this',
    s' = (this', t ++ evs) /\
    same_setup this this' /\
    llm_calls evs <= remaining /\
    (1 <= remaining -> 1 <= llm_calls evs) /\
    (remaining = 0 -> evs = []) /\
    Forall (from_client out) evs /\
    loop_outcome remaining loopCount finalResponse this evs r.
Proof.
  revert loopCount finalResponse this t r s'.
  induction remaining as [|remaining IH]; intros loopCount finalResponse this t r s' Hrun.
  - cbn in Hrun. inversion Hrun; subst.
    exists [], this. rewrite app_nil_r. cbn. repeat split; try done; try lia. by left.
  - cbn [run_loop] in Hrun. unfold bind at 1 in Hrun. unfold self, gets in Hrun.
    cbn [fst snd] in Hrun.
    unfold bind at 1 in Hrun. unfold io, zoom, llmClient_call in Hrun. cbn [fst snd] in Hrun.
    set (msgs := buildMessagesWithContext this) in *.
    destruct (llm_call out msgs t) as [answer|e] eqn:Hllm.
    2:{ inversion Hrun; subst. exists [EvLlmCall msgs (Throw e)], this. cbn.
        repeat split; try done; try lia; [|by left].
        repeat constructor. by exists t. }
    unfold bind at 1 in Hrun. unfold addMessage at 1, update, modify in Hrun.
    cbn [fst snd] in Hrun.
    set (this1 := with_state _ this) in *.
    set (t1 := t ++ [EvLlmCall msgs (Ok answer)]) in *.
    assert (Hcalls1 : llm_calls [EvLlmCall msgs (Ok answer)] = 1) by reflexivity.
    assert (Hclient1 : Forall (from_client out) [EvLlmCall msgs (Ok answer)]).
    { repeat constructor. by exists t. }
    destruct (resp_tool_calls answer) as [[|call calls]|] eqn:Htc.
    1,3: inversion Hrun; subst; exists [EvLlmCall msgs (Ok answer)], this1; cbn;
         (repeat split; try done; try lia); right; exists answer;
         (repeat split; try done); left; unfold no_tool_calls; by rewrite Htc.
    assert (Hnt : no_tool_calls answer = false) by (unfold no_tool_calls; by rewrite Htc).
    unfold bind at 1 in Hrun.
    destruct (run_tool_calls_spec (call :: calls) [] this1 t1)
      as (evs2 & this2 & H2 & HP2 & Hsame2 & Hthrow2).
    destruct (run_tool_calls out (call :: calls) [] (this1, t1)) as [[results|e] [a2 t2]];
      cbn [fst snd] in *; inversion H2; subst a2 t2; clear H2.
    2:{ inversion Hrun; subst.
        exists (EvLlmCall msgs (Ok answer) :: evs2), this2. unfold t1.
        rewrite <- app_assoc. cbn [app].
        split; [reflexivity|]. split; [exact Hsame2|].
        change (EvLlmCall msgs (Ok answer) :: evs2)
          with ([EvLlmCall msgs (Ok answer)] ++ evs2).
        rewrite llm_calls_app, Hcalls1, (llm_calls_tool _ HP2).
        assert (Hlast : last_llm_answer (EvLlmCall msgs (Ok answer) :: evs2) =
                        Some (Ok answer)).
        { change (EvLlmCall msgs (Ok answer) :: evs2)
            with ([EvLlmCall msgs (Ok answer)] ++ evs2).
          unfold last_llm_answer. rewrite last_answer_app. by apply last_answer_tool. }
        repeat split; try lia; try done.
        { apply Forall_app. split; [done | by apply from_client_tool]. }
        right. destruct (Hthrow2 e eq_refl) as [Hnone | (c & Hc & Hd)]; [by left|].
        right. exists answer, c. rewrite Htc. by repeat split. }
    unfold bind at 1 in Hrun. cbn [fst snd] in Hrun.
    unfold bind at 1 in Hrun. unfold addMessage at 1, update, modify in Hrun.
    cbn [fst snd] in Hrun.
    rewrite andb_false_r in Hrun.
    set (this3 := with_state _ (with_state _ this2)) in *.
    destruct (IH _ _ _ _ _ _ Hrun)
      as (evs3 & this' & -> & Hsame3 & Hle3 & Hge3 & Hnil3 & Hclient3 & Hout3).
    exists ([EvLlmCall msgs (Ok answer)] ++ evs2 ++ evs3), this'.
    split; [unfold t1; by rewrite <- !app_assoc|].
    split.
    { eapply same_setup_trans; [|exact Hsame3].
      eapply same_setup_trans; [|exact Hsame2]. done. }
    assert (Hcnt : llm_calls ([EvLlmCall msgs (Ok answer)] ++ evs2 ++ evs3) =
                   S (llm_calls evs3)).
    { by rewrite !llm_calls_app, Hcalls1, (llm_calls_tool _ HP2). }
    rewrite Hcnt.
    split; [lia|]. split; [lia|]. split; [done|].
    split.
    { apply Forall_app. split; [done|].
      apply Forall_app. split; [by apply from_client_tool | done]. }
    assert (Hlast1 : last_answer None ([EvLlmCall msgs (Ok answer)] ++ evs2) =
                     Some (Ok answer)).
    { rewrite last_answer_app. by apply last_answer_tool. }
    assert (Hcalled : forall x, last_llm_answer evs3 = Some x -> 1 <= llm_calls evs3).
    { intros x Hx. destruct remaining as [|remaining']; [|apply Hge3; lia].
      rewrite Hnil3 in Hx by done. discriminate Hx. }
    destruct r as [[count text]|e]; cbn [loop_outcome] in *; rewrite ?Hcnt.
    + destruct Hout3 as [Hcount Hout3]. split; [lia|].
      right. destruct Hout3 as [[-> ->] | (answer' & Hlast & -> & Hwhy)].
      * exists answer. rewrite Hnil3 by done. rewrite app_nil_r.
        unfold last_llm_answer. rewrite Hlast1.
        repeat split; try done. right. split; [done | cbn; lia].
      * exists answer'. pose proof (Hcalled _ Hlast) as Hc.
        unfold last_llm_answer in *.
        rewrite app_assoc, last_answer_app, (last_answer_called _ _ Hc).
        repeat split; try done.
        destruct Hwhy as [Hwhy | [Hwhy Hcap]]; [by left | right; split; [done | lia]].
    + destruct Hout3 as [Hlast | [Hnone | (answer' & c & Hlast & Hc & Hd)]].
      * left. pose proof (Hcalled _ Hlast) as Hc. unfold last_llm_answer in *.
        by rewrite app_assoc, last_answer_app, (last_answer_called _ _ Hc).
      * right. left. destruct Hsame2 as [Hc2 _]. cbn in Hnone, Hc2. rewrite <- Hc2 in Hnone.
        exact Hnone.
      * right. right. exists answer', c. pose proof (Hcalled _ Hlast) as Hcnt'.
        unfold last_llm_answer in *.
        by rewrite app_assoc, last_answer_app, (last_answer_called _ _ Hcnt').
Qed.

Lemma run_spec (this : Agent) (userMessage : string) (t : Trace)
    (r : Result string) (s' : Agent * Trace) :
  run out userMessage (this, t) = (r, s') ->
  let cap := Z.to_nat (effective_maxLoops this) in
  exists evs this' rl,
    s' = (this', t ++ evs) /\
    same_setup this this' /\
    isRunning (state this') = false /\
    llm_calls evs <= cap /\
    (1 <= cap -> 1 <= llm_calls evs) /\
    Forall (from_client out) evs /\
    loop_outcome cap 0 "" this evs rl /\
    r = match rl with Ok p => Ok p.2 | Throw e => Throw e end.
Proof.
  intros Hrun. cbv zeta.
  unfold run in Hrun.
  unfold bind at 1 in Hrun. unfold update at 1, modify in Hrun. cbn [fst snd] in Hrun.
  unfold bind at 1 in Hrun. unfold addMessage at 1, update, modify in Hrun.
  cbn [fst snd] in Hrun.
  unfold bind at 1 in Hrun. unfold self, gets in Hrun. cbn [fst snd] in Hrun.
  set (this0 := with_state _ (with_state _ this)) in *.
  change (effective_maxLoops this0) with (effective_maxLoops this) in Hrun.
  unfold try_finally, bind, ret in Hrun.
  destruct (run_loop out (Z.to_nat (effective_maxLoops this)) 0 "" (this0, t))
    as [rl s1] eqn:Hloop.
  destruct (run_loop_spec _ _ _ _ _ _ _ Hloop)
    as (evs & this1 & -> & Hsame & Hle & Hge & _ & Hclient & Hout).
  exists evs, (with_state (set_isRunning false) this1), rl.
  destruct rl as [[count text]|e]; cbn [fst snd] in Hrun; inversion Hrun; subst;
    (split; [reflexivity|]); (split; [by destruct Hsame as (?&?&?&?)|]);
    (split; [reflexivity|]); (split; [exact Hle|]); (split; [exact Hge|]);
    (split; [exact Hclient|]); (split; [exact Hout | reflexivity]).
Qed.


(** C10. An agent whose configuration sets [maxLoops] to 0 runs with the
    default cap of [createAppConfig], 8: [run] calls the LLM client at
    least once and at most 8 times, and exactly 8 times when every
    response carries tool calls that can be displayed (the display of a
    tool call that throws ends the run at once). *)
Theorem zero_maxLoops_means_default_cap
    (this : Agent) (userMessage : string) (t : Trace)
    (cwd : string) (opt_autoConfirm opt_debug : option bool)
    (opt_workingDirectory : option string) (loaded : ProjectConfig) :
  maxLoops (config (state this)) = Some 0%Z ->
  appConfig this =
    createAppConfig cwd opt_autoConfirm opt_debug opt_workingDirectory loaded ->
  effective_maxLoops this = 8%Z /\
  exists evs this',
    (run out userMessage (this, t)).2 = (this', t ++ evs) /\
    1 <= llm_calls evs <= 8 /\
    ((forall messages t', exists answer,
        llm_call out messages t' = Ok answer /\ no_tool_calls answer = false /\
        Forall (fun toolCall => displayable toolCall = true)
          (default [] (resp_tool_calls answer))) ->
     availableTools (config (state this)) <> None ->
     llm_calls evs = 8).
Proof.
  intros Hzero Happ.
  assert (Hcap : effective_maxLoops this = 8%Z).
  { unfold effective_maxLoops. by rewrite Hzero, Happ. }
  split; [exact Hcap|].
  destruct (run out userMessage (this, t)) as [r s'] eqn:Hrun.
  destruct (run_spec _ _ _ _ _ Hrun)
    as (evs & this' & rl & -> & _ & _ & Hle & Hge & Hclient & Hout & _).
  rewrite Hcap in *. change (Z.to_nat 8) with 8 in *.
  exists evs, this'. cbn [snd].
  split; [reflexivity|]. split; [split; [apply Hge; lia | lia]|].
  intros Htools Havailable.
  assert (Hanswer : forall a, last_llm_answer evs = Some a ->
                              exists answer,
                                a = Ok answer /\ no_tool_calls answer = false /\
                                Forall (fun toolCall => displayable toolCall = true)
                                  (default [] (resp_tool_calls answer))).
  { intros a Ha. apply (last_answer_from_client _ _ _ Hclient) in Ha
      as [Hnone | (messages & t' & ->)]; [discriminate|].
    destruct (Htools messages t') as (answer & -> & Hnt). by exists answer. }
  destruct rl as [[count text]|e]; cbn [loop_outcome] in Hout.
  - destruct Hout as [_ [[Hz _] | (answer & Hlast & _ & Hwhy)]]; [lia|].
    destruct (Hanswer _ Hlast) as (answer' & Heq & Hnt & _). inversion Heq; subst answer'.
    destruct Hwhy as [Hwhy | [_ Hcalls]]; [congruence | exact Hcalls].
  - destruct Hout as [Hlast | [Hnone | (answer & toolCall & Hlast & Hin & Hthrows)]];
      [|done|].
    + destruct (Hanswer _ Hlast) as (answer' & Heq & _). discriminate Heq.
    + destruct (Hanswer _ Hlast) as (answer' & Heq & _ & Hshown).
      inversion Heq; subst answer'.
      rewrite Forall_forall in Hshown.
      by destruct (displayable_returns toolCall e (Hshown _ Hin)).
Qed.

End AgentLoop.


(** Scenario 3 of the specification: a cap of 1 and a first response with
    a tool call. *)
Example cap_of_one_runs_the_tool_and_stops :
  let o := scripted true [tool_call_response "listing" [list_files_call];
                          tool_call_response "done" []] (exited 0) in
  run o "list files" (capped_agent (Some 1%Z), []) =
    (Ok "listing",
     ({| state := {| id := "a1"; config := config (state (capped_agent (Some 1%Z)));
                     messages := [plain_message Role.user "list files";
                                  plain_message Role.assistant "listing";
                                  {| role := Role.tool;
                                     content := "[list_files]" +:+ lf +:+ "{}";
                                     name := Some "tool_results"; tool_call_id := None;
                                     tool_calls := None |}];
                     isRunning := false; currentToolCall := None |};
         appConfig := example_config true DEFAULT_PROJECT_CONFIG;
         projectContext := None |},
      [EvLlmCall [plain_message Role.user "list files"]
         (Ok (tool_call_response "listing" [list_files_call]));
       EvReadTool "list_files" ∅])).
Proof. by vm_compute. Qed.

(** A cap of 0 in the configuration, and a model that never stops asking
    for tools. *)
Lemma zero_maxLoops_means_default_cap_witness :
  let o := repeating (tool_call_response "again" [list_files_call])
             (scripted true [] (exited 0)) in
  let this := capped_agent (Some 0%Z) in
  llm_calls (run o "go" (this, [])).2.2 = 8 /\
  effective_maxLoops this = 8%Z /\
  exists evs this',
    (run o "go" (this, [])).2 = (this', [] ++ evs) /\
    1 <= llm_calls evs <= 8 /\
    llm_calls evs = 8.
Proof.
  cbv zeta. split; [by vm_compute|].
  destruct (zero_maxLoops_means_default_cap
              (repeating (tool_call_response "again" [list_files_call])
                 (scripted true [] (exited 0)))
              (capped_agent (Some 0%Z)) "go" []
              "/home/u" (Some true) None (Some "/home/u/proj") DEFAULT_PROJECT_CONFIG
              eq_refl eq_refl)
    as (Hcap & evs & this' & Hrun & Hbound & Hfull).
  split; [exact Hcap|]. exists evs, this'.
  split; [exact Hrun|]. split; [exact Hbound|].
  apply Hfull.
  - intros messages t'. eexists. split; [reflexivity|]. split; [reflexivity|].
    constructor; [by vm_compute | constructor].
  - discriminate.
Defined.

(** The display of a tool call can end a run: [printToolResult] throws
    for a tool name that [Object.prototype] has, after the first call of
    the LLM client; [printToolCall] throws for a path that has no string
    form, before the tool runs. *)
Example run_aborts_when_the_display_throws :
  let o (call : ToolCall) :=
    scripted true [tool_call_response "one" [call]; tool_call_response "done" []]
      (exited 0) in
  let named := {| tc_name := "constructor"; tc_arguments := ∅ |} in
  let listed := {| tc_name := "list_files";
                   tc_arguments := {[ "path" := JObj [("toString", JNum 1)] ]} |} in
  let r1 := run (o named) "go" (capped_agent (Some 0%Z), []) in
  let r2 := run (o listed) "go" (capped_agent (Some 0%Z), []) in
  r1.1 = Throw "friendlyName.replace is not a function" /\
  llm_calls r1.2.2 = 1 /\ isRunning (state r1.2.1) = false /\
  r2.1 = Throw "Cannot convert object to primitive value" /\
  length r2.2.2 = 1 /\ isRunning (state r2.2.1) = false.
Proof. by vm_compute. Qed.

(** ** The agent manager (agent/index.ts) *)

Section Manager.

Variable out : Outside.

Lemma on_agent_eq {A} (l : loc) (m : AgentM A) (mgr : AgentManager) (t : Trace)
    (agent agent' : Agent) (r : Result A) (t' : Trace) :
  heap mgr !! l = Some agent ->
  m (agent, t) = (r, (agent', t')) ->
  on_agent l m (mgr, t) = (r, (set_heap (<[l := agent']> (heap mgr)) mgr, t')).
Proof. intros Hl Hm. unfold on_agent. cbn [fst snd]. by rewrite Hl, Hm. Qed.

Lemma sub_agent_of_fresh (type : string) (mgr : AgentManager) (t : Trace) :
  messages (state (sub_agent_of out type mgr t)) = [] /\
  id (state (sub_agent_of out type mgr t)) = random_id out t /\
  config (state (sub_agent_of out type mgr t)) = getAgentConfig type.
Proof.
  unfold sub_agent_of. destruct (mgr_projectContext mgr) as [context|]; [|done].
  by destruct (Js.truthy context).
Qed.

Lemma createSubAgent_eq (type : string) (mgr : AgentManager) (t : Trace) :
  let sub := sub_agent_of out type mgr t in
  let l := fresh (dom (heap mgr)) in
  createSubAgent out type (mgr, t) =
    (Ok l,
     (set_subAgents (<[id (state sub) := l]> (subAgents mgr))
        (set_heap (<[l := sub]> (heap mgr)) mgr),
      t ++ [EvGenerateId (random_id out t)])).
Proof. reflexivity. Qed.

(** C9. An input that [parseAgentCommand] takes as a directive spawns a
    sub-agent: a new object, at a reference [l] that is not the main
    agent, with an empty history.  [handleInput] runs it on the rest of the
    input and returns what that run returns (its final text, or the
    exception it threw); in both cases the sub-agent is no longer in the
    manager afterwards, and the main agent (so its history) is the one it
    was before. *)
Theorem sub_agent_is_isolated_and_discarded
    (mgr : AgentManager) (input : string) (t : Trace)
    (agentCommand : AgentCommand) (main : Agent) :
  parseAgentCommand input = Some agentCommand ->
  heap mgr !! mainAgent mgr = Some main ->
  exists (l : loc) (sub sub' : Agent) (mgr1 mgr' : AgentManager) (t1 t' : Trace)
         (r : Result string),
    createSubAgent out (cmd_type agentCommand) (mgr, t) = (Ok l, (mgr1, t1)) /\
    heap mgr1 !! l = Some sub /\
    messages (state sub) = [] /\
    l <> mainAgent mgr /\
    run out (if Js.truthy (cmd_message agentCommand) then cmd_message agentCommand
             else "请开始工作") (sub, t1) = (r, (sub', t')) /\
    handleInput out input (mgr, t) = (r, (mgr', t')) /\
    subAgents mgr' !! id (state sub) = None /\
    mainAgent mgr' = mainAgent mgr /\
    heap mgr' !! mainAgent mgr' = Some main.
Proof.
  intros Hparse Hmain.
  set (sub := sub_agent_of out (cmd_type agentCommand) mgr t).
  set (l := fresh (dom (heap mgr))).
  set (t1 := t ++ [EvGenerateId (random_id out t)]).
  set (mgr1 := set_subAgents (<[id (state sub) := l]> (subAgents mgr))
                 (set_heap (<[l := sub]> (heap mgr)) mgr)).
  set (message := if Js.truthy (cmd_message agentCommand) then cmd_message agentCommand
                  else "请开始工作").
  destruct (run out message (sub, t1)) as [r [sub' t']] eqn:Hrun.
  assert (Hl : l <> mainAgent mgr).
  { intros Heq. apply (is_fresh (dom (heap mgr))). fold l. rewrite Heq.
    apply elem_of_dom. by eexists. }
  assert (Hsub1 : heap mgr1 !! l = Some sub) by apply lookup_insert_eq.
  destruct (run_spec out _ _ _ _ _ Hrun)
    as (evs & sub'' & rl & Hs' & Hsame & _).
  inversion Hs'; subst sub'' t'. clear Hs'.
  destruct Hsame as (_ & _ & _ & Hid).
  set (mgr2 := set_heap (<[l := sub']> (heap mgr1)) mgr1).
  set (mgr3 := set_heap (<[l := sub']> (heap mgr2)) mgr2).
  set (mgr' := set_subAgents (delete (id (state sub')) (subAgents mgr3)) mgr3).
  exists l, sub, sub', mgr1, mgr', t1, (t1 ++ evs), r.
  split; [apply createSubAgent_eq|].
  split; [exact Hsub1|].
  split; [apply sub_agent_of_fresh|].
  split; [exact Hl|].
  split; [exact Hrun|].
  assert (Hhandle : handleInput out input (mgr, t) = (r, (mgr', t1 ++ evs))).
  { unfold handleInput. rewrite Hparse. unfold bind at 1.
    rewrite createSubAgent_eq. fold sub l t1 mgr1 message.
    unfold try_finally.
    rewrite (on_agent_eq l _ mgr1 t1 sub sub' r (t1 ++ evs) Hsub1 Hrun).
    fold mgr2. unfold bind at 1. unfold getId.
    rewrite (on_agent_eq l _ mgr2 (t1 ++ evs) sub' sub' (Ok (id (state sub'))) (t1 ++ evs));
      [|apply lookup_insert_eq|reflexivity].
    fold mgr3. reflexivity. }
  split; [exact Hhandle|].
  assert (Hheap : heap mgr' !! mainAgent mgr = Some main).
  { cbn. rewrite !lookup_insert_ne by done. exact Hmain. }
  split; [cbn; rewrite Hid; apply lookup_delete_eq|].
  split; [reflexivity | exact Hheap].
Qed.

End Manager.

(** Scenario 5 of the specification. *)
Lemma sub_agent_is_isolated_and_discarded_witness :
  let o := scripted true [tool_call_response "" [list_files_call];
                          tool_call_response "tests written" []] (exited 0) in
  let input := "@test write a unit test for util" in
  (handleInput o input (example_manager, [])).1 = Ok "tests written" /\
  subAgents (handleInput o input (example_manager, [])).2.1 = ∅ /\
  exists (l : loc) (sub sub' : Agent) (mgr1 mgr' : AgentManager) (t1 t' : Trace)
         (r : Result string),
    createSubAgent o "test" (example_manager, []) = (Ok l, (mgr1, t1)) /\
    heap mgr1 !! l = Some sub /\
    messages (state sub) = [] /\
    l <> mainAgent example_manager /\
    run o "write a unit test for util" (sub, t1) = (r, (sub', t')) /\
    handleInput o input (example_manager, []) = (r, (mgr', t')) /\
    subAgents mgr' !! id (state sub) = None /\
    mainAgent mgr' = mainAgent example_manager /\
    heap mgr' !! mainAgent mgr' = Some example_main.
Proof.
  cbv zeta. split; [by vm_compute|]. split; [by vm_compute|].
  exact (sub_agent_is_isolated_and_discarded
           (scripted true [tool_call_response "" [list_files_call];
                           tool_call_response "tests written" []] (exited 0))
           example_manager "@test write a unit test for util" []
           {| cmd_type := "test"; cmd_message := "write a unit test for util" |}
           example_main eq_refl eq_refl).
Defined.

(** The LLM client fails during the run of the sub-agent: the exception
    reaches the caller, and the sub-agent is gone all the same. *)
Example sub_agent_removed_on_error :
  let o := scripted true [] (exited 0) in
  (handleInput o "@review src/agent" (example_manager, [])).1 = Throw "fetch failed" /\
  subAgents (handleInput o "@review src/agent" (example_manager, [])).2.1 = ∅ /\
  heap (handleInput o "@review src/agent" (example_manager, [])).2.1 !! 1%positive =
    Some example_main.
Proof. by vm_compute. Qed.

(** The groups [match_agent_command] computes are there exactly when the
    pattern matches. *)
Example match_agent_command_agrees_with_pattern :
  forallb
    (fun input =>
       Bool.eqb (Regex.matches agent_command_pattern input)
         (bool_decide (is_Some (match_agent_command input))))
    [ "@test write a unit test for util"; "@test"; "@"; "@ test"; "test"; "x@test";
      "@test" +:+ lf +:+ "run"; "@test run" +:+ lf +:+ "all"; "@test  " +:+ lf +:+ " ";
      "@te-st x"; "@Review_2 the parser"; "@constructor";
      "@test" +:+ Js.of_bytes [194; 160] +:+ "x";
      "@test a" +:+ Js.of_bytes [226; 128; 168] +:+ "b";
      "@test a" +:+ Js.of_bytes [226; 128; 148] +:+ "b";
      "@test " +:+ Js.of_bytes [13] ] = true.
Proof. by vm_compute. Qed.

(** A token that is no preset falls through to the main agent. *)
Example unknown_directive_goes_to_main_agent :
  parseAgentCommand "@deploy now" = None /\
  parseAgentCommand "@test write a unit test for util" =
    Some {| cmd_type := "test"; cmd_message := "write a unit test for util" |}.
Proof. by vm_compute. Qed.

(** ** The white list of commands (config.ts) *)

Section CommandWhiteList.

Lemma array_includes_elem (l : list string) (x : string) :
  Js.array_includes l x = true <-> x ∈ l.
Proof.
  unfold Js.array_includes. rewrite existsb_exists. split.
  - intros (y & Hin & Heq). apply String.eqb_eq in Heq. subst y. by apply list_elem_of_In.
  - intros Hin. exists x. split; [by apply list_elem_of_In | apply String.eqb_refl].
Qed.

Lemma startsWith_iff (s p : string) :
  Js.startsWith s p = true <-> exists r, s = p +:+ r.
Proof.
  revert s. induction p as [|a p IH]; intros s; simpl.
  - split; [intros _; by exists s | done].
  - destruct s as [|b s].
    + split; [done | intros [r Hr]; discriminate Hr].
    + destruct (Ascii.eqb a b) eqn:E.
      * apply Ascii.eqb_eq in E as ->. rewrite IH. split; intros [r Hr]; exists r.
        -- by rewrite Hr.
        -- by inversion Hr.
      * split; [done|]. intros [r Hr]. inversion Hr; subst.
        by rewrite Ascii.eqb_refl in E.
Qed.

Lemma endsWithChar_iff (s : string) (c : ascii) :
  Js.endsWithChar s c = true <-> exists p, s = p +:+ String c "".
Proof.
  induction s as [|a s IH].
  - split; [done | intros [[|? ?] H]; discriminate H].
  - destruct s as [|b s].
    + simpl. split.
      * intros H. apply Ascii.eqb_eq in H as ->. by exists "".
      * intros [[|x p] H]; simpl in H.
        -- inversion H. apply Ascii.eqb_refl.
        -- inversion H. destruct p; discriminate.
    + change (Js.endsWithChar (String a (String b s)) c)
        with (Js.endsWithChar (String b s) c).
      rewrite IH. split.
      * intros [p Hp]. exists (String a p). simpl. by rewrite Hp.
      * intros [[|x p] H]; simpl in H; [discriminate H|].
        inversion H. by exists p.
Qed.

Lemma slice_init_app (p : string) (c : ascii) : Js.slice_init (p +:+ String c "") = p.
Proof.
  induction p as [|a p IH]; [reflexivity|].
  change (Js.slice_init (String a (p +:+ String c "")) = String a p).
  destruct (p +:+ String c "") as [|b s] eqn:E.
  - destruct p; discriminate.
  - change (String a (Js.slice_init (String b s)) = String a p). by rewrite IH.
Qed.

(** [isCommandAllowed]: a command is on the white list when the list
    holds the command itself, or an entry that ends with a star whose
    text before the star the command starts with.  Nothing else is
    allowed; a configuration without a list allows no command. *)
Theorem isCommandAllowed_iff (command : string) (config : AppConfig) :
  isCommandAllowed command config = true <->
  exists allowed,
    allowed ∈ default [] (allow_commands (project config)) /\
    (allowed = command \/
     exists prefix rest, allowed = prefix +:+ "*" /\ command = prefix +:+ rest).
Proof.
  unfold isCommandAllowed. set (l := default [] _).
  destruct (Js.array_includes l command) eqn:Hinc.
  - split; [intros _ | done]. apply array_includes_elem in Hinc.
    exists command. split; [done | by left].
  - rewrite existsb_exists. split.
    + intros (allowed & Hin & H). apply andb_true_iff in H as [He Hs].
      apply endsWithChar_iff in He as [prefix ->]. rewrite slice_init_app in Hs.
      apply startsWith_iff in Hs as [rest ->].
      exists (prefix +:+ "*"). split; [by apply list_elem_of_In|].
      right. by exists prefix, rest.
    + intros (allowed & Hin & [-> | (prefix & rest & -> & ->)]).
      * apply array_includes_elem in Hin. congruence.
      * exists (prefix +:+ "*"). split; [by apply list_elem_of_In|].
        apply andb_true_iff. split.
        -- apply endsWithChar_iff. by exists prefix.
        -- change (prefix +:+ "*") with (prefix +:+ String (Js.byte_of 42) "").
           rewrite slice_init_app. apply startsWith_app.
Qed.

End CommandWhiteList.

(** ** The command line (config.ts, main.ts) *)

Section CommandLine.

Import Path.







Lemma arg_is_elem (arg a b : string) : arg_is arg a b = true -> arg = a \/ arg = b.
Proof.
  unfold arg_is. intros H. apply orb_true_iff in H as [H | H];
    apply String.eqb_eq in H; auto.
Qed.

Ltac parseArgs_step Hrun :=
  match type of Hrun with
  | context [if arg_is ?arg ?a ?b then _ else _] =>
      let E := fresh "E" in destruct (arg_is arg a b) eqn:E
  | context [match ?rest with [] => _ | _ :: _ => _ end] =>
      destruct rest as [|? ?]
  end.




Lemma parseArgs_loop_flags (cwd : string) (n : nat) :
  forall (args : list string) (o r : Cli.Options),
    length args <= n ->
    parseArgs_loop cwd args o = Ok r ->
    (Cli.autoConfirm r = true ->
     Cli.autoConfirm o = true \/ "-y" ∈ args \/ "--yes" ∈ args) /\
    (Cli.debug r = true -> Cli.debug o = true \/ "-d" ∈ args \/ "--debug" ∈ args).
Proof.
  induction n as [|n IH]; intros args o r Hlen Hrun.
  - destruct args; [|simpl in Hlen; lia]. inversion Hrun. auto.
  - destruct args as [|arg rest]; [inversion Hrun; auto|].
    simpl in Hlen. cbn [parseArgs_loop] in Hrun. cbv zeta in Hrun.
    repeat parseArgs_step Hrun;
      try (inversion Hrun; subst; cbn; by auto);
      try discriminate Hrun;
      (apply IH in Hrun as [Hy Hd]; [|simpl in *; lia]);
      cbn [Cli.autoConfirm Cli.debug] in Hy, Hd;
      repeat match goal with
             | H : arg_is _ _ _ = true |- _ => apply arg_is_elem in H as [-> | ->]
             end;
      (split; intros H; [apply Hy in H | apply Hd in H]);
      rewrite ?elem_of_cons; intuition auto.
Qed.

Lemma parseArgs_loop_plain (cwd : string) (args : list string) (o : Cli.Options) :
  Forall (fun arg => takes_value arg = false) args ->
  exists r,
    parseArgs_loop cwd args o = Ok r /\
    Cli.autoConfirm r =
      Cli.autoConfirm o || existsb (fun arg => arg_is arg "-y" "--yes") args.
Proof.
  intros Hall. revert o. induction Hall as [|arg rest Harg _ IH]; intros o.
  - exists o. by rewrite orb_false_r.
  - unfold takes_value in Harg.
    apply orb_false_iff in Harg as [Harg HC]. apply orb_false_iff in Harg as [Hp Hm].
    cbn [parseArgs_loop existsb]. cbv zeta. rewrite Hp, Hm, HC.
    destruct (arg_is arg "-y" "--yes").
    + destruct (IH {| Cli.autoConfirm := true; Cli.debug := Cli.debug o;
                      Cli.provider := Cli.provider o; Cli.model := Cli.model o;
                      Cli.workingDirectory := Cli.workingDirectory o |}) as (r & Hr & Ha).
      exists r. split; [exact Hr|]. rewrite Ha. cbn. by rewrite orb_true_r.
    + destruct (arg_is arg "-d" "--debug"); [|apply IH].
      destruct (IH {| Cli.autoConfirm := Cli.autoConfirm o; Cli.debug := true;
                      Cli.provider := Cli.provider o; Cli.model := Cli.model o;
                      Cli.workingDirectory := Cli.workingDirectory o |}) as (r & Hr & Ha).
      exists r. split; [exact Hr | exact Ha].
Qed.

(** The auto-confirm mode of the configuration [start] builds is on only
    when the command line holds [-y] or [--yes]; a command line without
    options that take a value turns it on exactly then. *)
Theorem autoConfirm_needs_the_flag
    (loadProjectConfig : string -> ProjectConfig) (cwd : string) (argv : list string) :
  (forall config,
     start_config loadProjectConfig cwd argv = Ok config ->
     autoConfirm config = true -> "-y" ∈ argv \/ "--yes" ∈ argv) /\
  (Forall (fun arg => takes_value arg = false) argv ->
   exists config,
     start_config loadProjectConfig cwd argv = Ok config /\
     (autoConfirm config = true <-> "-y" ∈ argv \/ "--yes" ∈ argv)).
Proof.
  split.
  - intros config Hstart Hauto. unfold start_config in Hstart.
    destruct (parseArgs cwd argv) as [args|e] eqn:Hparse; [|discriminate].
    inversion Hstart; subst config. cbn in Hauto.
    apply (parseArgs_loop_flags cwd (length argv)) in Hparse as [Hy _]; [|done].
    destruct (Hy Hauto) as [H | H]; [discriminate H | exact H].
  - intros Hplain. unfold start_config, parseArgs.
    destruct (parseArgs_loop_plain cwd argv
                {| Cli.autoConfirm := false; Cli.debug := false; Cli.provider := None;
                   Cli.model := None; Cli.workingDirectory := cwd |} Hplain)
      as (r & -> & Hauto).
    eexists. split; [reflexivity|]. cbn. rewrite Hauto. cbn.
    rewrite existsb_exists. split.
    + intros (arg & Hin & Harg). apply list_elem_of_In in Hin.
      by apply arg_is_elem in Harg as [<- | <-]; [left | right].
    + intros [Hin | Hin]; eexists; (split; [apply list_elem_of_In; exact Hin | reflexivity]).
Qed.

(** A command line with the flag after a [-C] option, and one without
    options that take a value. *)
Lemma autoConfirm_needs_the_flag_witness :
  let load := fun _ : string => DEFAULT_PROJECT_CONFIG in
  ("-y" ∈ ["-C"; "proj"; "-y"] \/ "--yes" ∈ ["-C"; "proj"; "-y"]) /\
  exists config,
    start_config load "/home/u" ["--debug"; "--yes"] = Ok config /\
    (autoConfirm config = true <->
     "-y" ∈ ["--debug"; "--yes"] \/ "--yes" ∈ ["--debug"; "--yes"]).
Proof.
  cbv zeta. split.
  - exact (proj1 (autoConfirm_needs_the_flag (fun _ => DEFAULT_PROJECT_CONFIG) "/home/u"
                    ["-C"; "proj"; "-y"])
             (createAppConfig "/home/u" (Some true) (Some false) (Some "/home/u/proj")
                DEFAULT_PROJECT_CONFIG)
             eq_refl eq_refl).
  - apply (proj2 (autoConfirm_needs_the_flag (fun _ => DEFAULT_PROJECT_CONFIG) "/home/u"
                    ["--debug"; "--yes"])).
    repeat constructor.
Defined.

End CommandLine.

(** ** When run_command asks, and what it reports (run_command.ts) *)

Section CommandGate.

Variable out : Outside.

Lemma nonblank_truthy (command : string) : Js.trim command <> "" -> Js.truthy command = true.
Proof. intros Htrim. destruct command; [|reflexivity]. exfalso. by apply Htrim. Qed.

(** Past the validation of its arguments, run_command is the prompt, if
    one is needed, followed by the subprocess. *)
Lemma run_command_valid (args : Args) (context : ToolContext) (command : string) (t : Trace) :
  prop args "command" = JStr command ->
  Js.trim command <> "" ->
  let run : IO ToolResult := fun t1 =>
    match executeCommand out command (ctx_workingDirectory context)
            (run_command_timeout args) t1 with
    | (Ok result, t2) => (Ok (succeeded (RunCommandResult_data result)), t2)
    | (Throw e, t2) => (Ok (failed ("命令执行失败: " +:+ e)), t2)
    end in
  run_command_execute out args context t =
    if run_command_needConfirm command context then
      match confirmAction context
              (run_command_prompt (isDangerousCommand command) command)
              (if isDangerousCommand command then "high" else "medium") t with
      | (Ok true, t1) => run t1
      | (Ok false, t1) => (Ok (failed "用户取消命令执行"), t1)
      | (Throw e, t1) => (Ok (failed ("命令执行失败: " +:+ e)), t1)
      end
    else run t.
Proof.
  intros Hcmd Htrim. cbv zeta.
  unfold run_command_execute, try_catch. rewrite Hcmd.
  cbn [js_truthy]. rewrite (nonblank_truthy _ Htrim). cbn [negb].
  apply String.eqb_neq in Htrim. rewrite Htrim.
  destruct (run_command_needConfirm command context).
  - unfold bind at 1.
    destruct (confirmAction context _ _ t) as [[[|]|e] t1]; cbn [negb]; [|done..].
    unfold bind, ret. by destruct (executeCommand out command _ _ t1) as [[r|e] t2].
  - unfold bind, ret. by destruct (executeCommand out command _ _ t) as [[r|e] t2].
Qed.

(** A command that matches no dangerous pattern runs without a prompt
    when it is on the white list, and when auto-confirm is on: the
    confirmation callback of the context is not consulted, so the only
    interactions are those of the subprocess. *)
Theorem run_command_unprompted
    (args : Args) (context : ToolContext) (command : string) (t : Trace) :
  prop args "command" = JStr command ->
  Js.trim command <> "" ->
  isDangerousCommand command = false ->
  isCommandAllowed command (ctx_config context) = true \/ ctx_autoConfirm context = true ->
  run_command_execute out args context t =
    match executeCommand out command (ctx_workingDirectory context)
            (run_command_timeout args) t with
    | (Ok result, t2) => (Ok (succeeded (RunCommandResult_data result)), t2)
    | (Throw e, t2) => (Ok (failed ("命令执行失败: " +:+ e)), t2)
    end /\
  exists kills,
    (run_command_execute out args context t).2 =
      t ++ EvSpawn command (ctx_workingDirectory context) (run_command_timeout args) :: kills /\
    Forall (fun e => e = EvKill "SIGKILL") kills.
Proof.
  intros Hcmd Htrim Hsafe Hwhy.
  assert (Hneed : run_command_needConfirm command context = false).
  { unfold run_command_needConfirm. rewrite Hsafe.
    destruct Hwhy as [-> | ->]; [reflexivity|].
    by destruct (isCommandAllowed command (ctx_config context)). }
  rewrite (run_command_valid args context command t Hcmd Htrim). cbv zeta. rewrite Hneed.
  split; [reflexivity|].
  destruct (executeCommand_trace out command (ctx_workingDirectory context)
              (run_command_timeout args) t) as (kills & Htrace & Hkills).
  exists kills. split; [|exact Hkills].
  by destruct (executeCommand out command _ _ t) as [[r|e] t2].
Qed.

(** run_command asks exactly when the command is dangerous, or when
    auto-confirm is off and the command is not on the white list; when the
    answer to the prompt is no, the result is a failure and no subprocess
    is started. *)
Theorem run_command_declined
    (args : Args) (context : ToolContext) (command : string) (t t1 : Trace) :
  run_command_needConfirm command context =
    isDangerousCommand command ||
    negb (ctx_autoConfirm context) && negb (isCommandAllowed command (ctx_config context)) /\
  (prop args "command" = JStr command ->
   Js.trim command <> "" ->
   run_command_needConfirm command context = true ->
   confirmAction context (run_command_prompt (isDangerousCommand command) command)
     (if isDangerousCommand command then "high" else "medium") t = (Ok false, t1) ->
   run_command_execute out args context t = (Ok (failed "用户取消命令执行"), t1)).
Proof.
  split.
  - unfold run_command_needConfirm.
    by destruct (isDangerousCommand command), (ctx_autoConfirm context),
         (isCommandAllowed command (ctx_config context)).
  - intros Hcmd Htrim Hneed Hno.
    rewrite (run_command_valid args context command t Hcmd Htrim). cbv zeta.
    by rewrite Hneed, Hno.
Qed.

Lemma on_events_no_timer (es : list ProcEvent) (st : ProcState) :
  timer_fires es = false ->
  (on_events st es).2 = [] /\ st_killed (on_events st es).1 = st_killed st.
Proof.
  revert st. induction es as [|e es IH]; intros st Hquiet; [done|].
  simpl in Hquiet. apply orb_false_iff in Hquiet as [He Hquiet].
  simpl.
  assert ((on_event st e).2 = [] /\ st_killed (on_event st e).1 = st_killed st) as [H2 H3].
  { by destruct e. }
  destruct (IH (on_event st e).1 Hquiet) as [-> ->]. by rewrite H2, H3.
Qed.

(** When the subprocess closes before its timer fires, run_command
    returns a successful result with everything written to the standard
    output and to the standard error and with the exit code, 0 when the
    process closed without one: an exit code that is not 0 is no failure
    of the tool.  When the subprocess could not be started, the result is
    a failure with the message of the error.  Nothing is killed. *)
Theorem run_command_reports_exit_code
    (args : Args) (context : ToolContext) (command : string) (t t1 : Trace) :
  prop args "command" = JStr command ->
  Js.trim command <> "" ->
  (if run_command_needConfirm command context then
     confirmAction context
       (run_command_prompt (isDangerousCommand command) command)
       (if isDangerousCommand command then "high" else "medium") t = (Ok true, t1)
   else t1 = t) ->
  let timeout := run_command_timeout args in
  let started := t1 ++ [EvSpawn command (ctx_workingDirectory context) timeout] in
  let proc := spawn out command (ctx_workingDirectory context) timeout started in
  timer_fires (proc_events proc) = false ->
  run_command_execute out args context t =
    (match proc_end proc with
     | OnClose c =>
         Ok {| success := true;
               data := Some (JObj [("stdout", JStr (stdout_of (proc_events proc)));
                                   ("stderr", JStr (stderr_of (proc_events proc)));
                                   ("code", JNum (default 0%Z c))]);
               error := None |}
     | OnError err => Ok (failed ("命令执行失败: " +:+ err))
     end, started).
Proof.
  intros Hcmd Htrim Hgate timeout started proc Hquiet.
  assert (Hexec :
    executeCommand out command (ctx_workingDirectory context) timeout t1 =
      (match proc_end proc with
       | OnClose c =>
           Ok {| stdout := stdout_of (proc_events proc);
                 stderr := stderr_of (proc_events proc);
                 code := default 0%Z c |}
       | OnError err => Throw err
       end, started)).
  { unfold executeCommand. fold started. fold proc.
    set (st0 := {| st_stdout := ""; st_stderr := ""; st_killed := false; st_timer := true |}).
    destruct (on_events_no_timer (proc_events proc) st0 Hquiet) as [Hk Hkilled].
    destruct (on_events_collect (proc_events proc) st0) as [Hout Herr].
    rewrite Hk, app_nil_r. destruct (proc_end proc) as [c|err]; cbn [on_end]; [|done].
    by rewrite Hkilled, Hout, Herr. }
  rewrite (run_command_valid args context command t Hcmd Htrim). cbv zeta. fold timeout.
  destruct (run_command_needConfirm command context).
  - rewrite Hgate, Hexec. by destruct (proc_end proc).
  - subst t1. rewrite Hexec. by destruct (proc_end proc).
Qed.

End CommandGate.

(** A white-listed command, without auto-confirm and with a user who
    would refuse. *)
Lemma run_command_unprompted_witness :
  let policy := {| allow_commands := Some ["npm *"]; allow_write_paths := None;
                   deny_paths := None |} in
  let o := scripted false [] (exited 0) in
  let context := createToolContext o (example_agent false policy "main") in
  run_command_execute o (command_args "npm test") context [] =
    (Ok (succeeded (JObj [("stdout", JStr ""); ("stderr", JStr ""); ("code", JNum 0)])),
     [EvSpawn "npm test" "/home/u/proj" (JNum 30000)]).
Proof.
  cbv zeta.
  exact (proj1 (run_command_unprompted (scripted false [] (exited 0))
                  (command_args "npm test")
                  (createToolContext (scripted false [] (exited 0))
                     (example_agent false
                        {| allow_commands := Some ["npm *"]; allow_write_paths := None;
                           deny_paths := None |} "main"))
                  "npm test" [] eq_refl ltac:(vm_compute; discriminate) eq_refl
                  (or_introl eq_refl))).
Defined.

(** A command that is not on the white list, without auto-confirm. *)
Lemma run_command_declined_witness :
  let o := scripted false [] (exited 0) in
  let context := createToolContext o (example_agent false DEFAULT_PROJECT_CONFIG "main") in
  run_command_execute o (command_args "make") context [] =
    (Ok (failed "用户取消命令执行"), [EvConfirm "执行命令: make" false]).
Proof.
  cbv zeta.
  exact (proj2 (run_command_declined (scripted false [] (exited 0))
                  (command_args "make")
                  (createToolContext (scripted false [] (exited 0))
                     (example_agent false DEFAULT_PROJECT_CONFIG "main"))
                  "make" [] [EvConfirm "执行命令: make" false])
           eq_refl ltac:(vm_compute; discriminate) eq_refl eq_refl).
Defined.

(** A build that fails with exit code 2. *)
Lemma run_command_reports_exit_code_witness :
  let proc := {| proc_events := [OnStdout "cc main.c"; OnStderr "error: x"];
                 proc_end := OnClose (Some 2%Z) |} in
  let o := scripted true [] proc in
  let context := createToolContext o (example_agent true DEFAULT_PROJECT_CONFIG "main") in
  run_command_execute o (command_args "make") context [] =
    (Ok {| success := true;
           data := Some (JObj [("stdout", JStr "cc main.c"); ("stderr", JStr "error: x");
                               ("code", JNum 2)]);
           error := None |},
     [EvSpawn "make" "/home/u/proj" (JNum 30000)]).
Proof.
  cbv zeta.
  exact (run_command_reports_exit_code
           (scripted true []
              {| proc_events := [OnStdout "cc main.c"; OnStderr "error: x"];
                 proc_end := OnClose (Some 2%Z) |})
           (command_args "make")
           (createToolContext
              (scripted true []
                 {| proc_events := [OnStdout "cc main.c"; OnStderr "error: x"];
                    proc_end := OnClose (Some 2%Z) |})
              (example_agent true DEFAULT_PROJECT_CONFIG "main"))
           "make" [] [] eq_refl ltac:(vm_compute; discriminate) eq_refl eq_refl).
Defined.

(** ** What a successful file operation has done (delete_file.ts,
    write_file.ts, append_file.ts) *)

Section FileTools.

Variable out : Outside.

(** A successful delete_file has resolved the path of the request to one
    that the write policy allows and that is no prefix of the working
    directory, has found it, has asked the user about it as a high-risk
    action and got a yes, and has then made one deletion, of that path:
    [rmSync] for a directory with [recursive], [rmdirSync] for a directory
    without, [unlinkSync] for anything else. *)
Theorem delete_file_success_shape
    (args : Args) (this : Agent) (t t' : Trace) (result : ToolResult) :
  delete_file_execute out args (createToolContext out this) t = (Ok result, t') ->
  success result = true ->
  exists (filePath : string) (isDir : bool),
    let fullPath :=
      Path.resolve (process_cwd out) [workingDirectory (appConfig this); filePath] in
    let recursive := js_truthy (prop args "recursive") in
    let action :=
      if isDir then (if recursive then "递归删除目录" else "删除空目录") else "删除文件" in
    prop args "path" = JStr filePath /\
    isPathAllowedForWrite fullPath (appConfig this) = true /\
    Js.startsWith (workingDirectory (appConfig this)) fullPath = false /\
    t' = t ++ [EvExists fullPath true; EvStat fullPath;
               EvConfirm ("⚠️  " +:+ action +:+ ": " +:+ filePath) true;
               EvFs (if isDir then if recursive then rmSync else rmdirSync
                     else unlinkSync) fullPath] /\
    result = succeeded success_data.
Proof.
  intros Hrun Hok. unfold delete_file_execute, try_catch in Hrun.
  destruct (negb (js_truthy (prop args "path"))).
  { inversion Hrun; subst. discriminate Hok. }
  destruct (prop args "path") as [| | | |filePath| |];
    try (inversion Hrun; subst; discriminate Hok).
  exists filePath.
  cbn [ctx_workingDirectory ctx_config createToolContext] in Hrun.
  destruct (isPathAllowedForWrite _ _) eqn:Hallowed; cbn [negb] in Hrun.
  2:{ inversion Hrun; subst. discriminate Hok. }
  destruct (Js.startsWith _ _) eqn:Hprefix.
  { inversion Hrun; subst. discriminate Hok. }
  unfold bind at 1 in Hrun. unfold fs_existsSync at 1, ask in Hrun.
  destruct (existsSync out _ t) eqn:Hfound; cbn [negb] in Hrun.
  2:{ inversion Hrun; subst. discriminate Hok. }
  unfold bind at 1 in Hrun. unfold fs_isDirectory at 1 in Hrun.
  destruct (statSync_isDirectory out _ _) as [isDir|e].
  2:{ inversion Hrun; subst. discriminate Hok. }
  unfold bind at 1 in Hrun. rewrite confirmAction_high in Hrun.
  destruct (ui_confirm out _ _) eqn:Hanswer; cbn [negb] in Hrun.
  2:{ inversion Hrun; subst. discriminate Hok. }
  exists isDir. cbv zeta.
  split; [reflexivity|]. split; [exact Hallowed|]. split; [exact Hprefix|].
  unfold bind, ret, fs in Hrun.
  destruct isDir; [destruct (js_truthy (prop args "recursive"))|];
    destruct (fs_op out _ _ _); inversion Hrun; subst; try discriminate Hok;
    rewrite <- !app_assoc; by split.
Qed.

Lemma store_file_success_shape
    (op : FsOp) (no_content denied present absent catch : string)
    (args : Args) (this : Agent) (t t' : Trace) (result : ToolResult) :
  store_file_execute out op no_content denied present absent catch args
    (createToolContext out this) t = (Ok result, t') ->
  success result = true ->
  file_stored out op present absent args this t t' result.
Proof.
  unfold file_stored.
  intros Hrun Hok. unfold store_file_execute, try_catch in Hrun.
  destruct (negb (js_truthy (prop args "path"))).
  { inversion Hrun; subst. discriminate Hok. }
  assert (Hstore : forall t1 r t2,
    (found <- fs_existsSync out
                (Path.dirname (Path.resolve (process_cwd out)
                                 [workingDirectory (appConfig this);
                                  match prop args "path" with JStr p => p | _ => "" end])) ;;
     (if negb found
      then fs out mkdirSync
             (Path.dirname (Path.resolve (process_cwd out)
                              [workingDirectory (appConfig this);
                               match prop args "path" with JStr p => p | _ => "" end]))
      else ret tt) ;;;
     fs out op (Path.resolve (process_cwd out)
                  [workingDirectory (appConfig this);
                   match prop args "path" with JStr p => p | _ => "" end]) ;;;
     ret (succeeded success_data)) t1 = (r, t2) ->
    match r with
    | Ok res =>
        exists dirExists,
          t2 = t1 ++ EvExists
                 (Path.dirname (Path.resolve (process_cwd out)
                                  [workingDirectory (appConfig this);
                                   match prop args "path" with JStr p => p | _ => "" end]))
                 dirExists ::
               (if dirExists then []
                else [EvFs mkdirSync
                        (Path.dirname (Path.resolve (process_cwd out)
                                         [workingDirectory (appConfig this);
                                          match prop args "path" with
                                          | JStr p => p | _ => "" end]))]) ++
               [EvFs op (Path.resolve (process_cwd out)
                           [workingDirectory (appConfig this);
                            match prop args "path" with JStr p => p | _ => "" end])] /\
          res = succeeded success_data
    | Throw _ => True
    end).
  { intros t1 r t2 H. unfold bind, fs_existsSync, ask, fs, ret in H.
    destruct (existsSync out _ t1); cbn [negb] in H.
    - destruct (fs_op out op _ _); inversion H; subst; [|done].
      exists true. split; [|done]. by rewrite <- app_assoc.
    - destruct (fs_op out mkdirSync _ _); [|by inversion H].
      destruct (fs_op out op _ _); inversion H; subst; [|done].
      exists false. split; [|done]. by rewrite <- !app_assoc. }
  destruct (prop args "path") as [| | | |filePath| |] eqn:Hpath;
    try (destruct (prop args "content");
         inversion Hrun; subst; discriminate Hok).
  cbn [ctx_workingDirectory ctx_config ctx_autoConfirm createToolContext] in Hrun.
  destruct (prop args "content") eqn:Hcontent;
    try (inversion Hrun; subst; discriminate Hok);
    (destruct (isPathAllowedForWrite _ _) eqn:Hallowed; cbn [negb] in Hrun;
     [|inversion Hrun; subst; discriminate Hok]);
    exists filePath.
  all: destruct (autoConfirm (appConfig this)) eqn:Hauto; cbn [negb] in Hrun.
  all: try (destruct (bind _ _ t) as [r t2] eqn:Hs; apply Hstore in Hs;
            destruct r as [res|e]; [|inversion Hrun; subst; discriminate Hok];
            inversion Hrun; subst; destruct Hs as (dirExists & -> & ->);
            exists [], dirExists; cbv zeta; by repeat split).
  all: unfold bind at 1 in Hrun; unfold fs_existsSync at 1, ask in Hrun;
    unfold bind at 1 in Hrun; rewrite (confirmAction_manual out this _ _ _ Hauto) in Hrun;
    destruct (ui_confirm out _ _) eqn:Hanswer; cbn [negb] in Hrun;
    [|inversion Hrun; subst; discriminate Hok];
    destruct (bind _ _ _) as [r t2] eqn:Hs; apply Hstore in Hs;
    destruct r as [res|e]; [|inversion Hrun; subst; discriminate Hok];
    inversion Hrun; subst; destruct Hs as (dirExists & -> & ->);
    eexists _, dirExists; cbv zeta;
    (split; [reflexivity|]); (split; [exact Hallowed|]);
    (split; [eexists; reflexivity|]); split; [|reflexivity];
    rewrite <- !app_assoc; reflexivity.
Qed.

(** A successful write_file or append_file has resolved the path of the
    request to one that the write policy allows; without auto-confirm it
    has looked whether the file exists and has got a yes from the user to
    the prompt that says so, with auto-confirm it has asked nothing; it has
    then made sure the directory of the file exists, creating it when it
    did not, and has written to the file, once. *)
Theorem write_and_append_success_shape
    (args : Args) (this : Agent) (t t' : Trace) (result : ToolResult) :
  success result = true ->
  (write_file_execute out args (createToolContext out this) t = (Ok result, t') ->
   file_stored out writeFileSync "覆盖" "创建" args this t t' result) /\
  (append_file_execute out args (createToolContext out this) t = (Ok result, t') ->
   file_stored out appendFileSync "追加到" "创建并写入" args this t t' result).
Proof.
  intros Hok. split; intros Hrun; by eapply store_file_success_shape.
Qed.

End FileTools.

(** A file of the project, with auto-confirm on: the user is asked all
    the same. *)
Lemma delete_file_success_shape_witness :
  let o := scripted true [] (exited 0) in
  let this := example_agent true DEFAULT_PROJECT_CONFIG "main" in
  delete_file_execute o (path_args "src/a.ts") (createToolContext o this) [] =
    (Ok (succeeded success_data),
     [EvExists "/home/u/proj/src/a.ts" true; EvStat "/home/u/proj/src/a.ts";
      EvConfirm "⚠️  删除文件: src/a.ts" true; EvFs unlinkSync "/home/u/proj/src/a.ts"]) /\
  exists filePath : string,
    prop (path_args "src/a.ts") "path" = JStr filePath /\
    isPathAllowedForWrite (Path.resolve "/home/u" ["/home/u/proj"; filePath])
      (appConfig this) = true /\
    Js.startsWith "/home/u/proj" (Path.resolve "/home/u" ["/home/u/proj"; filePath]) = false.
Proof.
  cbv zeta. split; [reflexivity|].
  destruct (delete_file_success_shape (scripted true [] (exited 0)) (path_args "src/a.ts")
              (example_agent true DEFAULT_PROJECT_CONFIG "main") []
              [EvExists "/home/u/proj/src/a.ts" true; EvStat "/home/u/proj/src/a.ts";
               EvConfirm "⚠️  删除文件: src/a.ts" true;
               EvFs unlinkSync "/home/u/proj/src/a.ts"]
              (succeeded success_data) eq_refl eq_refl)
    as (filePath & isDir & Hpath & Hallowed & Hprefix & Htrace & _).
  exists filePath. split; [exact Hpath|]. split; [exact Hallowed | exact Hprefix].
Defined.

(** Without auto-confirm, a user who accepts, and a directory that is
    there. *)
Lemma write_and_append_success_shape_witness :
  let o := scripted true [] (exited 0) in
  let this := example_agent false DEFAULT_PROJECT_CONFIG "main" in
  let args := <["content" := JStr "export {}"]> (path_args "src/a.ts") in
  file_stored o writeFileSync "覆盖" "创建" args this []
    [EvExists "/home/u/proj/src/a.ts" true; EvConfirm "覆盖文件: src/a.ts" true;
     EvExists "/home/u/proj/src" true; EvFs writeFileSync "/home/u/proj/src/a.ts"]
    (succeeded success_data) /\
  file_stored o appendFileSync "追加到" "创建并写入" args this []
    [EvExists "/home/u/proj/src/a.ts" true; EvConfirm "追加到文件: src/a.ts" true;
     EvExists "/home/u/proj/src" true; EvFs appendFileSync "/home/u/proj/src/a.ts"]
    (succeeded success_data).
Proof.
  cbv zeta. split.
  - exact (proj1 (write_and_append_success_shape (scripted true [] (exited 0))
                    (<["content" := JStr "export {}"]> (path_args "src/a.ts"))
                    (example_agent false DEFAULT_PROJECT_CONFIG "main") []
                    [EvExists "/home/u/proj/src/a.ts" true;
                     EvConfirm "覆盖文件: src/a.ts" true;
                     EvExists "/home/u/proj/src" true;
                     EvFs writeFileSync "/home/u/proj/src/a.ts"]
                    (succeeded success_data) eq_refl) eq_refl).
  - exact (proj2 (write_and_append_success_shape (scripted true [] (exited 0))
                    (<["content" := JStr "export {}"]> (path_args "src/a.ts"))
                    (example_agent false DEFAULT_PROJECT_CONFIG "main") []
                    [EvExists "/home/u/proj/src/a.ts" true;
                     EvConfirm "追加到文件: src/a.ts" true;
                     EvExists "/home/u/proj/src" true;
                     EvFs appendFileSync "/home/u/proj/src/a.ts"]
                    (succeeded success_data) eq_refl) eq_refl).
Defined.

(** ** Invariants of a run (agent/index.ts) *)

Section RunInvariants.

Variable out : Outside.

Section Rules.

(** A property of what is added to the trace, that holds of nothing and
    of what two computations add one after the other. *)
Variables (T : list Event -> Prop) (I : Agent -> Prop).
Hypothesis T_nil : T [].
Hypothesis T_app : forall a b, T a -> T b -> T (a ++ b).

Lemma agent_spec_ret {A} (Q : A -> Prop) (a : A) : Q a -> agent_spec T I Q (ret a).
Proof. intros Ha this t Hthis. exists [], this. by rewrite app_nil_r. Qed.

Lemma agent_spec_bind {A B} (Q : A -> Prop) (R : B -> Prop) (m : AgentM A)
    (k : A -> AgentM B) :
  agent_spec T I Q m -> (forall a, Q a -> agent_spec T I R (k a)) ->
  agent_spec T I R (bind m k).
Proof.
  intros Hm Hk this t Hthis. unfold bind.
  destruct (Hm this t Hthis) as (evs1 & this1 & H1 & HP1 & HI1 & HQ1).
  destruct (m (this, t)) as [[a|e] s1]; cbn [fst snd] in *; subst s1.
  - destruct (Hk a HQ1 this1 (t ++ evs1) HI1) as (evs2 & this2 & H2 & HP2 & HI2 & HQ2).
    exists (evs1 ++ evs2), this2. rewrite app_assoc.
    split; [exact H2|]. split; [by apply T_app|]. by split.
  - by exists evs1, this1.
Qed.

Lemma agent_spec_finally {A B} (m : AgentM A) (f : AgentM B) :
  agent_spec T I (fun _ => True) m -> agent_spec T I (fun _ => True) f ->
  agent_spec T I (fun _ => True) (try_finally m f).
Proof.
  intros Hm Hf this t Hthis. unfold try_finally.
  destruct (Hm this t Hthis) as (evs1 & this1 & H1 & HP1 & HI1 & _).
  destruct (m (this, t)) as [r s1]; cbn [fst snd] in *; subst s1.
  destruct (Hf this1 (t ++ evs1) HI1) as (evs2 & this2 & H2 & HP2 & HI2 & _).
  exists (evs1 ++ evs2), this2. rewrite app_assoc.
  destruct (f (this1, t ++ evs1)) as [[b|e] s2]; cbn [fst snd] in *; subst s2;
    (split; [reflexivity|]); (split; [by apply T_app|]); split; try done;
    by destruct r.
Qed.

Lemma agent_spec_of_result {A} (r : Result A) :
  agent_spec T I (fun _ => True) (of_result r).
Proof. intros this t Hthis. exists [], this. rewrite app_nil_r. by destruct r. Qed.

Lemma agent_spec_self : agent_spec T I I self.
Proof. intros this t Hthis. exists [], this. by rewrite app_nil_r. Qed.

Lemma agent_spec_update (f : Agent -> Agent) :
  (forall this, I this -> I (f this)) -> agent_spec T I (fun _ => True) (update f).
Proof.
  intros Hf this t Hthis. exists [], (f this). rewrite app_nil_r.
  split; [reflexivity|]. split; [exact T_nil|]. split; [by apply Hf | done].
Qed.

Lemma agent_spec_io {A} (m : IO A) :
  io_spec T m -> agent_spec T I (fun _ : A => True) (io m).
Proof.
  intros Hm this t Hthis. destruct (Hm t) as (evs & Ht & HP).
  exists evs, this. unfold io, zoom. cbn [fst snd].
  destruct (m t) as [r t1]; cbn [fst snd] in *; subst t1. by destruct r.
Qed.

Hypothesis call :
  forall this answer, I this -> T [EvLlmCall (buildMessagesWithContext this) answer].
Hypothesis tool :
  forall this toolCall, I this -> io_spec T (executeToolCall out this toolCall).
Hypothesis add :
  forall this m, I this -> from_the_loop m ->
    I (with_state (fun st => set_messages (messages st ++ [m]) st) this).
Hypothesis current :
  forall this c, I this -> I (with_state (set_currentToolCall c) this).
Hypothesis stop :
  forall this, I this -> I (with_state (set_isRunning false) this).

Lemma run_tool_calls_invariant (calls : list ToolCall) toolResults :
  agent_spec T I (fun _ => True) (run_tool_calls out calls toolResults).
Proof.
  revert toolResults. induction calls as [|toolCall calls IH]; intros toolResults.
  - by apply agent_spec_ret.
  - cbn [run_tool_calls].
    eapply agent_spec_bind; [apply agent_spec_of_result|].
    intros _ _.
    eapply agent_spec_bind; [apply agent_spec_update; intros; by apply current|].
    intros _ _. eapply agent_spec_bind; [apply agent_spec_self|].
    intros this Hthis. eapply agent_spec_bind; [apply agent_spec_io; by apply tool|].
    intros result _.
    eapply agent_spec_bind; [apply agent_spec_of_result|].
    intros _ _. apply IH.
Qed.

Lemma llmClient_call_spec (this : Agent) :
  I this -> io_spec T (llmClient_call out (buildMessagesWithContext this)).
Proof.
  intros Hthis t. unfold llmClient_call. eexists. split; [reflexivity|]. by apply call.
Qed.

Lemma run_loop_invariant (remaining : nat) (loopCount : Z) (finalResponse : string) :
  agent_spec T I (fun _ => True) (run_loop out remaining loopCount finalResponse).
Proof.
  revert loopCount finalResponse.
  induction remaining as [|remaining IH]; intros loopCount finalResponse.
  - by apply agent_spec_ret.
  - cbn [run_loop]. eapply agent_spec_bind; [apply agent_spec_self|].
    intros this Hthis.
    eapply agent_spec_bind; [apply agent_spec_io; by apply llmClient_call_spec|].
    intros llmResponse _.
    eapply agent_spec_bind.
    { apply agent_spec_update. intros this' H'. apply add; [done | by left]. }
    intros _ _.
    destruct (resp_tool_calls llmResponse) as [[|toolCall calls]|];
      [by apply agent_spec_ret | | by apply agent_spec_ret].
    eapply agent_spec_bind; [apply run_tool_calls_invariant|].
    intros toolResults _.
    eapply agent_spec_bind; [apply agent_spec_update; intros; by apply current|].
    intros _ _.
    eapply agent_spec_bind.
    { apply agent_spec_update. intros this' H'. apply add; [done | by right]. }
    intros _ _.
    destruct (_ && _); [by apply agent_spec_ret | apply IH].
Qed.

(** [run]: [I] holds from the message of the user on. *)
Lemma run_trace_invariant (this : Agent) (userMessage : string) (t : Trace) :
  I (with_state (fun st => set_messages (messages st ++ [plain_message Role.user userMessage]) st)
       (with_state (set_isRunning true) this)) ->
  exists evs this',
    (run out userMessage (this, t)).2 = (this', t ++ evs) /\ T evs /\ I this'.
Proof.
  intros Hstart.
  unfold run. unfold bind at 1. unfold update at 1, modify. cbn [fst snd].
  unfold bind at 1. unfold addMessage at 1, update, modify. cbn [fst snd].
  unfold bind at 1. unfold self, gets. cbn [fst snd].
  set (this0 := with_state _ (with_state _ this)) in *.
  assert (Hspec : agent_spec T I (fun _ : string => True)
            (try_finally
               (r <- run_loop out (Z.to_nat (effective_maxLoops this0)) 0 "" ;; ret r.2)
               (modify (fun s : Agent * Trace => (with_state (set_isRunning false) s.1, s.2))))).
  { apply agent_spec_finally.
    - eapply agent_spec_bind; [by apply run_loop_invariant|].
      intros r _. by apply agent_spec_ret.
    - apply agent_spec_update. exact stop. }
  destruct (Hspec this0 t Hstart) as (evs & this' & H & HP & HI & _).
  by exists evs, this'.
Qed.

End Rules.

(** The same for a property of each interaction. *)
Lemma run_invariant (P : Event -> Prop) (I : Agent -> Prop) (this : Agent)
    (userMessage : string) (t : Trace) :
  (forall this answer, I this -> P (EvLlmCall (buildMessagesWithContext this) answer)) ->
  (forall this toolCall, I this -> io_spec (Forall P) (executeToolCall out this toolCall)) ->
  (forall this m, I this -> from_the_loop m ->
     I (with_state (fun st => set_messages (messages st ++ [m]) st) this)) ->
  (forall this c, I this -> I (with_state (set_currentToolCall c) this)) ->
  (forall this, I this -> I (with_state (set_isRunning false) this)) ->
  I (with_state (fun st => set_messages (messages st ++ [plain_message Role.user userMessage]) st)
       (with_state (set_isRunning true) this)) ->
  exists evs this',
    (run out userMessage (this, t)).2 = (this', t ++ evs) /\ Forall P evs /\ I this'.
Proof.
  intros Hcall Htool Hadd Hcurrent Hstop Hstart.
  apply (run_trace_invariant (Forall P) I); try done.
  - intros a b Ha Hb. apply Forall_app. by split.
  - intros a answer Ha. constructor; [by apply Hcall | constructor].
Qed.

End RunInvariants.

Section RunProperties.

Variable out : Outside.

Lemma read_only_tool_reads (name : string) (tool : ToolDefinition) (args : Args)
    (context : ToolContext) (t : Trace) :
  getTool out name = Some tool -> name ∈ read_only_tools ->
  execute tool args context t =
    (Ok (read_tool out name args (ctx_workingDirectory context) (t ++ [EvReadTool name args])),
     t ++ [EvReadTool name args]).
Proof.
  intros Hget Hin. apply registry_lookup in Hget as [Htool Hname].
  apply list_elem_of_In in Hin.
  repeat (apply elem_of_cons in Htool as [-> | Htool];
          [cbn in Hname; subst name; first [reflexivity | simpl in Hin; intuition discriminate]|]).
  by apply elem_of_nil in Htool.
Qed.

Lemma executeToolCall_reads (this : Agent) (toolCall : ToolCall) (avail : list string) :
  availableTools (config (state this)) = Some avail ->
  Forall (fun name => name ∈ read_only_tools) avail ->
  io_spec (Forall (fun e => is_llm_call e || is_read_event e = true))
    (executeToolCall out this toolCall).
Proof.
  intros Havail Hread t. unfold executeToolCall.
  destruct (getTool out (tc_name toolCall)) as [tool|] eqn:Hget.
  2:{ exists []. by rewrite app_nil_r. }
  rewrite Havail.
  destruct (Js.array_includes avail (tc_name toolCall)) eqn:Hinc; cbn [negb].
  2:{ exists []. by rewrite app_nil_r. }
  apply array_includes_elem in Hinc. rewrite Forall_forall in Hread.
  unfold executeTool, try_catch. rewrite Hget.
  rewrite (read_only_tool_reads _ _ _ _ _ Hget (Hread _ Hinc)).
  eexists. split; [reflexivity|]. by repeat constructor.
Qed.

(** An agent whose configuration lists only tools that read (as the
    review preset does) never writes, deletes, runs a command or prompts
    the user, whatever the model asks for: all the interactions of a run
    are calls of the LLM client and calls of the listed read tools. *)
Theorem read_only_agent_only_reads
    (this : Agent) (userMessage : string) (t : Trace) (avail : list string) :
  availableTools (config (state this)) = Some avail ->
  Forall (fun name => name ∈ read_only_tools) avail ->
  exists evs this',
    (run out userMessage (this, t)).2 = (this', t ++ evs) /\
    Forall (fun e => is_llm_call e || is_read_event e = true) evs /\
    config (state this') = config (state this).
Proof.
  intros Havail Hread.
  apply (run_invariant out (fun e => is_llm_call e || is_read_event e = true)
           (fun a => config (state a) = config (state this))); try done.
  intros a toolCall Ha. apply (executeToolCall_reads a toolCall avail); [|done].
  by rewrite Ha.
Qed.

Lemma tool_event_sends (sent : list Message) (evs : list Event) :
  Forall (fun e => tool_event e = true) evs -> Forall (sends sent) evs.
Proof. intros H. eapply Forall_impl; [exact H|]. by intros []. Qed.

(** [run] only appends to the history of the agent: the message of the
    user first, then messages of the assistant and of the tools.  Every
    call of the LLM client during the run is sent the project context, if
    there is one, then the history from before the run, then the message
    of the user, then what the run has added so far. *)
Theorem run_history_append_only (this : Agent) (userMessage : string) (t : Trace) :
  exists evs this' added,
    (run out userMessage (this, t)).2 = (this', t ++ evs) /\
    messages (state this') =
      messages (state this) ++ plain_message Role.user userMessage :: added /\
    Forall from_the_loop added /\
    Forall (sends (buildMessagesWithContext this ++ [plain_message Role.user userMessage]))
      evs.
Proof.
  destruct (run_invariant out
              (sends (buildMessagesWithContext this ++ [plain_message Role.user userMessage]))
              (fun a => projectContext a = projectContext this /\
                        exists added,
                          messages (state a) =
                            messages (state this) ++
                            plain_message Role.user userMessage :: added /\
                          Forall from_the_loop added)
              this userMessage t)
    as (evs & this' & Hrun & Hsent & _ & added & Hadded & Hloop).
  - intros a answer (Hctx & added & Hmsgs & _). unfold buildMessagesWithContext.
    rewrite Hctx, Hmsgs. exists added. by rewrite <- !app_assoc.
  - intros a toolCall _ t1.
    destruct (executeToolCall_spec out a toolCall t1) as (evs & Htrace & Htool & _).
    exists evs. split; [exact Htrace | by apply tool_event_sends].
  - intros a m (Hctx & added & Hmsgs & Hloop) Hm. split; [exact Hctx|].
    exists (added ++ [m]). cbn. rewrite Hmsgs, <- app_assoc. split; [done|].
    apply Forall_app. split; [done | constructor; [exact Hm | constructor]].
  - intros a c H. exact H.
  - intros a H. exact H.
  - split; [reflexivity|]. exists []. by split.
  - by exists evs, this', added.
Qed.

End RunProperties.

(** The review preset, with auto-confirm on, and a model that asks for a
    deletion and for a listing: the deletion is refused without a prompt,
    the listing is made. *)
Lemma read_only_agent_only_reads_witness :
  let o := scripted true
             [tool_call_response "" [{| tc_name := "delete_file";
                                        tc_arguments := path_args "src" |};
                                     list_files_call];
              tool_call_response "done" []] (exited 0) in
  let this := example_agent true DEFAULT_PROJECT_CONFIG "review" in
  map is_read_event (List.filter (fun e => negb (is_llm_call e))
                       (run o "clean up" (this, [])).2.2) = [true] /\
  exists evs this',
    (run o "clean up" (this, [])).2 = (this', [] ++ evs) /\
    Forall (fun e => is_llm_call e || is_read_event e = true) evs /\
    config (state this') = config (state this).
Proof.
  cbv zeta. split; [by vm_compute|].
  apply (read_only_agent_only_reads _ _ "clean up" []
           ["list_files"; "read_file"; "search_codebase"]); [reflexivity|].
  repeat constructor; apply list_elem_of_In; simpl; tauto.
Defined.

(** ** Directives and presets (agent/sub-agent.ts) *)

Section Directives.

Lemma drop_length (k : nat) (s : string) : String.length (Js.drop k s) <= String.length s.
Proof.
  revert s. induction k as [|k IH]; intros s; [done|].
  destruct s as [|c s]; [done|]. simpl. specialize (IH s). lia.
Qed.

Lemma drop_space_shorter (s s' : string) :
  Js.drop_space Js.space_sequences s = Some s' -> String.length s' < String.length s.
Proof.
  unfold Js.drop_space. destruct s as [|c s]; [done|].
  destruct (Js.ascii_space c); [intros [= <-]; simpl; lia|].
  destruct (List.find _ _) as [q|] eqn:Hfind; [|done]. intros [= <-].
  apply find_some in Hfind as [Hin _].
  assert (Hq : 1 <= length q).
  { simpl in Hin. repeat (destruct Hin as [<- | Hin]; [simpl; lia|]). done. }
  destruct (length q) as [|k]; [lia|]. simpl. pose proof (drop_length k s). lia.
Qed.

Lemma drop_spaces_done (n : nat) (s : string) :
  String.length s <= n ->
  Js.drop_space Js.space_sequences (Js.drop_spaces n Js.space_sequences s) = None.
Proof.
  revert s. induction n as [|n IH]; intros s Hlen.
  - destruct s; [done | simpl in Hlen; lia].
  - cbn [Js.drop_spaces].
    destruct (Js.drop_space Js.space_sequences s) as [s'|] eqn:Hdrop; [|exact Hdrop].
    apply IH. apply drop_space_shorter in Hdrop. lia.
Qed.

(** [trimStart] removes all the leading white space. *)
Lemma trimStart_idempotent (s : string) : Js.trimStart (Js.trimStart s) = Js.trimStart s.
Proof.
  pose proof (drop_spaces_done (String.length s) s (le_n _)) as Hdone.
  fold (Js.trimStart s) in Hdone. unfold Js.trimStart at 1.
  destruct (String.length (Js.trimStart s)); [reflexivity|].
  cbn [Js.drop_spaces]. by rewrite Hdone.
Qed.

Lemma has_line_terminator_tail (c : ascii) (s : string) :
  has_line_terminator (String c s) = false -> has_line_terminator s = false.
Proof.
  cbn [has_line_terminator]. intros H.
  apply orb_false_iff in H as [_ H]. exact H.
Qed.

Lemma has_line_terminator_drop (k : nat) (s : string) :
  has_line_terminator s = false -> has_line_terminator (Js.drop k s) = false.
Proof.
  revert s. induction k as [|k IH]; intros s Hs; [done|].
  destruct s as [|c s]; [done|]. simpl. apply IH. by eapply has_line_terminator_tail.
Qed.

Lemma has_line_terminator_drop_spaces (n : nat) (seqs : list (list nat)) (s : string) :
  has_line_terminator s = false ->
  has_line_terminator (Js.drop_spaces n seqs s) = false.
Proof.
  revert s. induction n as [|n IH]; intros s Hs; [done|].
  cbn [Js.drop_spaces]. destruct (Js.drop_space seqs s) as [s'|] eqn:Hdrop; [|done].
  apply IH. unfold Js.drop_space in Hdrop. destruct s as [|c s]; [done|].
  destruct (Js.ascii_space c).
  - injection Hdrop as <-. by eapply has_line_terminator_tail.
  - destruct (List.find _ _); [|done]. injection Hdrop as <-.
    by apply has_line_terminator_drop.
Qed.

Lemma span_word_all (w rest : string) :
  all_word w = true ->
  span_word (w +:+ String " " rest) = (w, String " " rest).
Proof.
  induction w as [|c w IH]; intros Hw; [reflexivity|].
  simpl in Hw. apply andb_true_iff in Hw as [Hc Hw].
  change (span_word (String c (w +:+ String " " rest)) = (String c w, String " " rest)).
  cbn [span_word]. by rewrite Hc, (IH Hw).
Qed.

Lemma lower_word (c : ascii) : is_word (Js.lower c) = true -> is_word c = true.
Proof.
  unfold Js.lower.
  destruct ((65 <=? Js.code c) && (Js.code c <=? 90)) eqn:Hupper; [|done].
  intros _. unfold is_word. rewrite Hupper. by rewrite orb_true_r.
Qed.

Lemma toLowerCase_word (s : string) : all_word (Js.toLowerCase s) = true -> all_word s = true.
Proof.
  induction s as [|c s IH]; [done|]. simpl. intros H.
  apply andb_true_iff in H as [Hc Hs]. by rewrite (lower_word _ Hc), (IH Hs).
Qed.

Lemma preset_key_word (key : string) (preset : Preset) :
  AGENT_PRESETS !! key = Some preset -> all_word key = true /\ key <> "".
Proof.
  intros H. apply elem_of_list_to_map_2 in H. apply list_elem_of_In in H. simpl in H.
  repeat (destruct H as [[= <- _] | H]; [by split|]). done.
Qed.

(** The directive the main loop assembles, the at sign, the type of the
    agent, a space and the content, is parsed back into the type and the
    content: for every spelling of a preset name in upper or lower case,
    and every content without a line terminator, [parseAgentCommand]
    returns the name in lower case and the content without the white space
    around it. *)
Theorem parseAgentCommand_round_trip (typeStr message : string) (preset : Preset) :
  AGENT_PRESETS !! Js.toLowerCase typeStr = Some preset ->
  has_line_terminator message = false ->
  parseAgentCommand ("@" +:+ typeStr +:+ " " +:+ message) =
    Some {| cmd_type := Js.toLowerCase typeStr; cmd_message := Js.trim message |}.
Proof.
  intros Hpreset Hline.
  destruct (preset_key_word _ _ Hpreset) as [Hword Hne].
  apply toLowerCase_word in Hword.
  assert (Htype : typeStr <> "") by (intros ->; by apply Hne).
  unfold parseAgentCommand, match_agent_command.
  change ("@" +:+ typeStr +:+ " " +:+ message)
    with (String "@" (typeStr +:+ String " " message)).
  cbv beta iota. change (Ascii.eqb "@" (Js.byte_of 64)) with true. cbv iota.
  rewrite (span_word_all _ _ Hword).
  apply String.eqb_neq in Htype. rewrite Htype.
  change (Js.trimStart (String " " message)) with (Js.trimStart message).
  unfold Js.trimStart at 1. rewrite has_line_terminator_drop_spaces by done.
  fold (Js.trimStart message).
  unfold AGENT_PRESETS_get. rewrite Hpreset.
  unfold Js.trim. by rewrite trimStart_idempotent.
Qed.

End Directives.

(** A directive in upper case with white space around the content. *)
Lemma parseAgentCommand_round_trip_witness :
  parseAgentCommand "@REVIEW   src/agent  " =
    Some {| cmd_type := "review"; cmd_message := "src/agent" |}.
Proof.
  exact (parseAgentCommand_round_trip "REVIEW" "  src/agent  " _ eq_refl eq_refl).
Defined.

Section Presets.

Variable out : Outside.

(** The presets and the registry of tools/index.ts agree: a preset only
    lists tools that are registered, the main preset lists every
    registered tool, and no other preset lists delete_file or
    append_file. *)
Theorem presets_grant_registered_tools (type : string) (preset : Preset) :
  AGENT_PRESETS !! type = Some preset ->
  (forall name, name ∈ preset_availableTools preset -> is_Some (getTool out name)) /\
  (forall name, name ∈ preset_availableTools preset ->
     name = "delete_file" \/ name = "append_file" -> type = "main") /\
  (type = "main" ->
   forall name, is_Some (getTool out name) -> name ∈ preset_availableTools preset).
Proof.
  intros H. apply elem_of_list_to_map_2 in H. apply list_elem_of_In in H. simpl in H.
  repeat (destruct H as [[= <- <-] | H];
          [split; [|split];
           [ intros name Hin; apply list_elem_of_In in Hin; simpl in Hin;
             repeat (destruct Hin as [<- | Hin]; [by eexists|]); done
           | intros name Hin [-> | ->]; apply list_elem_of_In in Hin; simpl in Hin;
             first [reflexivity | intuition discriminate]
           | intros Hmain; try discriminate Hmain;
             intros name [tool Hget]; apply registry_lookup in Hget as [Htool <-];
             apply list_elem_of_In; simpl;
             repeat (apply elem_of_cons in Htool as [-> | Htool]; [simpl; tauto|]);
             by apply elem_of_nil in Htool ] |]).
  done.
Qed.

End Presets.

(** The refactor preset. *)
Lemma presets_grant_registered_tools_witness :
  let o := scripted true [] (exited 0) in
  is_Some (getTool o "write_file") /\
  availableTools (getAgentConfig "refactor") =
    Some ["list_files"; "read_file"; "write_file"; "search_codebase"].
Proof.
  cbv zeta. split; [|reflexivity].
  destruct (presets_grant_registered_tools (scripted true [] (exited 0)) "refactor" _ eq_refl)
    as (Hregistered & _ & _).
  apply Hregistered. apply list_elem_of_In. simpl. tauto.
Defined.

(** ** The wire messages of the adapters *)

Section WireMessages.

Import Anthropic.

Lemma rev_eq_cons {X} (l : list X) (x : X) (init : list X) :
  List.rev l = x :: init -> l = List.rev init ++ [x].
Proof. intros H. by rewrite <- (rev_involutive l), H. Qed.

Lemma push_tool_result_well_formed result block :
  Forall well_formed_wire result -> Forall well_formed_wire (push_tool_result result block).
Proof.
  intros H. unfold push_tool_result.
  destruct (List.rev result) as [|lastMsg init] eqn:Hrev.
  - apply Forall_app. split; [done | by repeat constructor].
  - apply rev_eq_cons in Hrev. subst result.
    apply Forall_app in H as [Hinit Hlast].
    destruct (an_role lastMsg);
      apply Forall_app; split; try done;
      try (apply Forall_app; by split); by repeat constructor.
Qed.

Lemma convert_well_formed (messages : list Message) result :
  Forall well_formed_wire result ->
  Forall well_formed_wire (fold_left convert messages result).
Proof.
  revert result. induction messages as [|m messages IH]; intros result H; [done|].
  simpl. apply IH. unfold convert. destruct (role m).
  - done.
  - apply Forall_app. split; [done | by repeat constructor].
  - destruct (_ ++ _) as [|b bs] eqn:Hblocks; [done|]. cbn [length Nat.ltb Nat.leb].
    apply Forall_app. split; [done|]. repeat constructor. by exists b, bs.
  - by apply push_tool_result_well_formed.
Qed.

(** The messages of an Anthropic request start with one of the user, are
    all from the user or from the assistant, and those of the assistant
    have at least one block: a message of the assistant without text and
    without tool calls is left out. *)
Theorem anthropic_wire_shape (messages : list Message) :
  exists first rest,
    convertMessages messages = first :: rest /\
    an_role first = Role.user /\
    Forall well_formed_wire (first :: rest).
Proof.
  unfold convertMessages.
  pose proof (convert_well_formed messages [] ltac:(constructor)) as H.
  destruct (fold_left convert messages []) as [|first rest].
  - eexists _, _. split; [reflexivity|]. split; [reflexivity | by repeat constructor].
  - destruct (an_role first) eqn:Hrole.
    + inversion H as [|? ? Hfirst _]; subst. unfold well_formed_wire in Hfirst.
      by rewrite Hrole in Hfirst.
    + by exists first, rest.
    + eexists _, _. split; [reflexivity|]. split; [reflexivity|]. by constructor.
    + inversion H as [|? ? Hfirst _]; subst. unfold well_formed_wire in Hfirst.
      by rewrite Hrole in Hfirst.
Qed.

Lemma wire_blocks_app (a b : list AnthropicMessage) :
  wire_blocks (a ++ b) = wire_blocks a ++ wire_blocks b.
Proof. unfold wire_blocks. by rewrite map_app, concat_app. Qed.

Lemma tool_call_id_default (msg : Message) :
  match tool_call_id msg with
  | Some i => if Js.truthy i then i else ""
  | None => ""
  end = default "" (tool_call_id msg).
Proof. destruct (tool_call_id msg) as [[|c i]|]; reflexivity. Qed.

Lemma filter_tool_use (calls : list NativeToolCall) :
  List.filter is_tool_block
    (map (fun tc => tool_use (ntc_id tc) (ntc_name tc) (ntc_arguments tc)) calls) =
  map (fun tc => tool_use (ntc_id tc) (ntc_name tc) (ntc_arguments tc)) calls.
Proof. induction calls as [|tc calls IH]; [done|]. simpl. by rewrite IH. Qed.

Lemma push_tool_result_blocks result (block : ContentBlock) :
  is_tool_block block = true ->
  List.filter is_tool_block (wire_blocks (push_tool_result result block)) =
  List.filter is_tool_block (wire_blocks result) ++ [block].
Proof.
  intros Hblock. unfold push_tool_result.
  destruct (List.rev result) as [|lastMsg init] eqn:Hrev.
  - rewrite wire_blocks_app, List.filter_app. cbn. by rewrite Hblock.
  - apply rev_eq_cons in Hrev. subst result.
    destruct (an_role lastMsg);
      rewrite !wire_blocks_app, !List.filter_app; cbn; rewrite ?app_nil_r, ?Hblock;
      try (by rewrite <- app_assoc).
    destruct (an_content lastMsg); cbn; rewrite ?List.filter_app; cbn;
      rewrite ?Hblock, ?app_nil_r, <- ?app_assoc; reflexivity.
Qed.

Lemma wire_blocks_one (r : MessageRole) (blocks : list ContentBlock) :
  wire_blocks [{| an_role := r; an_content := Blocks blocks |}] = blocks.
Proof. unfold wire_blocks. cbn. apply app_nil_r. Qed.

Lemma convert_blocks (msg : Message) result :
  List.filter is_tool_block (wire_blocks (convert result msg)) =
  List.filter is_tool_block (wire_blocks result) ++ tool_blocks_of msg.
Proof.
  unfold convert, tool_blocks_of. destruct (role msg).
  - by rewrite app_nil_r.
  - rewrite wire_blocks_app, List.filter_app. cbn. by rewrite app_nil_r.
  - set (uses := map _ (default [] (tool_calls msg))).
    assert (Huses : List.filter is_tool_block uses = uses) by apply filter_tool_use.
    destruct (Js.truthy (content msg)); cbn [app].
    + cbn [length Nat.ltb Nat.leb]. rewrite wire_blocks_app, List.filter_app.
      rewrite wire_blocks_one. cbn [List.filter is_tool_block]. by rewrite Huses.
    + destruct uses as [|use uses'] eqn:Euses.
      * cbn. by rewrite app_nil_r.
      * cbn [length Nat.ltb Nat.leb]. rewrite wire_blocks_app, List.filter_app.
        by rewrite wire_blocks_one, Huses.
  - rewrite tool_call_id_default. by apply push_tool_result_blocks.
Qed.

(** Every tool call of the assistant and every tool result of the
    history reaches the Anthropic request once, in the order of the
    history and with its identifier: the blocks of the request that are no
    text are the tool calls and the tool results of the messages. *)
Theorem anthropic_wire_keeps_tool_blocks (messages : list Message) :
  List.filter is_tool_block (wire_blocks (convertMessages messages)) =
  concat (map tool_blocks_of messages).
Proof.
  assert (H : forall result,
            List.filter is_tool_block (wire_blocks (fold_left convert messages result)) =
            List.filter is_tool_block (wire_blocks result) ++
            concat (map tool_blocks_of messages)).
  { induction messages as [|m messages IH]; intros result.
    - by rewrite app_nil_r.
    - cbn [fold_left map concat]. by rewrite IH, convert_blocks, <- app_assoc. }
  unfold convertMessages. specialize (H []).
  destruct (fold_left convert messages []) as [|first rest]; [exact H|].
  by destruct (an_role first).
Qed.

End WireMessages.

Section ChatWire.

Variable buildSystemPrompt : string.
Variable stringify_arguments : Args -> string.

Lemma openai_convert_tool_calls (m : Message) :
  o_tool_calls (openai_convert stringify_arguments m) <> Some [].
Proof.
  unfold openai_convert. destruct (role m); try done.
  cbn. unfold wire_tool_calls. by destruct (tool_calls m) as [[|tc tcs]|].
Qed.

(** The chat-completions adapters (OpenAI and Grok, Kimi) and the Ollama
    adapter send the history message by message: after the system prompt,
    one wire message per message, with its role, in order; no wire message
    carries an empty array of tool calls (a message of the assistant
    without tool calls has none), and a tool message always carries a
    [tool_call_id]. *)
Theorem chat_wire_keeps_every_message (messages : list Message) :
  let wire := OpenAI.convertMessages buildSystemPrompt stringify_arguments messages in
  Kimi.convertMessages buildSystemPrompt stringify_arguments messages = wire /\
  map o_role wire = Role.system :: map role messages /\
  Forall (fun m => o_tool_calls m <> Some []) wire /\
  Forall (fun m => o_role m = Role.tool -> is_Some (o_tool_call_id m)) wire /\
  map Ollama.ol_role (Ollama.convertMessages buildSystemPrompt messages) =
    Role.system :: map role messages /\
  Forall (fun m => Ollama.ol_tool_calls m <> Some [])
    (Ollama.convertMessages buildSystemPrompt messages).
Proof.
  cbv zeta. unfold OpenAI.convertMessages, Ollama.convertMessages.
  split; [reflexivity|]. split; [|split; [|split; [|split]]].
  - cbn. f_equal. rewrite map_map. apply map_ext. intros m. apply openai_convert_role.
  - constructor; [done|]. apply Forall_map, Forall_forall. intros m _.
    apply openai_convert_tool_calls.
  - constructor; [done|]. apply Forall_map, Forall_forall. intros m _.
    unfold openai_convert. by destruct (role m).
  - cbn. f_equal. rewrite map_map. apply map_ext. intros m.
    apply ollama_convert_role.
  - constructor; [done|]. apply Forall_map, Forall_forall. intros m _.
    unfold Ollama.convert. destruct (role m); try done.
    cbn. by destruct (tool_calls m) as [[|tc tcs]|].
Qed.

End ChatWire.

Section TextAdapter.

Import AnthropicText.

Lemma alternates_snoc (l : list AnthropicMessage) (x : AnthropicMessage) :
  alternates (l ++ [x]) =
  alternates l &&
  match last l with
  | Some y => negb (is_user y && is_user x)
  | None => true
  end.
Proof.
  induction l as [|a l IH]; [reflexivity|].
  destruct l as [|b l].
  - cbn. by rewrite andb_true_r.
  - change (alternates ((a :: b :: l) ++ [x]))
      with (negb (is_user a && is_user b) && alternates ((b :: l) ++ [x])).
    rewrite IH. change (alternates (a :: b :: l))
      with (negb (is_user a && is_user b) && alternates (b :: l)).
    change (last (a :: b :: l)) with (last (b :: l)). by rewrite andb_assoc.
Qed.

Lemma convert_alternates (result : list AnthropicMessage) (msg : Message) :
  alternates result = true -> alternates (convert result msg) = true.
Proof.
  intros H. unfold convert.
  assert (Hassistant : forall text,
            alternates (result ++ [{| at_role := Role.assistant; at_content := text |}])
            = true).
  { intros text. rewrite alternates_snoc, H. destruct (last result); [|done].
    cbn. by rewrite andb_false_r. }
  assert (Huser : forall text,
            alternates
              match List.rev result with
              | [] => result ++ [{| at_role := Role.user; at_content := text |}]
              | lastMsg :: init =>
                  match at_role lastMsg with
                  | Role.user =>
                      List.rev init ++
                      [{| at_role := Role.user;
                          at_content := at_content lastMsg +:+ lf +:+ lf +:+ text |}]
                  | _ => result ++ [{| at_role := Role.user; at_content := text |}]
                  end
              end = true).
  { intros text. destruct (List.rev result) as [|lastMsg init] eqn:Hrev.
    - rewrite <- (rev_involutive result), Hrev. reflexivity.
    - apply rev_eq_cons in Hrev. subst result.
      rewrite alternates_snoc in H. apply andb_true_iff in H as [Hinit Hlast].
      destruct (at_role lastMsg) eqn:Hrole;
        rewrite !alternates_snoc, ?last_snoc, ?Hinit; cbn [andb];
        unfold is_user in *; cbn [at_role] in *; rewrite ?Hrole in *; cbn;
        rewrite ?andb_true_r; try done.
      all: rewrite alternates_snoc, Hinit; cbn [andb];
        unfold is_user; rewrite Hrole; exact Hlast. }
  destruct (role msg); [done | apply Huser | apply Hassistant | apply Huser].
Qed.

(** The messages the text-only Anthropic client sends start with one of
    the user, are all from the user or from the assistant, and never hold
    two messages of the user in a row: a message of the user or a tool
    result that follows a message of the user is merged into it. *)
Theorem text_adapter_alternates (messages : list Message) :
  let wire := requestMessages messages in
  alternates wire = true /\
  (exists first rest, wire = first :: rest /\ at_role first = Role.user) /\
  Forall (fun m => at_role m = Role.user \/ at_role m = Role.assistant) wire.
Proof.
  cbv zeta. unfold requestMessages, convertMessages.
  assert (H : forall result,
            alternates result = true ->
            Forall (fun m => at_role m = Role.user \/ at_role m = Role.assistant) result ->
            alternates (fold_left convert messages result) = true /\
            Forall (fun m => at_role m = Role.user \/ at_role m = Role.assistant)
              (fold_left convert messages result)).
  { induction messages as [|m messages IH]; intros result Halt Hroles; [done|].
    cbn [fold_left]. apply IH; [by apply convert_alternates|].
    unfold convert.
    assert (Huser : forall text,
              Forall (fun m => at_role m = Role.user \/ at_role m = Role.assistant)
                match List.rev result with
                | [] => result ++ [{| at_role := Role.user; at_content := text |}]
                | lastMsg :: init =>
                    match at_role lastMsg with
                    | Role.user =>
                        List.rev init ++
                        [{| at_role := Role.user;
                            at_content := at_content lastMsg +:+ lf +:+ lf +:+ text |}]
                    | _ => result ++ [{| at_role := Role.user; at_content := text |}]
                    end
                end).
    { intros text. destruct (List.rev result) as [|lastMsg init] eqn:Hrev.
      - apply Forall_app. split; [done|]. constructor; [by left | constructor].
      - destruct (at_role lastMsg);
          try (apply Forall_app; split; [done|]; constructor; [by left | constructor]).
        apply rev_eq_cons in Hrev. subst result. apply Forall_app in Hroles as [Hinit _].
        apply Forall_app. split; [done|]. constructor; [by left | constructor]. }
    destruct (role m); [done | apply Huser | | apply Huser].
    apply Forall_app. split; [done|]. constructor; [by right | constructor]. }
  destruct (H [] eq_refl ltac:(constructor)) as [Halt Hroles].
  destruct (fold_left convert messages []) as [|first rest].
  - split; [reflexivity|]. split; [by eexists _, _|]. constructor; [by left | constructor].
  - destruct (at_role first) eqn:Hrole.
    + inversion Hroles as [|? ? [Hfirst | Hfirst] _]; congruence.
    + split; [exact Halt|]. split; [by exists first, rest | exact Hroles].
    + split; [|split; [by eexists _, _ | constructor; [by left | exact Hroles]]].
      change (negb (true && is_user first) && alternates (first :: rest) = true).
      unfold is_user. by rewrite Hrole, Halt.
    + inversion Hroles as [|? ? [Hfirst | Hfirst] _]; congruence.
Qed.

End TextAdapter.

(** A history that starts with the assistant, with a tool result between
    two messages of the user. *)
Example text_adapter_merges :
  AnthropicText.requestMessages
    [plain_message Role.assistant "hi"; plain_message Role.user "a";
     {| role := Role.tool; content := "ok"; name := Some "list_files";
        tool_call_id := None; tool_calls := None |};
     plain_message Role.user "b"] =
  [ {| AnthropicText.at_role := Role.user;
       AnthropicText.at_content := "你好，请准备好帮助我。" |};
    {| AnthropicText.at_role := Role.assistant; AnthropicText.at_content := "hi" |};
    {| AnthropicText.at_role := Role.user;
       AnthropicText.at_content :=
         "a" +:+ lf +:+ lf +:+ "[工具 list_files 执行结果]" +:+ lf +:+ "ok" +:+
         lf +:+ lf +:+ "b" |} ].
Proof. by vm_compute. Qed.

(** ** The dispatchers (tools/index.ts, tools/manager.ts) *)

Section Dispatchers.

Variable out : Outside.

Lemma try_catch_returns {S A} (m : M S A) (h : string -> A) (s : S) :
  exists a, (try_catch m (fun e => ret (h e)) s).1 = Ok a.
Proof. unfold try_catch, ret. destruct (m s) as [[a|e] s']; by eexists. Qed.

Lemma builtin_returns (name : string) (tool : ToolDefinition) (args : Args)
    (context : ToolContext) (t : Trace) :
  getTool out name = Some tool ->
  exists result, (execute tool args context t).1 = Ok result.
Proof.
  intros Hget. apply registry_lookup in Hget as [Hin _].
  repeat (apply elem_of_cons in Hin as [-> | Hin];
          [first [by eexists | apply try_catch_returns]|]).
  by apply elem_of_nil in Hin.
Qed.

(** The tools of the registry catch their own exceptions: on a name of
    the registry, [executeTool] and [ToolManager.executeTool] both return
    what the tool returns, a result and never an exception, so that the
    failure they keep for an exception of the tool is never produced.  On
    another name, without MCP, both answer that the tool is unknown. *)
Theorem dispatchers_agree_on_builtin_tools
    (this : ToolManager.ToolManager) (toolCall : ToolCall) (context : ToolContext)
    (t : Trace) :
  (forall tool,
     getTool out (tc_name toolCall) = Some tool ->
     (exists result, (execute tool (tc_arguments toolCall) context t).1 = Ok result) /\
     executeTool out toolCall context t = execute tool (tc_arguments toolCall) context t /\
     ToolManager.executeTool out this toolCall context t =
       execute tool (tc_arguments toolCall) context t) /\
  (getTool out (tc_name toolCall) = None ->
   ToolManager.mcpEnabled this = false ->
   executeTool out toolCall context t =
     (Ok (failed ("未知工具: " +:+ tc_name toolCall)), t) /\
   ToolManager.executeTool out this toolCall context t =
     (Ok (failed ("未知工具: " +:+ tc_name toolCall)), t)).
Proof.
  split.
  - intros tool Hget.
    destruct (builtin_returns _ _ (tc_arguments toolCall) context t Hget) as [result Hres].
    split; [by exists result|].
    unfold executeTool, ToolManager.executeTool, try_catch. rewrite Hget.
    destruct (execute tool (tc_arguments toolCall) context t) as [[r|e] t'];
      [done | discriminate Hres].
  - intros Hnone Hmcp. unfold executeTool, ToolManager.executeTool.
    by rewrite Hnone, Hmcp.
Qed.

End Dispatchers.

(** delete_file on a missing path, and a tool that does not exist. *)
Lemma dispatchers_agree_on_builtin_tools_witness :
  let o := scripted true [] (exited 0) in
  let context := createToolContext o (example_agent true DEFAULT_PROJECT_CONFIG "main") in
  let this := {| ToolManager.mcpEnabled := false; ToolManager.tm_debug := false |} in
  let toolCall := {| tc_name := "delete_file"; tc_arguments := ∅ |} in
  let unknown := {| tc_name := "browser_open"; tc_arguments := ∅ |} in
  (executeTool o toolCall context [] = (Ok (failed "必须提供文件路径"), []) /\
   ToolManager.executeTool o this toolCall context [] =
     (Ok (failed "必须提供文件路径"), [])) /\
  (executeTool o unknown context [] = (Ok (failed "未知工具: browser_open"), []) /\
   ToolManager.executeTool o this unknown context [] =
     (Ok (failed "未知工具: browser_open"), [])).
Proof.
  cbv zeta.
  pose proof (dispatchers_agree_on_builtin_tools (scripted true [] (exited 0))
                {| ToolManager.mcpEnabled := false; ToolManager.tm_debug := false |}
                {| tc_name := "delete_file"; tc_arguments := ∅ |}
                (createToolContext (scripted true [] (exited 0))
                   (example_agent true DEFAULT_PROJECT_CONFIG "main")) [])
    as [Hbuiltin _].
  pose proof (dispatchers_agree_on_builtin_tools (scripted true [] (exited 0))
                {| ToolManager.mcpEnabled := false; ToolManager.tm_debug := false |}
                {| tc_name := "browser_open"; tc_arguments := ∅ |}
                (createToolContext (scripted true [] (exited 0))
                   (example_agent true DEFAULT_PROJECT_CONFIG "main")) [])
    as [_ Hunknown].
  split.
  - exact (proj2 (Hbuiltin (deleteFileTool _) eq_refl)).
  - exact (Hunknown eq_refl eq_refl).
Defined.

(** ** More of the agent manager (agent/index.ts) *)

Section ManagerInput.

Variable out : Outside.

Lemma tool_event_no_new_agent (evs : list Event) :
  Forall (fun e => tool_event e = true) evs -> Forall no_new_agent evs.
Proof. intros H. eapply Forall_impl; [exact H|]. by intros []. Qed.

(** An input that is no directive (one that does not start with an at
    sign, or whose first word is no preset) is run by the main agent, with
    the whole input as the message: the result of [handleInput] is the
    result of that run, no agent is created, and the manager is the same
    but for the state of the main agent. *)
Theorem plain_input_goes_to_the_main_agent
    (mgr : AgentManager) (input : string) (t : Trace) (main : Agent) :
  (Js.startsWith input "@" = false -> parseAgentCommand input = None) /\
  (parseAgentCommand input = None ->
   heap mgr !! mainAgent mgr = Some main ->
   exists r main' evs,
     run out input (main, t) = (r, (main', t ++ evs)) /\
     handleInput out input (mgr, t) =
       (r, (set_heap (<[mainAgent mgr := main']> (heap mgr)) mgr, t ++ evs)) /\
     Forall no_new_agent evs).
Proof.
  split.
  - intros Hat. unfold parseAgentCommand, match_agent_command.
    destruct input as [|c rest]; [done|].
    change (Js.startsWith (String c rest) "@")
      with (if Ascii.eqb "@" c then true else false) in Hat.
    change (Js.byte_of 64) with "@"%char. rewrite Ascii.eqb_sym.
    by destruct (Ascii.eqb "@" c).
  - intros Hparse Hmain.
    destruct (run_invariant out no_new_agent (fun _ => True) main input t)
      as (evs & main' & Hrun & Hevs & _); try done.
    { intros a toolCall _ t1.
      destruct (executeToolCall_spec out a toolCall t1) as (evs & Htrace & Htool & _).
      exists evs. split; [exact Htrace | by apply tool_event_no_new_agent]. }
    destruct (run out input (main, t)) as [r [main'' t']] eqn:Hrun'.
    cbn [snd] in Hrun. inversion Hrun; subst main'' t'.
    exists r, main', evs. split; [reflexivity|]. split; [|exact Hevs].
    unfold handleInput. rewrite Hparse. unfold bind, gets. cbn [fst snd].
    by apply (on_agent_eq (mainAgent mgr) _ mgr t main main' r (t ++ evs)).
Qed.

Lemma clear_each (ls : list loc) (mgr : AgentManager) (t : Trace) :
  (forall l, l ∈ ls -> is_Some (heap mgr !! l)) ->
  exists heap',
    for_each ls (fun agent => on_agent agent clearMessages) (mgr, t) =
      (Ok tt, (set_heap heap' mgr, t)) /\
    forall l,
      heap' !! l =
      (if bool_decide (l ∈ ls) then with_state (set_messages []) else fun agent => agent)
        <$> heap mgr !! l.
Proof.
  revert mgr. induction ls as [|x ls IH]; intros mgr Hvalid.
  - exists (heap mgr). split; [by destruct mgr|].
    intros l. rewrite bool_decide_eq_false_2 by apply not_elem_of_nil.
    by destruct (heap mgr !! l).
  - destruct (Hvalid x ltac:(by left)) as [a Ha].
    cbn [for_each]. unfold bind at 1.
    rewrite (on_agent_eq x clearMessages mgr t a (with_state (set_messages []) a)
               (Ok tt) t Ha eq_refl).
    destruct (IH (set_heap (<[x := with_state (set_messages []) a]> (heap mgr)) mgr))
      as (heap' & Hrun & Hheap).
    { intros l Hl. cbn. destruct (decide (l = x)) as [-> | Hne].
      - rewrite lookup_insert_eq. by eexists.
      - rewrite lookup_insert_ne by done. apply Hvalid. by right. }
    exists heap'. split; [exact Hrun|].
    intros l. rewrite Hheap. cbn [heap set_heap].
    destruct (decide (l = x)) as [-> | Hne].
    + rewrite lookup_insert_eq, Ha. cbn.
      rewrite (bool_decide_eq_true_2 (x ∈ x :: ls)) by by left.
      by destruct (bool_decide (x ∈ ls)).
    + rewrite lookup_insert_ne by done.
      rewrite (bool_decide_ext (l ∈ x :: ls) (l ∈ ls)); [done|].
      rewrite elem_of_cons. tauto.
Qed.

(** [clearAllHistory] empties the history of the main agent and of every
    sub-agent the manager holds, and changes nothing else: the other
    fields of these agents, the other objects, the manager and the trace
    are as before. *)
Theorem clearAllHistory_clears (mgr : AgentManager) (t : Trace) :
  (forall l, managed mgr l -> is_Some (heap mgr !! l)) ->
  exists heap',
    clearAllHistory (mgr, t) = (Ok tt, (set_heap heap' mgr, t)) /\
    (forall l agent,
       heap mgr !! l = Some agent -> managed mgr l ->
       heap' !! l = Some (with_state (set_messages []) agent)) /\
    (forall l, ~ managed mgr l -> heap' !! l = heap mgr !! l).
Proof.
  intros Hvalid.
  destruct (Hvalid (mainAgent mgr) ltac:(by left)) as [main Hmain].
  unfold clearAllHistory. unfold bind at 1. unfold gets at 1. cbn [fst snd].
  unfold bind at 1.
  rewrite (on_agent_eq (mainAgent mgr) clearMessages mgr t main
             (with_state (set_messages []) main) (Ok tt) t Hmain eq_refl).
  unfold bind at 1. unfold gets at 1. cbn [fst snd subAgents set_heap].
  set (subs := (map_to_list (subAgents mgr)).*2).
  assert (Hsubs : forall l, l ∈ subs <-> exists id, subAgents mgr !! id = Some l).
  { intros l. unfold subs. rewrite list_elem_of_fmap. split.
    - intros ([key l'] & -> & Hin). exists key. by apply elem_of_map_to_list.
    - intros [key Hkey]. exists (key, l). split; [done | by apply elem_of_map_to_list]. }
  destruct (clear_each subs
              (set_heap (<[mainAgent mgr := with_state (set_messages []) main]> (heap mgr)) mgr)
              t) as (heap' & Hrun & Hheap).
  { intros l Hl. cbn. destruct (decide (l = mainAgent mgr)) as [-> | Hne].
    - rewrite lookup_insert_eq. by eexists.
    - rewrite lookup_insert_ne by done. apply Hvalid. right. by apply Hsubs. }
  exists heap'. split; [exact Hrun|]. cbn [heap set_heap] in Hheap. split.
  - intros l agent Hl Hmanaged. rewrite Hheap.
    destruct (decide (l = mainAgent mgr)) as [-> | Hne].
    + rewrite lookup_insert_eq. cbn. rewrite Hmain in Hl. injection Hl as <-.
      by destruct (bool_decide _).
    + rewrite lookup_insert_ne, Hl by done. cbn.
      destruct Hmanaged as [-> | Hsub]; [done|].
      by rewrite bool_decide_eq_true_2 by by apply Hsubs.
  - intros l Hother. rewrite Hheap.
    rewrite lookup_insert_ne by (intros <-; apply Hother; by left).
    rewrite bool_decide_eq_false_2.
    + by destruct (heap mgr !! l).
    + intros Hin. apply Hother. right. by apply Hsubs.
Qed.

End ManagerInput.

(** A line of text, and a directive for a type that is no preset. *)
Lemma plain_input_goes_to_the_main_agent_witness :
  let o := scripted true [tool_call_response "ok" []] (exited 0) in
  parseAgentCommand "hello" = None /\
  exists r main' evs,
    run o "@deploy now" (example_main, []) = (r, (main', [] ++ evs)) /\
    handleInput o "@deploy now" (example_manager, []) =
      (r, (set_heap (<[mainAgent example_manager := main']> (heap example_manager))
             example_manager, [] ++ evs)) /\
    Forall no_new_agent evs.
Proof.
  cbv zeta. split.
  - exact (proj1 (plain_input_goes_to_the_main_agent
                    (scripted true [tool_call_response "ok" []] (exited 0))
                    example_manager "hello" [] example_main) eq_refl).
  - exact (proj2 (plain_input_goes_to_the_main_agent
                    (scripted true [tool_call_response "ok" []] (exited 0))
                    example_manager "@deploy now" [] example_main) eq_refl eq_refl).
Defined.

(** The manager of the examples, whose main agent has a history. *)
Lemma clearAllHistory_clears_witness :
  exists heap',
    clearAllHistory (example_manager, []) = (Ok tt, (set_heap heap' example_manager, [])) /\
    (forall l agent,
       heap example_manager !! l = Some agent -> managed example_manager l ->
       heap' !! l = Some (with_state (set_messages []) agent)) /\
    (forall l, ~ managed example_manager l -> heap' !! l = heap example_manager !! l).
Proof.
  apply (clearAllHistory_clears example_manager []).
  intros l [-> | [key Hkey]]; [by eexists|].
  cbn in Hkey. rewrite lookup_empty in Hkey. discriminate Hkey.
Defined.

(** ** The environment of an MCP server (mcp/client.ts) *)

Section ServerEnvironment.

Import Mcp.

Variable inherited : string -> string.
Variable process_env : gmap string string.

Lemma string_length_app (a b : string) :
  String.length (a +:+ b) = String.length a + String.length b.
Proof. induction a as [|c a IH]; [done|]. simpl. by rewrite IH. Qed.

Lemma replace_vars_skip (t rest : string) :
  replace_vars inherited process_env (String.length t) (t +:+ rest) =
  replace_vars inherited process_env 0 rest.
Proof. induction t as [|c t IH]; [by destruct rest | exact IH]. Qed.

Lemma replace_vars_unfold (c : ascii) (s : string) :
  replace_vars inherited process_env 0 (String c s) =
  match match_var (String c s) with
  | Some envVar =>
      env_value inherited process_env envVar +:+
      replace_vars inherited process_env (String.length envVar + 2) s
  | None => String c (replace_vars inherited process_env 0 s)
  end.
Proof. reflexivity. Qed.

Lemma span_word_stop (w : string) (c : ascii) (rest : string) :
  all_word w = true -> is_word c = false ->
  span_word (w +:+ String c rest) = (w, String c rest).
Proof.
  intros Hw Hc. induction w as [|a w IH].
  - simpl. by rewrite Hc.
  - simpl in Hw. apply andb_true_iff in Hw as [Ha Hw].
    change (span_word (String a (w +:+ String c rest)) = (String a w, String c rest)).
    cbn [span_word]. by rewrite Ha, (IH Hw).
Qed.

Lemma match_var_exact (envVar rest : string) :
  all_word envVar = true -> envVar <> "" ->
  match_var ("${" +:+ envVar +:+ "}" +:+ rest) = Some envVar.
Proof.
  intros Hword Hne.
  change ("${" +:+ envVar +:+ "}" +:+ rest)
    with (String "$" (String "{" (envVar +:+ String "}" rest))).
  cbn [match_var]. change (Ascii.eqb "$" "$" && Ascii.eqb "{" "{") with true. cbv iota.
  rewrite (span_word_stop _ _ _ Hword) by reflexivity.
  apply String.eqb_neq in Hne. by rewrite Hne.
Qed.

Lemma replace_vars_plain (a s : string) :
  no_dollar a = true ->
  replace_vars inherited process_env 0 (a +:+ s) =
  a +:+ replace_vars inherited process_env 0 s.
Proof.
  induction a as [|c a IH]; intros Ha; [reflexivity|].
  simpl in Ha. apply andb_true_iff in Ha as [Hc Ha]. apply negb_true_iff in Hc.
  change (String c a +:+ s) with (String c (a +:+ s)).
  cbn [replace_vars].
  assert (Hnone : match_var (String c (a +:+ s)) = None).
  { unfold match_var. destruct (a +:+ s); [done|]. by rewrite Hc. }
  rewrite Hnone, (IH Ha). reflexivity.
Qed.

(** The substitution of [connectServer]: text without a dollar sign is
    kept as it is; a reference to a variable is replaced by the value the
    process has for it; when the process has none, by nothing, unless the
    name is one of [Object.prototype] ([constructor], [toString],
    [__proto__], ...), for which the string form of the inherited function
    or object is put in; and the substitution goes on behind the
    reference: what was put in is not searched for references. *)
Theorem substitute_laws :
  (forall a s, no_dollar a = true ->
     substitute inherited process_env (a +:+ s) = a +:+ substitute inherited process_env s) /\
  (forall envVar s, all_word envVar = true -> envVar <> "" ->
     substitute inherited process_env ("${" +:+ envVar +:+ "}" +:+ s) =
       match process_env !! envVar with
       | Some value => value
       | None => if bool_decide (envVar ∈ Object_prototype) then inherited envVar else ""
       end +:+ substitute inherited process_env s) /\
  (forall s, no_dollar s = true -> substitute inherited process_env s = s).
Proof.
  unfold substitute. split; [|split].
  - apply replace_vars_plain.
  - intros envVar s Hword Hne.
    pose proof (match_var_exact envVar s Hword Hne) as Hmatch.
    assert (Hlen : String.length envVar + 2 = String.length (String "{" (envVar +:+ "}"))).
    { cbn [String.length]. rewrite string_length_app. cbn. lia. }
    change ("${" +:+ envVar +:+ "}" +:+ s)
      with (String "$" (String "{" (envVar +:+ String "}" s))) in *.
    rewrite replace_vars_unfold, Hmatch, Hlen. f_equal.
    + unfold env_value. destruct (process_env !! envVar); [done|].
      destruct (Js.array_includes Object_prototype envVar) eqn:Hin.
      * apply array_includes_elem in Hin. by rewrite bool_decide_true.
      * rewrite bool_decide_false; [done|]. intros Hin'.
        apply array_includes_elem in Hin'. congruence.
    + rewrite <- (replace_vars_skip (String "{" (envVar +:+ "}")) s). f_equal.
      change (String "{" (envVar +:+ "}") +:+ s) with (String "{" ((envVar +:+ "}") +:+ s)).
      by rewrite app_assoc_string.
  - intros s Hs. rewrite <- (app_empty_string s) at 1.
    rewrite replace_vars_plain by done. cbn. apply app_empty_string.
Qed.

Section Assignments.

Variable f : string -> string.

Lemma assign_all_other (entries : list (string * string)) (env : gmap string string)
    (key : string) :
  key ∉ entries.*1 \/ key = "__proto__" ->
  fold_left (fun env '(key, value) => assign key (f value) env) entries env !! key =
  env !! key.
Proof.
  revert env. induction entries as [|[k v] entries IH]; intros env Hkey; [done|].
  cbn [fold_left]. rewrite IH.
  - unfold assign. destruct (String.eqb_spec k "__proto__") as [->|Hk]; [done|].
    apply lookup_insert_ne. destruct Hkey as [Hkey | ->]; [|done].
    cbn in Hkey. by apply not_elem_of_cons in Hkey as [Hne _].
  - destruct Hkey as [Hkey | ->]; [left | by right].
    cbn in Hkey. by apply not_elem_of_cons in Hkey as [_ Hkey].
Qed.

Lemma assign_all_entry (entries : list (string * string)) (env : gmap string string)
    (key value : string) :
  NoDup entries.*1 -> (key, value) ∈ entries -> key <> "__proto__" ->
  fold_left (fun env '(key, value) => assign key (f value) env) entries env !! key =
  Some (f value).
Proof.
  revert env. induction entries as [|[k v] entries IH]; intros env Hdup Hin Hkey.
  - by apply elem_of_nil in Hin.
  - cbn in Hdup. apply NoDup_cons in Hdup as [Hk Hdup].
    cbn [fold_left]. apply elem_of_cons in Hin as [[= -> ->] | Hin].
    + rewrite assign_all_other by (by left). unfold assign.
      apply String.eqb_neq in Hkey. rewrite Hkey. apply lookup_insert_eq.
    + by apply IH.
Qed.

End Assignments.

(** The first loop of [connectServer] copies every variable of the process
    but one named [__proto__]. *)
Lemma process_variables_copied (key : string) :
  fold_left (fun env '(key, value) => assign key value env) (map_to_list process_env) ∅
    !! key =
  if String.eqb key "__proto__" then None else process_env !! key.
Proof.
  destruct (String.eqb_spec key "__proto__") as [->|Hkey].
  { by rewrite (assign_all_other (fun value => value)) by (by right). }
  destruct (process_env !! key) as [value|] eqn:Hvalue.
  - apply (assign_all_entry (fun value => value)); [apply NoDup_fst_map_to_list| |done].
    by apply elem_of_map_to_list.
  - rewrite (assign_all_other (fun value => value)); [done|]. left.
    intros Hin. apply list_elem_of_fmap in Hin as ([k v] & -> & Hin).
    apply elem_of_map_to_list in Hin. cbn in Hvalue. congruence.
Qed.

(** The environment of a server: an entry of [config.env] wins over the
    variable of the process with the same name; its value is substituted
    against the variables of the process, not against the other entries;
    every other variable of the process is passed on.  Under the name
    [__proto__] nothing is passed, neither a variable of the process nor
    an entry of [config.env]. *)
Theorem server_env_lookup (entries : list (string * string)) (key : string) :
  NoDup entries.*1 ->
  (forall value, (key, value) ∈ entries -> key <> "__proto__" ->
     server_env inherited process_env (Some entries) !! key =
       Some (substitute inherited process_env value)) /\
  (key ∉ entries.*1 -> key <> "__proto__" ->
   server_env inherited process_env (Some entries) !! key = process_env !! key) /\
  (key <> "__proto__" ->
   server_env inherited process_env None !! key = process_env !! key) /\
  server_env inherited process_env (Some entries) !! "__proto__" = None /\
  server_env inherited process_env None !! "__proto__" = None.
Proof.
  intros Hdup. unfold server_env. cbv zeta.
  split; [|split; [|split; [|split]]].
  - intros value Hin Hkey. by apply (assign_all_entry (substitute inherited process_env)).
  - intros Hin Hkey.
    rewrite (assign_all_other (substitute inherited process_env)) by (by left).
    rewrite process_variables_copied. apply String.eqb_neq in Hkey. by rewrite Hkey.
  - intros Hkey. rewrite process_variables_copied.
    apply String.eqb_neq in Hkey. by rewrite Hkey.
  - rewrite (assign_all_other (substitute inherited process_env)) by (by right).
    by rewrite process_variables_copied.
  - by rewrite process_variables_copied.
Qed.

End ServerEnvironment.

(** A token that holds a reference itself, a name the process has no
    variable for, and one that [Object.prototype] has. *)
Lemma substitute_laws_witness :
  let process_env : gmap string string :=
    {[ "HOME" := "/home/u"; "TOKEN" := "${HOME}" ]} in
  let inherited := fun name => "function " +:+ name +:+ "() { [native code] }" in
  Mcp.substitute inherited process_env "Bearer ${TOKEN}:${UNSET}." = "Bearer ${HOME}:." /\
  Mcp.substitute inherited process_env "${toString}" =
    "function toString() { [native code] }" /\
  Mcp.substitute inherited process_env ("${" +:+ "TOKEN" +:+ "}" +:+ "!") =
    "${HOME}" +:+ Mcp.substitute inherited process_env "!" /\
  Mcp.substitute inherited process_env ("Bearer " +:+ "${TOKEN}") =
    "Bearer " +:+ Mcp.substitute inherited process_env "${TOKEN}".
Proof.
  cbv zeta. split; [by vm_compute|]. split; [by vm_compute|].
  pose proof (substitute_laws (fun name => "function " +:+ name +:+ "() { [native code] }")
                {[ "HOME" := "/home/u"; "TOKEN" := "${HOME}" ]})
    as (Hplain & Hvar & _).
  split.
  - exact (Hvar "TOKEN" "!" eq_refl ltac:(discriminate)).
  - by apply Hplain.
Defined.

Lemma server_env_lookup_witness :
  let process_env : gmap string string := {[ "HOME" := "/home/u"; "PATH" := "/bin" ]} in
  let inherited := fun name => "function " +:+ name +:+ "() { [native code] }" in
  let entries := [("HOME", "/srv"); ("ROOT", "${HOME}/data"); ("__proto__", "x")] in
  Mcp.server_env inherited process_env (Some entries) !! "ROOT" = Some "/home/u/data" /\
  Mcp.server_env inherited process_env (Some entries) !! "HOME" = Some "/srv" /\
  Mcp.server_env inherited process_env (Some entries) !! "PATH" = Some "/bin" /\
  Mcp.server_env inherited process_env (Some entries) !! "__proto__" = None.
Proof.
  cbv zeta.
  assert (Hdup : NoDup [("HOME", "/srv"); ("ROOT", "${HOME}/data"); ("__proto__", "x")].*1).
  { cbn. repeat constructor; rewrite ?elem_of_cons, ?elem_of_nil; intuition discriminate. }
  split; [|split; [|split]].
  - exact (proj1 (server_env_lookup
                    (fun name => "function " +:+ name +:+ "() { [native code] }")
                    {[ "HOME" := "/home/u"; "PATH" := "/bin" ]}
                    [("HOME", "/srv"); ("ROOT", "${HOME}/data"); ("__proto__", "x")]
                    "ROOT" Hdup)
             "${HOME}/data" ltac:(rewrite ?elem_of_cons; auto) ltac:(discriminate)).
  - exact (proj1 (server_env_lookup
                    (fun name => "function " +:+ name +:+ "() { [native code] }")
                    {[ "HOME" := "/home/u"; "PATH" := "/bin" ]}
                    [("HOME", "/srv"); ("ROOT", "${HOME}/data"); ("__proto__", "x")]
                    "HOME" Hdup)
             "/srv" ltac:(rewrite ?elem_of_cons; auto) ltac:(discriminate)).
  - exact (proj1 (proj2 (server_env_lookup
                           (fun name => "function " +:+ name +:+ "() { [native code] }")
                           {[ "HOME" := "/home/u"; "PATH" := "/bin" ]}
                           [("HOME", "/srv"); ("ROOT", "${HOME}/data"); ("__proto__", "x")]
                           "PATH" Hdup))
             ltac:(cbn; rewrite ?elem_of_cons, ?elem_of_nil; intuition discriminate)
             ltac:(discriminate)).
  - exact (proj1 (proj2 (proj2 (proj2 (server_env_lookup
                           (fun name => "function " +:+ name +:+ "() { [native code] }")
                           {[ "HOME" := "/home/u"; "PATH" := "/bin" ]}
                           [("HOME", "/srv"); ("ROOT", "${HOME}/data"); ("__proto__", "x")]
                           "ROOT" Hdup))))).
Defined.


(** ** Consent during a run (agent/index.ts, tools) *)

Section RunConsent.

Variable out : Outside.

Lemma consent_first_weaken (config : AppConfig) (prev : option Event) (evs : list Event) :
  consent_first config None evs = true -> consent_first config prev evs = true.
Proof.
  destruct evs as [|e evs]; [done|]. cbn [consent_first].
  destruct (needs_consent config e); [done|]. by destruct prev.
Qed.

Lemma consent_first_app (config : AppConfig) (prev : option Event) (a b : list Event) :
  consent_first config prev a = true -> consent_first config None b = true ->
  consent_first config prev (a ++ b) = true.
Proof.
  revert prev. induction a as [|e a IH]; intros prev Ha Hb.
  - by apply consent_first_weaken.
  - cbn [consent_first app] in *. apply andb_prop in Ha as [He Ha].
    rewrite He. by apply IH.
Qed.

Lemma needs_consent_high_risk (config : AppConfig) (e : Event) :
  needs_consent config e = true -> high_risk_action e = true.
Proof. by destruct e as [| | | | | | |[]| |]. Qed.

Lemma confirmed_consent (config : AppConfig) (prev : option Event) (evs : list Event) :
  confirmed_first prev evs = true -> consent_first config prev evs = true.
Proof.
  revert prev. induction evs as [|e evs IH]; intros prev H; [done|].
  cbn [confirmed_first consent_first] in *. apply andb_prop in H as [He H].
  rewrite (IH _ H), andb_true_r.
  destruct (needs_consent config e) eqn:Hneed; [|done].
  by rewrite (needs_consent_high_risk _ _ Hneed) in He.
Qed.

Lemma kills_consent (config : AppConfig) (prev : option Event) (kills : list Event) :
  Forall (fun e => e = EvKill "SIGKILL") kills -> consent_first config prev kills = true.
Proof.
  intros H. revert prev. induction H as [|e kills -> _ IH]; intros prev; [done|].
  cbn [consent_first needs_consent]. apply IH.
Qed.

Lemma needConfirm_consent (this : Agent) (command : string) :
  run_command_needConfirm command (createToolContext out this) =
    needs_consent (appConfig this) (EvSpawn command "" JUndefined).
Proof.
  unfold run_command_needConfirm, needs_consent. cbn [createToolContext ctx_config ctx_autoConfirm].
  by destruct (isDangerousCommand command), (isCommandAllowed command (appConfig this)),
    (autoConfirm (appConfig this)).
Qed.

(** write_file and append_file delete nothing and start nothing. *)
Lemma store_file_harmless (op : FsOp) (a b c d e : string) (args : Args) (this : Agent) :
  high_risk_action (EvFs op "") = false ->
  emits (fun e => negb (high_risk_action e))
    (store_file_execute out op a b c d e args (createToolContext out this)).
Proof.
  intros Hop.
  assert (Hfs : forall path, negb (high_risk_action (EvFs op path)) = true).
  { intros path. by destruct op. }
  unfold store_file_execute. cbv zeta.
  repeat first
    [ apply emits_ret | apply emits_throw
    | apply emits_bind; [|intros ?]
    | apply emits_try_catch; [|intros ?]
    | apply emits_ask; by intros ?
    | apply emits_one; first [apply Hfs | reflexivity]
    | match goal with
      | |- emits _ (confirmAction _ _ _) =>
          unfold createToolContext at 1, confirmAction;
          destruct (_ && _); [apply emits_ret | apply emits_ask; by intros ?]
      | |- emits _ (if ?c then _ else _) => destruct c
      | |- emits _ (match ?x with _ => _ end) => destruct x
      end ].
Qed.

Lemma harmless_consent {A} (config : AppConfig) (m : IO A) :
  emits (fun e => negb (high_risk_action e)) m ->
  io_spec (fun evs => consent_first config None evs = true) m.
Proof.
  intros Hm t. destruct (Hm t) as (evs & Ht & Hevs). exists evs. split; [exact Ht|].
  apply confirmed_consent, confirmed_first_safe.
  eapply Forall_impl; [exact Hevs|]. intros e He. by apply negb_true_iff.
Qed.

(** run_command: the subprocess comes right after an accepted prompt
    whenever the command needs consent. *)
Lemma run_command_consent (args : Args) (this : Agent) :
  io_spec (fun evs => consent_first (appConfig this) None evs = true)
    (run_command_execute out args (createToolContext out this)).
Proof.
  intros t.
  destruct (prop args "command") as [| | | |command| |] eqn:Hcmd;
    try (exists []; rewrite app_nil_r; split; [|reflexivity];
         unfold run_command_execute, try_catch; rewrite Hcmd; cbn [js_truthy negb];
         by repeat match goal with |- context [if ?c then _ else _] => destruct c end).
  destruct (decide (Js.trim command = "")) as [Hblank | Htrim].
  { exists []. rewrite app_nil_r. split; [|reflexivity].
    unfold run_command_execute, try_catch. rewrite Hcmd. cbn [js_truthy].
    apply String.eqb_eq in Hblank. rewrite Hblank.
    by destruct (negb (Js.truthy command)). }
  rewrite (run_command_valid out args _ command t Hcmd Htrim). cbv zeta.
  rewrite needConfirm_consent.
  assert (Hrun : forall t1 prev,
            (needs_consent (appConfig this) (EvSpawn command "" JUndefined) = true ->
             exists message, prev = Some (EvConfirm message true)) ->
            exists evs,
              (match executeCommand out command
                       (ctx_workingDirectory (createToolContext out this))
                       (run_command_timeout args) t1 return Result ToolResult * Trace with
               | (Ok result, t2) => (Ok (succeeded (RunCommandResult_data result)), t2)
               | (Throw e, t2) => (Ok (failed ("命令执行失败: " +:+ e)), t2)
               end).2 = t1 ++ evs /\
              consent_first (appConfig this) prev evs = true).
  { intros t1 prev Hprev.
    destruct (executeCommand_trace out command
                (ctx_workingDirectory (createToolContext out this))
                (run_command_timeout args) t1) as (kills & Htrace & Hkills).
    eexists. split.
    - destruct (executeCommand out command _ _ t1) as [[r|e] t2]; exact Htrace.
    - cbn [consent_first]. rewrite (kills_consent _ _ _ Hkills), andb_true_r.
      change (needs_consent (appConfig this)
                (EvSpawn command (ctx_workingDirectory (createToolContext out this))
                   (run_command_timeout args)))
        with (needs_consent (appConfig this) (EvSpawn command "" JUndefined)).
      destruct (needs_consent _ _); [|done].
      by destruct (Hprev eq_refl) as [message ->]. }
  destruct (needs_consent (appConfig this) (EvSpawn command "" JUndefined)) eqn:Hneed.
  - assert (Hask : forall message riskLevel,
              (riskLevel = "high" \/ autoConfirm (appConfig this) = false) ->
              confirmAction (createToolContext out this) message riskLevel t =
                (Ok (ui_confirm out message t),
                 t ++ [EvConfirm message (ui_confirm out message t)])).
    { intros message riskLevel [-> | Hauto];
        [apply confirmAction_high | by apply confirmAction_manual]. }
    rewrite Hask.
    2:{ cbn [needs_consent] in Hneed. destruct (isDangerousCommand command); [by left|].
        right. by destruct (autoConfirm (appConfig this)). }
    destruct (ui_confirm out _ t) eqn:Hanswer.
    + destruct (Hrun (t ++ [EvConfirm (run_command_prompt (isDangerousCommand command) command) true])
                  (Some (EvConfirm (run_command_prompt (isDangerousCommand command) command) true)))
        as (evs & Htrace & Hevs); [by eexists|].
      exists (EvConfirm (run_command_prompt (isDangerousCommand command) command) true :: evs).
      split; [by rewrite Htrace, <- app_assoc|]. exact Hevs.
    + by eexists.
  - destruct (Hrun t None) as (evs & Htrace & Hevs); [done|]. by exists evs.
Qed.

Lemma try_catch_ret_trace {A} (m : IO A) (f : string -> A) (t : Trace) :
  (try_catch m (fun e => ret (f e)) t).2 = (m t).2.
Proof. unfold try_catch, ret. by destruct (m t) as [[a|e] t1]. Qed.

(** agent/index.ts: a tool call of an agent. *)
Lemma executeToolCall_consent (this : Agent) (toolCall : ToolCall) :
  io_spec (fun evs => consent_first (appConfig this) None evs = true)
    (executeToolCall out this toolCall).
Proof.
  assert (Hnothing : forall (a : Result ToolResult),
            io_spec (fun evs => consent_first (appConfig this) None evs = true)
              (fun t => (a, t))).
  { intros a t. exists []. by rewrite app_nil_r. }
  unfold executeToolCall. destruct (getTool out (tc_name toolCall)) as [tool|] eqn:Hget;
    [|apply Hnothing].
  destruct (availableTools _); [|apply Hnothing].
  destruct (negb _); [apply Hnothing|].
  unfold executeTool. rewrite Hget. intros t. rewrite try_catch_ret_trace. revert t.
  apply registry_lookup in Hget as [Hin _].
  repeat (apply elem_of_cons in Hin as [-> | Hin];
          [first [ by apply harmless_consent, store_file_harmless
                 | apply run_command_consent
                 | intros t;
                   destruct (delete_file_confirmed out (tc_arguments toolCall) this t)
                     as (evs & Ht & Hevs);
                   exists evs; split; [exact Ht | by apply confirmed_consent]
                 | intros t; by eexists ] |]).
  by apply elem_of_nil in Hin.
Qed.

(** During a run of an agent, every deletion, every dangerous command,
    and, without auto-confirm, every command that is not on the white
    list comes right after a prompt that the user accepted, whatever the
    model answers and however many tool calls it asks for. *)
Theorem run_acts_only_after_consent (this : Agent) (userMessage : string) (t : Trace) :
  exists evs this',
    (run out userMessage (this, t)).2 = (this', t ++ evs) /\
    consent_first (appConfig this) None evs = true /\
    appConfig this' = appConfig this.
Proof.
  apply (run_trace_invariant out
           (fun evs => consent_first (appConfig this) None evs = true)
           (fun this' => appConfig this' = appConfig this)); try done.
  - intros a b Ha Hb. by apply consent_first_app.
  - intros this' toolCall <-. apply executeToolCall_consent.
Qed.

(** The property tells runs apart: a deletion or a dangerous command with
    no accepted prompt right before it is not allowed. *)
Example consent_first_examples :
  let config := example_config true DEFAULT_PROJECT_CONFIG in
  consent_first config None [EvFs unlinkSync "/home/u/proj/a.ts"] = false /\
  consent_first config None
    [EvConfirm "m" false; EvFs unlinkSync "/home/u/proj/a.ts"] = false /\
  consent_first config None
    [EvConfirm "m" true; EvExists "/home/u/proj/a.ts" true;
     EvFs unlinkSync "/home/u/proj/a.ts"] = false /\
  consent_first config None
    [EvConfirm "m" true; EvFs unlinkSync "/home/u/proj/a.ts"] = true /\
  consent_first config None [EvSpawn "sudo reboot" "/home/u/proj" JUndefined] = false /\
  consent_first config None [EvSpawn "ls" "/home/u/proj" JUndefined] = true /\
  consent_first (example_config false DEFAULT_PROJECT_CONFIG) None
    [EvSpawn "make" "/home/u/proj" JUndefined] = false.
Proof. vm_compute. by repeat split. Qed.

End RunConsent.
